(** * PyGEM glacier dynamics: the mass-redistribution engine

    A shallow embedding of [pygem/glacierdynamics.py]
    (class [MassRedistributionCurveModel]): the Huss redistribution curve,
    the retreat and advance loops, the yearly geometry update and the
    post-run validation of [run_until].

    Numbers.  The program computes with numpy [float64] arrays.  A value is
    modelled as an exact rational or one of the three IEEE special values
    [+inf], [-inf], [nan]; arithmetic on finite values is exact (rounding
    and overflow are idealised away), arithmetic that involves a special
    value or a division by zero follows IEEE 754 as numpy applies it
    (a warning, never an exception).  A result that equates two computed
    finite values holds in exact arithmetic and up to rounding in
    [float64]; it says so.  The other results rest on comparisons, on the
    selection of a branch, on the clipping at zero, on [nan] and on the
    order of the statements.

    Arrays are lists.  All arrays of one flowline have [nx] entries;
    elementwise operations are zips.

    The OGGM flowline class (bed shape) is not part of this repository: it
    enters as a record [bed] of three per-bin maps. *)

From Stdlib Require Import List Bool Arith ZArith QArith Qcanon Qround Lia.
From Stdlib Require String.
Import ListNotations.

Set Implicit Arguments.

(* ================================================================== *)
(** ** Numbers *)

Inductive num : Type :=
| Fin (q : Qc)
| PInf
| NInf
| NaN.

Declare Scope num_scope.
Delimit Scope num_scope with num.
Bind Scope num_scope with num.

Definition qc (n : Z) (d : positive) : Qc := Q2Qc (n # d).
Definition fin (n : Z) (d : positive) : num := Fin (qc n d).
Definition nz (n : Z) : num := fin n 1.

Definition zero : num := nz 0.
Definition one : num := nz 1.

(** Sign of a rational: [Lt], [Eq] or [Gt] with respect to zero. *)
Definition qsign (q : Qc) : comparison := (q ?= 0)%Qc.

Definition is_nan (x : num) : bool :=
  match x with NaN => true | _ => false end.

Definition isfinite (x : num) : bool :=
  match x with Fin _ => true | _ => false end.

Definition nneg (x : num) : num :=
  match x with
  | Fin q => Fin (- q)
  | PInf => NInf
  | NInf => PInf
  | NaN => NaN
  end.

Definition nadd (x y : num) : num :=
  match x, y with
  | NaN, _ | _, NaN => NaN
  | Fin a, Fin b => Fin (a + b)
  | PInf, NInf | NInf, PInf => NaN
  | PInf, _ | _, PInf => PInf
  | NInf, _ | _, NInf => NInf
  end.

Definition nsub (x y : num) : num := nadd x (nneg y).

(** An infinity of the sign of [c] times [+inf] ([nan] for zero). *)
Definition inf_of_sign (c : comparison) : num :=
  match c with Gt => PInf | Lt => NInf | Eq => NaN end.

Definition sign_mul (c d : comparison) : comparison :=
  match c, d with
  | Eq, _ | _, Eq => Eq
  | Gt, Gt | Lt, Lt => Gt
  | _, _ => Lt
  end.

Definition nmul (x y : num) : num :=
  match x, y with
  | NaN, _ | _, NaN => NaN
  | Fin a, Fin b => Fin (a * b)
  | Fin a, PInf | PInf, Fin a => inf_of_sign (qsign a)
  | Fin a, NInf | NInf, Fin a => inf_of_sign (sign_mul (qsign a) Lt)
  | PInf, PInf | NInf, NInf => PInf
  | PInf, NInf | NInf, PInf => NInf
  end.

(** numpy division: [x / 0] is [+-inf] for [x <> 0] and [nan] for [0 / 0]. *)
Definition ndiv (x y : num) : num :=
  match x, y with
  | NaN, _ | _, NaN => NaN
  | Fin a, Fin b =>
      match qsign b with
      | Eq => inf_of_sign (qsign a)
      | _ => Fin (a / b)
      end
  | Fin _, _ => zero
  | _, PInf | _, NInf => NaN
  | PInf, Fin b => match qsign b with Lt => NInf | _ => PInf end
  | NInf, Fin b => match qsign b with Lt => PInf | _ => NInf end
  end.

Definition nabs (x : num) : num :=
  match x with
  | Fin q => match qsign q with Lt => Fin (- q) | _ => Fin q end
  | PInf | NInf => PInf
  | NaN => NaN
  end.

(** Comparisons; every comparison with [nan] is false. *)
Definition nlt (x y : num) : bool :=
  match x, y with
  | NaN, _ | _, NaN => false
  | Fin a, Fin b => match (a ?= b)%Qc with Lt => true | _ => false end
  | NInf, NInf => false
  | NInf, _ => true
  | _, NInf => false
  | PInf, _ => false
  | _, PInf => true
  end.

Definition ngt (x y : num) : bool := nlt y x.

Definition neqb (x y : num) : bool :=
  match x, y with
  | Fin a, Fin b => match (a ?= b)%Qc with Eq => true | _ => false end
  | PInf, PInf | NInf, NInf => true
  | _, _ => false
  end.

Definition nle (x y : num) : bool := nlt x y || neqb x y.

(** [x != 0], the test behind [ndarray.nonzero()]. *)
Definition nonzerob (x : num) : bool := negb (neqb x zero).

Infix "+" := nadd : num_scope.
Infix "-" := nsub : num_scope.
Infix "*" := nmul : num_scope.
Infix "/" := ndiv : num_scope.
Notation "- x" := (nneg x) : num_scope.
Infix "<?" := nlt : num_scope.
Infix ">?" := ngt : num_scope.
Infix "<=?" := nle : num_scope.
Infix "=?" := neqb : num_scope.

Local Open Scope num_scope.

(** [x ** n] for a positive Python [int] exponent. *)
Fixpoint npow (x : num) (n : nat) : num :=
  match n with
  | O => one
  | S m => nmul x (npow x m)
  end.

(** [np.maximum] / [np.minimum]: [nan] propagates. *)
Definition nmax (x y : num) : num :=
  if is_nan x || is_nan y then NaN else if nlt x y then y else x.

Definition nmin (x y : num) : num :=
  if is_nan x || is_nan y then NaN else if nlt y x then y else x.

(** [oggm.utils.clip_min(x, v)], an elementwise [np.maximum]. *)
Definition clip_min (x v : num) : num := nmax x v.

(* ================================================================== *)
(** ** Exceptions and results *)

Inductive exn : Type :=
| ValueError
| IndexError
| RuntimeError
| FloatingPointError
| AssertionError.

(** The outcome of a call: a value, a raised exception, or a loop that was
    still running when the fuel of the model ran out. *)
Inductive res (A : Type) : Type :=
| Ok (a : A)
| Raise (e : exn)
| OutOfFuel.

Arguments Ok {A} a.
Arguments Raise {A} e.
Arguments OutOfFuel {A}.

Definition bind {A B : Type} (m : res A) (k : A -> res B) : res B :=
  match m with
  | Ok a => k a
  | Raise e => Raise e
  | OutOfFuel => OutOfFuel
  end.

Notation "x <- m ;; k" := (bind m (fun x => k))
  (at level 61, m at next level, right associativity).
Notation "' pat <- m ;; k" := (bind m (fun x => match x with pat => k end))
  (at level 61, pat pattern, m at next level, right associativity).

(** [try: body except: handler] with a bare [except]. *)
Definition try_except {A : Type} (body handler : res A) : res A :=
  match body with
  | Raise _ => handler
  | r => r
  end.

(* ================================================================== *)
(** ** numpy arrays as lists *)

Definition zeros (n : nat) : list num := repeat zero n.

(** Elementwise binary operation. *)
Fixpoint zipw {A B C : Type} (f : A -> B -> C) (xs : list A) (ys : list B) : list C :=
  match xs, ys with
  | x :: xs', y :: ys' => f x y :: zipw f xs' ys'
  | _, _ => []
  end.

(** [f] applied to each entry together with its index, counting from [i]. *)
Fixpoint mapi_from {A B : Type} (f : nat -> A -> B) (i : nat) (xs : list A) : list B :=
  match xs with
  | [] => []
  | x :: xs' => f i x :: mapi_from f (S i) xs'
  end.

Definition mapi {A B : Type} (f : nat -> A -> B) (xs : list A) : list B :=
  mapi_from f 0 xs.

(** [arr.sum()]. *)
Definition asum (xs : list num) : num := fold_left nadd xs zero.

(** [arr.max()] and [arr.min()]: a [ValueError] on an empty array. *)
Definition amax (xs : list num) : res num :=
  match xs with
  | [] => Raise ValueError
  | x :: xs' => Ok (fold_left nmax xs' x)
  end.

Definition amin (xs : list num) : res num :=
  match xs with
  | [] => Raise ValueError
  | x :: xs' => Ok (fold_left nmin xs' x)
  end.

(** Indices of the true entries of a mask: [np.where(mask)[0]]. *)
Fixpoint where_from (i : nat) (m : list bool) : list nat :=
  match m with
  | [] => []
  | b :: m' => if b then i :: where_from (S i) m' else where_from (S i) m'
  end.

Definition where_ (m : list bool) : list nat := where_from 0 m.

(** [arr.nonzero()[0]]. *)
Definition nonzero (xs : list num) : list nat := where_ (map nonzerob xs).

(** [arr[i]] for one index. *)
Definition get (xs : list num) (i : nat) : res num :=
  match nth_error xs i with
  | Some x => Ok x
  | None => Raise IndexError
  end.

(** [arr[idx]] for an index array. *)
Fixpoint take (xs : list num) (idx : list nat) : res (list num) :=
  match idx with
  | [] => Ok []
  | i :: idx' =>
      x <- get xs i ;;
      r <- take xs idx' ;;
      Ok (x :: r)
  end.

(** [arr[mask]] for a boolean mask. *)
Fixpoint select {A : Type} (xs : list A) (m : list bool) : list A :=
  match xs, m with
  | x :: xs', b :: m' => if b then x :: select xs' m' else select xs' m'
  | _, _ => []
  end.

(** [arr[mask] = v] for a scalar [v]. *)
Definition mask_set (xs : list num) (m : list bool) (v : num) : list num :=
  zipw (fun x (b : bool) => if b then v else x) xs m.

(** [arr[mask] = vs] for an array [vs]: the values fill the true places in
    order; numpy raises a [ValueError] when their number differs from the
    number of true places. *)
Fixpoint mask_put (xs : list num) (m : list bool) (vs : list num) : res (list num) :=
  match xs, m with
  | x :: xs', b :: m' =>
      if b then
        match vs with
        | v :: vs' => r <- mask_put xs' m' vs' ;; Ok (v :: r)
        | [] => Raise ValueError
        end
      else r <- mask_put xs' m' vs ;; Ok (x :: r)
  | _, _ => match vs with [] => Ok xs | _ => Raise ValueError end
  end.

(** [arr[i] = v] for one index. *)
Fixpoint set_at (xs : list num) (i : nat) (v : num) : res (list num) :=
  match xs, i with
  | [], _ => Raise IndexError
  | _ :: xs', O => Ok (v :: xs')
  | x :: xs', S j => r <- set_at xs' j v ;; Ok (x :: r)
  end.

(** [arr[idx] = v] for an index array and a scalar. *)
Fixpoint idx_set (xs : list num) (idx : list nat) (v : num) : res (list num) :=
  match idx with
  | [] => Ok xs
  | i :: idx' => r <- set_at xs i v ;; idx_set r idx' v
  end.

(** [arr[idx] = vs] for an index array and an array of the same length. *)
Fixpoint idx_put (xs : list num) (idx : list nat) (vs : list num) : res (list num) :=
  match idx, vs with
  | [], [] => Ok xs
  | i :: idx', v :: vs' => r <- set_at xs i v ;; idx_put r idx' vs'
  | _, _ => Raise ValueError
  end.

(** [np.where(mask)[0][0]]: an [IndexError] when no entry is true. *)
Definition where_first (m : list bool) : res nat :=
  match where_ m with
  | i :: _ => Ok i
  | [] => Raise IndexError
  end.

(** [np.mean(arr)]; the mean of an empty array is [nan] (a warning). *)
Definition mean (xs : list num) : num :=
  asum xs / nz (Z.of_nat (length xs)).

(** [lst.remove(i)]: drops the first occurrence, a [ValueError] if none. *)
Fixpoint list_remove (i : nat) (lst : list nat) : res (list nat) :=
  match lst with
  | [] => Raise ValueError
  | j :: lst' =>
      if Nat.eqb i j then Ok lst'
      else r <- list_remove i lst' ;; Ok (j :: r)
  end.

(** [np.any(mask)]. *)
Definition any (m : list bool) : bool := existsb (fun b => b) m.

(* ================================================================== *)
(** ** Flowlines *)

(** The bed geometry of an OGGM flowline, bin by bin: the cross-section
    that a thickness gives ([section] getter), the thickness that the
    [section] setter stores for a cross-section, and the width that a
    thickness gives ([widths_m] getter). *)
Record bed : Type := {
  sec_of : nat -> num -> num;
  thk_of : nat -> num -> num;
  wid_of : nat -> num -> num
}.

(** [self.fls[0]]: the stored thickness, the bed elevation and the bin
    spacing. *)
Record flowline : Type := {
  thick : list num;
  bed_h : list num;
  dx_meter : num
}.

Definition with_thick (fl : flowline) (t : list num) : flowline :=
  {| thick := t; bed_h := bed_h fl; dx_meter := dx_meter fl |}.

(** [pygem_input.py] *)
Definition tolerance : num := fin 1 1000000000000.
Definition icethickness_advancethreshold : num := nz 5.
Definition terminus_percentage : num := nz 20.

(** The coefficients of the normalised ice-thickness-change curve. *)
Record coeffs : Type := {
  c_gamma : nat;
  c_a : num;
  c_b : num;
  c_c : num
}.

Definition coeffs_large : coeffs :=
  {| c_gamma := 6; c_a := fin (-2) 100; c_b := fin 12 100; c_c := nz 0 |}.
Definition coeffs_medium : coeffs :=
  {| c_gamma := 4; c_a := fin (-5) 100; c_b := fin 19 100; c_c := fin 1 100 |}.
Definition coeffs_small : coeffs :=
  {| c_gamma := 2; c_a := fin (-30) 100; c_b := fin 60 100; c_c := fin 9 100 |}.

(** Lines 642-647. *)
Definition select_coeffs (area_sum : num) : coeffs :=
  if area_sum >? nz 20 then coeffs_large
  else if area_sum >? nz 5 then coeffs_medium
  else coeffs_small.

(** [(h + a)**gamma + b*(h + a) + c] *)
Definition curve_value (k : coeffs) (h : num) : num :=
  (npow (h + c_a k) (c_gamma k) + c_b k * (h + c_a k) + c_c k)%num.

(** Lines 664-665: the two masked assignments that limit the curve. *)
Definition clip01 (xs : list num) : list num :=
  let xs1 := mask_set xs (map (fun x => x >? one) xs) one in
  mask_set xs1 (map (fun x => x <? zero) xs1) zero.

(** Lines 637-638: [width_t0 * dx] with the bins of zero thickness zeroed. *)
Definition glacier_area (dx : num) (width_t0 thick_t0 : list num) : list num :=
  let area := map (fun w => (w * dx)%num) width_t0 in
  mask_set area (map (fun t => t =? zero) thick_t0) zero.

(** Lines 649-665: the normalised ice thickness change of every bin. *)
Definition icethicknesschange_norm (k : coeffs) (glacier_area_t0 : list num)
    (glac_idx_t0 : list nat) (heights : list num) : res (list num) :=
  let mask := map (fun x => x >? zero) glacier_area_t0 in
  let n := length glacier_area_t0 in
  hs <- take heights glac_idx_t0 ;;
  hmax <- amax hs ;;
  hmin <- amin hs ;;
  elevrange_norm <-
    mask_put (zeros n) mask (map (fun h => ((hmax - h) / (hmax - hmin))%num) hs) ;;
  norm <-
    mask_put (zeros n) mask (map (curve_value k) (select elevrange_norm mask)) ;;
  Ok (clip01 norm).

(** Lines 640-676: the volume change of every bin. *)
Definition bin_volumechange (dx : num) (thick_t0 width_t0 : list num)
    (glac_idx_t0 : list nat) (glacier_volumechange : num)
    (massbalclim_annual heights : list num) : res (list num) :=
  let glacier_area_t0 := glacier_area dx width_t0 thick_t0 in
  if (3 <? length glac_idx_t0)%nat then
    let k := select_coeffs (asum glacier_area_t0) in
    norm <- icethicknesschange_norm k glacier_area_t0 glac_idx_t0 heights ;;
    let fs_huss := (glacier_volumechange / asum (zipw nmul glacier_area_t0 norm))%num in
    Ok (zipw (fun nm a => (nm * fs_huss * a)%num) norm glacier_area_t0)
  else
    Ok (zipw nmul massbalclim_annual glacier_area_t0).

Section Model.

Variable B : bed.

(** The properties of the flowline that the code reads. *)
Definition section (fl : flowline) : list num := mapi (sec_of B) (thick fl).
Definition widths_m (fl : flowline) : list num := mapi (wid_of B) (thick fl).
Definition surface_h (fl : flowline) : list num := zipw nadd (thick fl) (bed_h fl).

(** [fl.section = val] *)
Definition set_section (fl : flowline) (val : list num) : flowline :=
  with_thick fl (mapi (thk_of B) val).

(** [_massredistributioncurveHuss]: the flowline after the call, the ice
    thickness change of every bin and the remaining volume change. *)
Definition massredistributioncurveHuss (fl : flowline)
    (section_t0 thick_t0 width_t0 : list num) (glac_idx_t0 : list nat)
    (glacier_volumechange : num) (massbalclim_annual heights : list num)
  : res (flowline * (list num * num)) :=
  let dx := dx_meter fl in
  bvc <- bin_volumechange dx thick_t0 width_t0 glac_idx_t0 glacier_volumechange
           massbalclim_annual heights ;;
  let section_change := map (fun v => (v / dx)%num) bvc in
  let fl1 :=
    set_section fl
      (map (fun s => clip_min s zero) (zipw nadd (section fl) section_change)) in
  let icethickness_change := zipw nsub (thick fl1) thick_t0 in
  let remaining :=
    zipw nsub bvc
      (zipw nsub (map (fun s => (s * dx)%num) (section fl1))
                 (map (fun s => (s * dx)%num) section_t0)) in
  let remaining :=
    mask_set remaining (map (fun x => nabs x <? tolerance) remaining) zero in
  Ok (fl1, (icethickness_change, asum remaining)).

(** *** Retreat: lines 464-485 *)

(** One pass of the body of [while glacier_volumechange_remaining < 0]. *)
Definition retreat_step (fl : flowline) (thick_t0 heights : list num)
    (glacier_volumechange_remaining : num)
  : res (flowline * (list num * num)) :=
  let section_t0_retreated := section fl in
  let thick_t0_retreated := thick fl in
  let width_t0_retreated := widths_m fl in
  let glacier_volumechange_remaining_retreated := glacier_volumechange_remaining in
  let glac_idx_t0_retreated := nonzero thick_t0_retreated in
  let glacier_area_t0_retreated :=
    glacier_area (dx_meter fl) width_t0_retreated thick_t0 in
  massbalclim_retreat <-
    idx_set (zeros (length thick_t0_retreated)) glac_idx_t0_retreated
      (glacier_volumechange_remaining / asum glacier_area_t0_retreated) ;;
  massredistributioncurveHuss fl section_t0_retreated thick_t0_retreated
    width_t0_retreated glac_idx_t0_retreated
    glacier_volumechange_remaining_retreated massbalclim_retreat heights.

Fixpoint retreat_loop (fuel : nat) (fl : flowline) (thick_t0 heights : list num)
    (icethickness_change : list num) (glacier_volumechange_remaining : num)
  : res (flowline * (list num * num)) :=
  if glacier_volumechange_remaining <? zero then
    match fuel with
    | O => OutOfFuel
    | S fuel' =>
        '(fl', (ic', rem')) <-
          retreat_step fl thick_t0 heights glacier_volumechange_remaining ;;
        retreat_loop fuel' fl' thick_t0 heights ic' rem'
    end
  else Ok (fl, (icethickness_change, glacier_volumechange_remaining)).

(** *** Advance: lines 494-589 *)

(** Lines 499-517: snapshot, cap the thickness of the advancing bins at the
    threshold, and the volume this frees. *)
Definition advance_cap (fl : flowline) (icethickness_change : list num)
  : res (flowline * (list num * list num * list num * num)) :=
  let dx := dx_meter fl in
  let section_raw := section fl in
  let thick_t0_raw := thick fl in
  let width_t0_raw := widths_m fl in
  let glacier_area_t0_raw := map (fun w => w * dx) width_t0_raw in
  let ic :=
    mask_set icethickness_change
      (map (fun x => x <=? icethickness_advancethreshold) icethickness_change) zero in
  let glac_idx_advance := nonzero ic in
  th_adv <- take (thick fl) glac_idx_advance ;;
  ic_adv <- take ic glac_idx_advance ;;
  th_new <-
    idx_put (thick fl) glac_idx_advance
      (zipw (fun t c => t - (c - icethickness_advancethreshold)) th_adv ic_adv) ;;
  let fl1 := with_thick fl th_new in
  let area_t1 := map (fun w => w * dx) (widths_m fl1) in
  a_raw <- take glacier_area_t0_raw glac_idx_advance ;;
  t_raw <- take thick_t0_raw glac_idx_advance ;;
  a_t1 <- take area_t1 glac_idx_advance ;;
  t_t1 <- take (thick fl1) glac_idx_advance ;;
  let adv_volume := asum (zipw nmul a_raw t_raw) - asum (zipw nmul a_t1 t_t1) in
  Ok (fl1, (section_raw, ic, area_t1, adv_volume)).

(** Lines 519-527: the bin to add and its cross-section. *)
Definition advance_colonize (fl : flowline) (adv_volume : num)
  : res (flowline * (list nat * nat)) :=
  let advance_section := adv_volume / dx_meter fl in
  let glac_idx_t0 := nonzero (thick fl) in
  sh_glac <- take (surface_h fl) glac_idx_t0 ;;
  min_elev <- amin sh_glac ;;
  lower_max <-
    amax (select (surface_h fl) (map (fun h => h <? min_elev) (surface_h fl))) ;;
  bin2add <- where_first (map (fun h => h =? lower_max) (surface_h fl)) ;;
  section_2add <- set_at (section fl) bin2add advance_section ;;
  Ok (set_section fl section_2add, (glac_idx_t0, bin2add)).

(** Lines 531-538 and 551-556: the bins of the terminus among [idx]. *)
Definition terminus_idx (heights : list num) (idx : list nat) : res (list nat) :=
  hs <- take heights idx ;;
  hmin <- amin hs ;;
  hmax <- amax hs ;;
  let mask :=
    map (fun h => (h - hmin) / (hmax - hmin) * nz 100 <? terminus_percentage) hs in
  let term := select idx mask in
  Ok (if (length term <=? 1)%nat then idx else term).

(** Lines 546-549 and 558-561: the mean thickness of the terminus bins,
    the lowest one left out. *)
Definition thickness_avg_removemin (fl : flowline) (heights : list num)
    (glac_idx_terminus : list nat) : res num :=
  hs <- take heights glac_idx_terminus ;;
  hmin <- amin hs ;;
  minelev_idx <- where_first (map (fun h => h =? hmin) heights) ;;
  glac_idx_terminus_removemin <- list_remove minelev_idx glac_idx_terminus ;;
  th <- take (thick fl) glac_idx_terminus_removemin ;;
  Ok (mean th).

Definition terminus_thickness_avg (fl : flowline) (heights : list num)
    (glac_idx_t0 glac_idx_initial : list nat) : res num :=
  glac_idx_terminus <- terminus_idx heights glac_idx_t0 ;;
  try_except
    (thickness_avg_removemin fl heights glac_idx_terminus)
    (glac_idx_terminus_initial <- terminus_idx heights glac_idx_initial ;;
     thickness_avg_removemin fl heights glac_idx_terminus_initial).

(** Lines 563-568: fill the new bin up to the terminus average only. *)
Definition advance_fill (fl : flowline) (bin2add : nat) (avg adv_volume : num)
  : res (flowline * num) :=
  t_new <- get (thick fl) bin2add ;;
  if t_new >? avg then
    th <- set_at (thick fl) bin2add avg ;;
    let fl1 := with_thick fl th in
    s_new <- get (section fl1) bin2add ;;
    let volume_added2bin := s_new * dx_meter fl1 in
    Ok (fl1, adv_volume - volume_added2bin)
  else Ok (fl, adv_volume).

(** Lines 570-589: what happens to the advance volume that is left. *)
Definition advance_rest (fl : flowline) (heights : list num) (section_raw : list num)
    (area_t1 : list num) (adv_volume : num)
    (icethickness_change : list num) (glacier_volumechange_remaining : num)
  : res (flowline * (list num * num)) :=
  if adv_volume >? zero then
    hmin <- amin (select heights (map (fun a => a >? zero) area_t1)) ;;
    let below_glac_idx := where_ (map (fun h => h <? hmin) heights) in
    if (length below_glac_idx =? 0)%nat then
      Ok (set_section fl section_raw,
          (icethickness_change, glacier_volumechange_remaining))
    else
      let glac_idx_t0 := nonzero (thick fl) in
      let glacier_area_t0 := map (fun w => w * dx_meter fl) (widths_m fl) in
      mb <-
        idx_set (zeros (length (thick fl))) glac_idx_t0
          (glacier_volumechange_remaining / asum glacier_area_t0) ;;
      massredistributioncurveHuss fl (section fl) (thick fl) (widths_m fl)
        glac_idx_t0 adv_volume mb heights
  else Ok (fl, (icethickness_change, glacier_volumechange_remaining)).

(** One pass of the body of the advance loop. *)
Definition advance_step (fl : flowline) (heights : list num)
    (glac_idx_initial : list nat)
    (icethickness_change : list num) (glacier_volumechange_remaining : num)
  : res (flowline * (list num * num)) :=
  '(fl1, (section_raw, ic, area_t1, adv_volume)) <-
    advance_cap fl icethickness_change ;;
  '(fl2, (glac_idx_t0, bin2add)) <- advance_colonize fl1 adv_volume ;;
  avg <- terminus_thickness_avg fl2 heights glac_idx_t0 glac_idx_initial ;;
  '(fl3, adv_volume') <- advance_fill fl2 bin2add avg adv_volume ;;
  advance_rest fl3 heights section_raw area_t1 adv_volume' ic
    glacier_volumechange_remaining.

Fixpoint advance_loop (fuel : nat) (fl : flowline) (heights : list num)
    (glac_idx_initial : list nat)
    (icethickness_change : list num) (glacier_volumechange_remaining : num)
  : res (flowline * (list num * num)) :=
  if any (map (fun x => x >? icethickness_advancethreshold) icethickness_change) then
    match fuel with
    | O => OutOfFuel
    | S fuel' =>
        '(fl', (ic', rem')) <-
          advance_step fl heights glac_idx_initial icethickness_change
            glacier_volumechange_remaining ;;
        advance_loop fuel' fl' heights glac_idx_initial ic' rem'
    end
  else Ok (fl, (icethickness_change, glacier_volumechange_remaining)).

(** *** [_massredistributionHuss] *)

(** Lines 431-440: the glacier-wide volume change of the year. *)
Definition glacier_volumechange_of (dx : num) (thick_t0 width_t0 : list num)
    (glac_bin_massbalclim_annual : list num) (sec_in_year : num) (hindcast : bool)
  : num :=
  let glacier_area_t0 := glacier_area dx width_t0 thick_t0 in
  let vc :=
    asum (zipw nmul (map (fun m => m * sec_in_year) glac_bin_massbalclim_annual)
            glacier_area_t0) in
  if hindcast then nz (-1) * vc else vc.

(** Line 448. *)
Definition glacier_volume_total (fl : flowline) : num :=
  asum (map (fun s => s * dx_meter fl) (section fl)).

Definition massredistributionHuss (fuel : nat) (fl : flowline)
    (section_t0 thick_t0 width_t0 glac_bin_massbalclim_annual : list num)
    (glac_idx_initial : list nat) (heights : list num)
    (hindcast : bool) (sec_in_year : num) : res flowline :=
  let glacier_volumechange :=
    glacier_volumechange_of (dx_meter fl) thick_t0 width_t0
      glac_bin_massbalclim_annual sec_in_year hindcast in
  if nz (-1) * glacier_volumechange <? glacier_volume_total fl then
    let glac_idx_t0 := nonzero (thick fl) in
    '(fl1, (ic1, rem1)) <-
      massredistributioncurveHuss fl section_t0 thick_t0 width_t0 glac_idx_t0
        glacier_volumechange glac_bin_massbalclim_annual heights ;;
    '(fl2, (ic2, rem2)) <- retreat_loop fuel fl1 thick_t0 heights ic1 rem1 ;;
    '(fl3, _) <- advance_loop fuel fl2 heights glac_idx_initial ic2 rem2 ;;
    Ok fl3
  else Ok fl.

End Model.

(* ================================================================== *)
(** ** The model object *)

(** One column of the annual records kept on the mass-balance model. *)
Record annual_record : Type := {
  rec_year : Z;
  glac_bin_area_annual : list num;
  glac_bin_icethickness_annual : list num;
  glac_bin_width_annual : list num;
  glac_wide_area_annual : num;
  glac_wide_volume_annual : num
}.

(** The attributes of [MassRedistributionCurveModel] that the code reads
    or writes.  [__init__] asserts a single flowline, so [fls] is kept as
    that flowline; [yr] and [check_for_boundaries] belong to OGGM's
    [FlowlineModel]. *)
Record model : Type := {
  fls : list flowline;
  y0 : num;
  yr : Z;
  check_for_boundaries : bool;
  option_areaconstant : bool;
  constantarea_years : Z;
  spinupyears : Z;
  glac_idx_initial : list (list nat);
  calving_m3_since_y0 : num;
  records : list annual_record
}.

Definition with_fls (m : model) (f : list flowline) : model :=
  {| fls := f; y0 := y0 m; yr := yr m;
     check_for_boundaries := check_for_boundaries m;
     option_areaconstant := option_areaconstant m;
     constantarea_years := constantarea_years m;
     spinupyears := spinupyears m;
     glac_idx_initial := glac_idx_initial m;
     calving_m3_since_y0 := calving_m3_since_y0 m;
     records := records m |}.

Definition with_record (m : model) (r : annual_record) : model :=
  {| fls := fls m; y0 := y0 m; yr := yr m;
     check_for_boundaries := check_for_boundaries m;
     option_areaconstant := option_areaconstant m;
     constantarea_years := constantarea_years m;
     spinupyears := spinupyears m;
     glac_idx_initial := glac_idx_initial m;
     calving_m3_since_y0 := calving_m3_since_y0 m;
     records := r :: records m |}.

(** Lines 62-73 of [__init__]: what the constructor does to the object that
    [FlowlineModel.__init__] has set up from the same arguments ([y0]
    among them). *)
Definition init (super_init : list flowline -> num -> res model)
    (flowlines : list flowline) (y0_arg : num)
    (option_areaconstant_arg : bool) (spinupyears_arg constantarea_years_arg : Z)
  : res model :=
  m <- super_init flowlines y0_arg ;;
  let m1 :=
    {| fls := fls m; y0 := nz 0; yr := yr m;
       check_for_boundaries := check_for_boundaries m;
       option_areaconstant := option_areaconstant_arg;
       constantarea_years := constantarea_years_arg;
       spinupyears := spinupyears_arg;
       glac_idx_initial := map (fun fl => nonzero (thick fl)) flowlines;
       calving_m3_since_y0 := zero;
       records := records m |} in
  if (length flowlines =? 1)%nat then Ok m1 else Raise AssertionError.

(** [xs[-1]], if there is one. *)
Definition last_opt {A : Type} (xs : list A) : option A :=
  last (map Some xs) None.

(** [self.fls[-1].thick[-1]] *)
Definition terminus_thick (m : model) : option num :=
  match last_opt (fls m) with
  | Some fl => last_opt (thick fl)
  | None => None
  end.

(** Some bin of some flowline has a thickness that is not finite. *)
Definition has_nonfinite (m : model) : bool :=
  existsb (fun fl => any (map (fun t => negb (isfinite t)) (thick fl))) (fls m).

Section Run.

Variable B : bed.

(** The mass-balance model: [get_annual_mb(heights, fls, fl_id, year)] and
    the seconds of a model year from its dates table. *)
Variable get_annual_mb : list num -> list flowline -> nat -> Z -> list num.
Variable sec_in_year : Z -> num.

(** Fuel for each of the two [while] loops of one redistribution. *)
Variable fuel : nat.

Definition get_idx_initial (m : model) (fl_id : nat) : res (list nat) :=
  match nth_error (glac_idx_initial m) fl_id with
  | Some i => Ok i
  | None => Raise IndexError
  end.

(** Lines 388-396: the record of the year. *)
Definition record_year (fl : flowline) (year : Z) : annual_record :=
  let w := widths_m B fl in
  {| rec_year := year;
     glac_bin_area_annual := map (fun x => x * dx_meter fl) w;
     glac_bin_icethickness_annual := thick fl;
     glac_bin_width_annual := w;
     glac_wide_area_annual := asum (map (fun x => x * dx_meter fl) w);
     glac_wide_volume_annual :=
       asum (zipw nmul (map (fun x => x * dx_meter fl) w) (thick fl)) |}.

(** Lines 316-396 for the flowline: the geometry of the year.  The body
    runs for [self.fls[0]], the only flowline. *)
Definition updategeometry_fl (m : model) (fl : flowline) (fl_id : nat) (year : Z)
  : res flowline :=
  let heights := surface_h fl in
  let section_t0 := section B fl in
  let thick_t0 := thick fl in
  let width_t0 := widths_m B fl in
  if option_areaconstant m || (year <? spinupyears m)%Z
     || (year <? constantarea_years m)%Z then
    Ok fl
  else if (0 <? length (nonzero section_t0))%nat then
    let glac_bin_massbalclim_annual := get_annual_mb heights (fls m) fl_id year in
    idx0 <- get_idx_initial m fl_id ;;
    massredistributionHuss B fuel fl section_t0 thick_t0 width_t0
      glac_bin_massbalclim_annual idx0 heights false (sec_in_year year)
  else Ok fl.

(** [updategeometry]: the loop over [self.fls], which [__init__] has
    asserted to hold one flowline; a model that holds another number of
    flowlines is taken to fail that assertion. *)
Definition updategeometry (m : model) (year : Z) : res model :=
  match fls m with
  | [fl] =>
      fl' <- updategeometry_fl m fl 0 year ;;
      Ok (with_record (with_fls m [fl']) (record_year fl' year))
  | _ => Raise AssertionError
  end.

(** [np.arange(self.yr, y1)] for integral years. *)
Definition years_until (m : model) (y1 : Z) : list Z :=
  map (fun i => (yr m + Z.of_nat i)%Z) (seq 0 (Z.to_nat (y1 - yr m))).

Fixpoint run_years (m : model) (years : list Z) : res model :=
  match years with
  | [] => Ok m
  | y :: years' => m' <- updategeometry m y ;; run_years m' years'
  end.

(** Lines 97-105: the two checks at the end of [run_until]. *)
Definition check_boundaries (m : model) : res unit :=
  if check_for_boundaries m then
    match terminus_thick m with
    | None => Raise IndexError
    | Some t => if t >? nz 10 then Raise RuntimeError else Ok tt
    end
  else Ok tt.

Fixpoint check_nans (fs : list flowline) : res unit :=
  match fs with
  | [] => Ok tt
  | fl :: fs' =>
      if any (map (fun t => negb (isfinite t)) (thick fl))
      then Raise FloatingPointError
      else check_nans fs'
  end.

Definition validate (m : model) : res unit :=
  _ <- check_boundaries m ;;
  check_nans (fls m).

Definition run_until (m : model) (y1 : Z) (run_single_year : bool) : res model :=
  m' <- (if run_single_year then updategeometry m y1
         else run_years m (years_until m y1)) ;;
  _ <- validate m' ;;
  Ok m'.

End Run.

(* ================================================================== *)
(** ** A concrete bed: OGGM's [RectangularBedFlowline]

    [section = widths_m * thick]; the setter stores
    [clip_min(val / widths_m, 0)]; the width does not depend on the
    thickness. *)

Definition rect_bed (w : list num) : bed :=
  {| sec_of := fun i t => nth i w zero * t;
     thk_of := fun i s => clip_min (s / nth i w zero) zero;
     wid_of := fun i _ => nth i w zero |}.

(** Boolean equality of arrays, entry by entry ([nan] differs from [nan]). *)
Fixpoint arr_eqb (xs ys : list num) : bool :=
  match xs, ys with
  | [], [] => true
  | x :: xs', y :: ys' => neqb x y && arr_eqb xs' ys'
  | _, _ => false
  end.

(* ================================================================== *)
(** ** Sample glaciers *)

(** A three-bin glacier, 10 m bins. *)
Definition fl_three : flowline :=
  {| thick := map nz [30; 20; 10]%Z;
     bed_h := map nz [300; 200; 100]%Z;
     dx_meter := nz 10 |}.

(** What OGGM's base constructor does with the arguments the model keeps:
    it stores the flowlines and takes [y0] as the year origin. *)
Definition flowline_model_init (flowlines : list flowline) (y0_arg : num)
  : res model :=
  Ok {| fls := flowlines; y0 := y0_arg; yr := 0;
        check_for_boundaries := true;
        option_areaconstant := false; constantarea_years := 0;
        spinupyears := 0; glac_idx_initial := [];
        calving_m3_since_y0 := zero; records := [] |}.

(** A model around one flowline, as [__init__] leaves it. *)
Definition model_of (fl : flowline) : model :=
  {| fls := [fl]; y0 := nz 0; yr := 0;
     check_for_boundaries := true;
     option_areaconstant := false; constantarea_years := 0;
     spinupyears := 0; glac_idx_initial := [nonzero (thick fl)];
     calving_m3_since_y0 := zero; records := [] |}.

(** A mass balance of [mb] metres of ice per year in every bin, with a
    year of 365 days. *)
Definition seconds_365 : num := nz 31536000.
Definition uniform_mb (mb : num) : list num -> list flowline -> nat -> Z -> list num :=
  fun heights _ _ _ => map (fun _ => mb / seconds_365) heights.

(** A flowline whose first bin has a [nan] thickness and whose terminus
    bin is 11 m thick. *)
Definition fl_nan_terminus : flowline :=
  {| thick := [NaN; nz 11];
     bed_h := map nz [200; 100]%Z;
     dx_meter := nz 10 |}.

(** Four bins of 10 m of ice on a level bed: every surface is at 110 m. *)
Definition fl_flat : flowline :=
  {| thick := map nz [10; 10; 10; 10]%Z;
     bed_h := map nz [100; 100; 100; 100]%Z;
     dx_meter := nz 10 |}.

Definition bed_flat : bed := rect_bed (map nz [10; 10; 10; 10]%Z).

(** Five bins, 100 m long and 10 m wide, thinning down the slope. *)
Definition fl_five : flowline :=
  {| thick := map nz [50; 40; 30; 20; 10]%Z;
     bed_h := map nz [500; 400; 300; 200; 100]%Z;
     dx_meter := nz 100 |}.

Definition bed_five : bed := rect_bed (map nz [10; 10; 10; 10; 10]%Z).

(** Three bins with ice in the highest one only, and in the lowest one
    only. *)
Definition fl_top : flowline :=
  {| thick := map nz [10; 0; 0]%Z;
     bed_h := map nz [300; 200; 100]%Z;
     dx_meter := nz 10 |}.

Definition fl_bottom : flowline :=
  {| thick := map nz [0; 0; 10]%Z;
     bed_h := map nz [300; 200; 100]%Z;
     dx_meter := nz 10 |}.

Definition bed_three : bed := rect_bed (map nz [10; 10; 10]%Z).


(** Six bins, 100 m long and 10 m wide: ice in the upper four, two
    ice-free bins below the terminus. *)
Definition fl_adv : flowline :=
  {| thick := map nz [40; 30; 20; 10; 0; 0]%Z;
     bed_h := map nz [600; 500; 400; 300; 200; 100]%Z;
     dx_meter := nz 100 |}.

Definition bed_adv : bed := rect_bed (map nz [10; 10; 10; 10; 10; 10]%Z).

(** The same glacier without the two bins below: ice down to the last bin. *)
Definition fl_full : flowline :=
  {| thick := map nz [40; 30; 20; 10]%Z;
     bed_h := map nz [600; 500; 400; 300]%Z;
     dx_meter := nz 100 |}.

Definition bed_full : bed := rect_bed (map nz [10; 10; 10; 10]%Z).

(** The first pass of the year on a flowline: line 455. *)
Definition first_pass (B : bed) (fl : flowline) (mb : list num) (sec : num)
  : res (flowline * (list num * num)) :=
  massredistributioncurveHuss B fl (section B fl) (thick fl) (widths_m B fl)
    (nonzero (thick fl))
    (glacier_volumechange_of (dx_meter fl) (thick fl) (widths_m B fl) mb sec false)
    mb (surface_h fl).

(** [_massredistributionHuss] as [updategeometry] calls it. *)
Definition redistribute (B : bed) (fuel : nat) (fl : flowline) (mb : list num)
    (sec : num) : res flowline :=
  massredistributionHuss B fuel fl (section B fl) (thick fl) (widths_m B fl) mb
    (nonzero (thick fl)) (surface_h fl) false sec.

(* ================================================================== *)
(** ** Vocabulary of the proofs *)

(** Lines 664-665 on one value. *)
Definition clip1 (x : num) : num :=
  let x1 := if x >? one then one else x in
  if x1 <? zero then zero else x1.

(** [f] on the entries under the mask, zero elsewhere. *)
Definition pointwise (f : num -> num) (ys : list num) (m : list bool) : list num :=
  zipw (fun y (b : bool) => if b then f y else zero) ys m.

(** A value of the closed interval [0, 1]. *)
Definition in_unit_interval (x : num) : Prop :=
  (zero <=? x) = true /\ (x <=? one) = true.

(** The rational behind a finite number. *)
Definition qv (x : num) : Qc :=
  match x with Fin q => q | _ => 0%Qc end.

Definition qsum (qs : list Qc) : Qc := fold_right Qcplus 0%Qc qs.

(** A bin of a flowline: its index, its thickness and its bed elevation. *)
Abbreviation bin := (nat * (num * num))%type.

Definition b_idx (b : bin) : nat := fst b.
Definition b_thick (b : bin) : num := fst (snd b).
Definition b_bed (b : bin) : num := snd (snd b).
Definition b_height (b : bin) : num := b_thick b + b_bed b.

Definition bins (fl : flowline) : list bin :=
  combine (seq 0 (length (thick fl))) (combine (thick fl) (bed_h fl)).

Definition b_width (B : bed) (b : bin) : num := wid_of B (b_idx b) (b_thick b).
Definition b_section (B : bed) (b : bin) : num := sec_of B (b_idx b) (b_thick b).

(** The area of a bin as lines 637-638 compute it. *)
Definition b_area (B : bed) (dx : num) (b : bin) : num :=
  if b_thick b =? zero then zero else b_width B b * dx.

(** The curve value of a bin as lines 649-665 compute it. *)
Definition b_norm (B : bed) (dx : num) (k : coeffs) (hmax hmin : num) (b : bin)
  : num :=
  if b_area B dx b >? zero
  then clip1 (curve_value k ((hmax - b_height b) / (hmax - hmin)))
  else zero.

(** The call of the curve function on the current state of a flowline, as
    lines 455-458 make it. *)
Definition curve_call (B : bed) (fl : flowline) (glacier_volumechange : num)
    (massbalclim_annual : list num) : res (flowline * (list num * num)) :=
  massredistributioncurveHuss B fl (section B fl) (thick fl) (widths_m B fl)
    (nonzero (thick fl)) glacier_volumechange massbalclim_annual (surface_h fl).

(** A flowline in a regular state on a bed: as many bed elevations as
    thicknesses, a positive bin spacing, finite surface elevations, finite
    widths that are positive where there is ice, finite cross-sections that
    are not negative; and a bed on which the cross-section that the setter
    is given is the cross-section that the getter returns. *)
Record regular (B : bed) (fl : flowline) : Prop := {
  reg_len : length (bed_h fl) = length (thick fl);
  reg_dx : exists d, dx_meter fl = Fin d /\ (0 < d)%Qc;
  reg_bins :
    Forall (fun b =>
      isfinite (b_height b) = true
      /\ (exists w, b_width B b = Fin w
                    /\ (nonzerob (b_thick b) = true -> (0 < w)%Qc))
      /\ (exists s, b_section B b = Fin s /\ (0 <= s)%Qc)) (bins fl);
  reg_round :
    forall b s, In b (bins fl) -> (0 <= s)%Qc ->
      sec_of B (b_idx b) (thk_of B (b_idx b) (Fin s)) = Fin s
}.

(** The surface elevations of the bins with ice. *)
Definition active_heights (fl : flowline) : list num :=
  select (surface_h fl) (map nonzerob (thick fl)).

(** No cross-section is clamped at zero by the update of line 686. *)
Definition no_bin_clamped (B : bed) (fl : flowline) (bvc : list num) : Prop :=
  Forall (fun s => (s <? zero) = false)
    (zipw nadd (section B fl) (map (fun v => v / dx_meter fl) bvc)).

(** The volume change applied to the bins: new section minus prior
    section, times the bin spacing, summed. *)
Definition applied_volumechange (B : bed) (fl fl1 : flowline) : num :=
  asum (zipw (fun s1 s0 => (s1 - s0) * dx_meter fl) (section B fl1) (section B fl)).

(** Boolean equality of flowlines and of the states of the advance loop. *)
Definition fl_eqb (fl fl' : flowline) : bool :=
  arr_eqb (thick fl) (thick fl') && arr_eqb (bed_h fl) (bed_h fl')
  && (dx_meter fl =? dx_meter fl').

Definition loop_state_eqb (s s' : flowline * (list num * num)) : bool :=
  fl_eqb (fst s) (fst s') && arr_eqb (fst (snd s)) (fst (snd s'))
  && (snd (snd s) =? snd (snd s')).

(** A pass of the advance loop that returns the state it started from. *)
Definition advance_step_fixed (B : bed) (heights : list num) (idx : list nat)
    (s : flowline * (list num * num)) : bool :=
  match advance_step B (fst s) heights idx (fst (snd s)) (snd (snd s)) with
  | Ok s' => loop_state_eqb s' s
  | _ => false
  end.


(** Five bins with ice of which the third has no width. *)
Definition bed_gap : bed := rect_bed (map nz [10; 10; 0; 10; 10]%Z).


(** The test of line 335: the geometry of the year is kept as it is. *)
Definition constant_area_year (m : model) (year : Z) : bool :=
  option_areaconstant m || (year <? spinupyears m)%Z
  || (year <? constantarea_years m)%Z.

(** Two flowlines on the same bed elevations with the same bin spacing. *)
Definition same_frame (fl fl' : flowline) : Prop :=
  bed_h fl' = bed_h fl /\ dx_meter fl' = dx_meter fl.

(** A model around one flowline with three years of spin-up. *)
Definition model_spinup (fl : flowline) : model :=
  {| fls := [fl]; y0 := nz 0; yr := 0;
     check_for_boundaries := true;
     option_areaconstant := false; constantarea_years := 0;
     spinupyears := 3; glac_idx_initial := [nonzero (thick fl)];
     calving_m3_since_y0 := zero; records := [] |}.


(** Two models with the same settings: everything but the flowlines and
    the annual records. *)
Definition same_settings (m m' : model) : Prop :=
  y0 m' = y0 m /\ yr m' = yr m
  /\ check_for_boundaries m' = check_for_boundaries m
  /\ option_areaconstant m' = option_areaconstant m
  /\ constantarea_years m' = constantarea_years m
  /\ spinupyears m' = spinupyears m
  /\ glac_idx_initial m' = glac_idx_initial m
  /\ calving_m3_since_y0 m' = calving_m3_since_y0 m.


(* ================================================================== *)
(** ** [run_until_and_store]

    The run that keeps the yearly geometry and the diagnostics.  The two
    datasets it returns are kept as the arrays they are built from; writing
    them to a file ([run_path], [diag_path]) is left out. *)

(** The outcome of [run_until_and_store]: what is raised before the run
    ([ValueError] and [OverflowError] of [int(y1)], OGGM's
    [InvalidParamsError] of the two checks, [KeyError] of the look-up in
    [cfg.PARAMS]), or the outcome of the run itself. *)
Inductive store_res (A : Type) : Type :=
| IntValueError
| IntOverflowError
| InvalidParamsError
| ParamsKeyError
| Through (r : res A).

Arguments IntValueError {A}.
Arguments IntOverflowError {A}.
Arguments InvalidParamsError {A}.
Arguments ParamsKeyError {A}.
Arguments Through {A} r.

(** [int(y)] for a finite float: truncation towards zero. *)
Definition py_int (y : Qc) : Z :=
  match (y ?= 0)%Qc with
  | Lt => Qceiling y
  | _ => Qfloor y
  end.

(** [int(y1) != y1] *)
Definition not_integral (y : Qc) : bool :=
  negb (Qc_eq_bool (Q2Qc (inject_Z (py_int y))) y).

(** [not h] for the hemisphere of the mass-balance model: [None] or an
    empty string. *)
Definition no_hemisphere (h : option String.string) : bool :=
  match h with
  | None => true
  | Some String.EmptyString => true
  | Some _ => false
  end.

(** [xs[i] = v] for an array of any kind. *)
Fixpoint set_nth {A : Type} (xs : list A) (i : nat) (v : A) : res (list A) :=
  match xs, i with
  | [], _ => Raise IndexError
  | _ :: xs', O => Ok (v :: xs')
  | x :: xs', S j => r <- set_nth xs' j v ;; Ok (x :: r)
  end.

(** [np.zeros(shape) * np.NaN] *)
Definition nans (n : nat) : list num := repeat NaN n.
Definition nan_rows (ny nx : nat) : list (list num) := repeat (nans nx) ny.

(** The arrays behind the two datasets. *)
Record stored_run : Type := {
  ts_section : list (list (list num));
  ts_width_m : list (list (list num));
  ts_calving_bucket_m3 : list (list num);
  d_volume_m3 : list num;
  d_area_m2 : list num;
  d_length_m : list num;
  d_ela_m : list num;
  d_calving_m3 : list num;
  d_calving_rate_myr : list num;
  d_volume_bsl_m3 : list num;
  d_volume_bwl_m3 : list num
}.

(** The state of the loop of lines 240-271: the model, the row counter [j]
    and the arrays. *)
Record store_state : Type := {
  st_model : model;
  st_j : nat;
  st_run : stored_run
}.

(** What numpy writes into a row of [nx] entries: the array itself, or its
    only entry in every place. *)
Definition stored_row (nx : nat) (row : list num) : list num :=
  if (length row =? nx)%nat then row else repeat (hd NaN row) nx.

(** [s[j, :] = row]: the row has to be there and the array has to fit it or
    to have one entry. *)
Definition set_row (mt : list (list num)) (j : nat) (row : list num)
  : res (list (list num)) :=
  match nth_error mt j with
  | None => Raise IndexError
  | Some old =>
      if (length row =? length old)%nat || (length row =? 1)%nat
      then set_nth mt j (stored_row (length old) row)
      else Raise ValueError
  end.

(** [s[j, :] = row] for the matrix of every flowline. *)
Fixpoint store_rows (j : nat) (mats : list (list (list num)))
    (rows : list (list num)) : res (list (list (list num))) :=
  match mats, rows with
  | mt :: mats', row :: rows' =>
      mt' <- set_row mt j row ;;
      r <- store_rows j mats' rows' ;;
      Ok (mt' :: r)
  | _, _ => Ok mats
  end.

(** [b[j] = fl.calving_bucket_m3] for every flowline that has one. *)
Fixpoint store_buckets (j : nat) (bs : list (list num))
    (vals : list (option num)) : res (list (list num)) :=
  match bs, vals with
  | b :: bs', v :: vals' =>
      b' <- match v with Some x => set_nth b j x | None => Ok b end ;;
      r <- store_buckets j bs' vals' ;;
      Ok (b' :: r)
  | _, _ => Ok bs
  end.

Section Store.

Variable B : bed.
Variable get_annual_mb : list num -> list flowline -> nat -> Z -> list num.
Variable sec_in_year : Z -> num.
Variable fuel : nat.

(** What OGGM provides: the hemisphere of the mass-balance model ([None]
    or a string), the entry [cfg.PARAMS['hydro_month_' + h]] if there is
    one, the step of the mass balance, the tidewater flags, the months of
    [utils.floatyear_to_date], [utils.monthly_timeseries], and the
    diagnostic properties of the model and of its flowlines. *)
Variable hemisphere : option String.string.
Variable hydro_month : String.string -> option Z.
Variable mb_step_monthly : bool.
Variable is_tidewater : bool.
Variable is_marine_terminating : bool.
Variable floatyear_months : list Qc -> list Z.
Variable monthly_timeseries : Z -> Qc -> list Qc.
Variable volume_m3 : model -> num.
Variable area_m2 : model -> num.
Variable length_m : model -> num.
Variable calving_rate_myr : model -> num.
Variable volume_bsl_m3 : model -> num.
Variable volume_bwl_m3 : model -> num.
Variable calving_bucket_m3 : flowline -> option num.

(** [np.arange(np.floor(self.yr), np.floor(y1)+1)] *)
Definition yearly_time (m : model) (y1 : Qc) : list Z :=
  map (fun i => (yr m + Z.of_nat i)%Z)
    (seq 0 (Z.to_nat (Qfloor y1 + 1 - yr m))).

Definition monthly_time (m : model) (y1 : Qc) (store_monthly_step : bool)
  : list Qc :=
  if store_monthly_step then monthly_timeseries (yr m) y1
  else map (fun y => Q2Qc (inject_Z y)) (yearly_time m y1).

(** Lines 167-237: the arrays before the run. *)
Definition empty_run (m : model) (ny nm : nat) : stored_run :=
  {| ts_section := map (fun fl => nan_rows ny (length (thick fl))) (fls m);
     ts_width_m := map (fun fl => nan_rows ny (length (thick fl))) (fls m);
     ts_calving_bucket_m3 := map (fun _ => nans ny) (fls m);
     d_volume_m3 := nans nm;
     d_area_m2 := nans nm;
     d_length_m := nans nm;
     d_ela_m := nans nm;
     d_calving_m3 := if is_tidewater then nans nm else [];
     d_calving_rate_myr := if is_tidewater then nans nm else [];
     d_volume_bsl_m3 := if is_marine_terminating then nans nm else [];
     d_volume_bwl_m3 := if is_marine_terminating then nans nm else [] |}.

(** Lines 243-247: the diagnostics of the start, in the first pass. *)
Definition record_initial (i : nat) (m : model) (r : stored_run) : res stored_run :=
  if (i =? 0)%nat then
    v <- set_nth (d_volume_m3 r) i (volume_m3 m) ;;
    a <- set_nth (d_area_m2 r) i (area_m2 m) ;;
    l <- set_nth (d_length_m r) i (length_m m) ;;
    Ok {| ts_section := ts_section r; ts_width_m := ts_width_m r;
          ts_calving_bucket_m3 := ts_calving_bucket_m3 r;
          d_volume_m3 := v; d_area_m2 := a; d_length_m := l;
          d_ela_m := d_ela_m r; d_calving_m3 := d_calving_m3 r;
          d_calving_rate_myr := d_calving_rate_myr r;
          d_volume_bsl_m3 := d_volume_bsl_m3 r;
          d_volume_bwl_m3 := d_volume_bwl_m3 r |}
  else Ok r.

(** Lines 251-260: the geometry of the year, row [j]. *)
Definition record_geometry (j : nat) (m : model) (r : stored_run) : res stored_run :=
  s <- store_rows j (ts_section r) (map (section B) (fls m)) ;;
  w <- store_rows j (ts_width_m r) (map (widths_m B) (fls m)) ;;
  b <- (if is_tidewater
        then store_buckets j (ts_calving_bucket_m3 r)
               (map calving_bucket_m3 (fls m))
        else Ok (ts_calving_bucket_m3 r)) ;;
  Ok {| ts_section := s; ts_width_m := w; ts_calving_bucket_m3 := b;
        d_volume_m3 := d_volume_m3 r; d_area_m2 := d_area_m2 r;
        d_length_m := d_length_m r; d_ela_m := d_ela_m r;
        d_calving_m3 := d_calving_m3 r;
        d_calving_rate_myr := d_calving_rate_myr r;
        d_volume_bsl_m3 := d_volume_bsl_m3 r;
        d_volume_bwl_m3 := d_volume_bwl_m3 r |}.

(** Lines 261-271: the diagnostics after the year. *)
Definition record_diagnostics (i : nat) (m : model) (r : stored_run)
  : res stored_run :=
  v <- set_nth (d_volume_m3 r) (S i) (volume_m3 m) ;;
  a <- set_nth (d_area_m2 r) (S i) (area_m2 m) ;;
  l <- set_nth (d_length_m r) (S i) (length_m m) ;;
  c <- (if is_tidewater
        then set_nth (d_calving_m3 r) i (calving_m3_since_y0 m)
        else Ok (d_calving_m3 r)) ;;
  cr <- (if is_tidewater
         then set_nth (d_calving_rate_myr r) i (calving_rate_myr m)
         else Ok (d_calving_rate_myr r)) ;;
  bsl <- (if is_tidewater && is_marine_terminating
          then set_nth (d_volume_bsl_m3 r) i (volume_bsl_m3 m)
          else Ok (d_volume_bsl_m3 r)) ;;
  bwl <- (if is_tidewater && is_marine_terminating
          then set_nth (d_volume_bwl_m3 r) i (volume_bwl_m3 m)
          else Ok (d_volume_bwl_m3 r)) ;;
  Ok {| ts_section := ts_section r; ts_width_m := ts_width_m r;
        ts_calving_bucket_m3 := ts_calving_bucket_m3 r;
        d_volume_m3 := v; d_area_m2 := a; d_length_m := l;
        d_ela_m := d_ela_m r; d_calving_m3 := c;
        d_calving_rate_myr := cr;
        d_volume_bsl_m3 := bsl; d_volume_bwl_m3 := bwl |}.

(** One pass of the loop of line 241. *)
Definition store_step (i : nat) (year mo : Z) (st : store_state)
  : res store_state :=
  r0 <- record_initial i (st_model st) (st_run st) ;;
  m' <- run_until B get_annual_mb sec_in_year fuel (st_model st) year true ;;
  '(j', r1) <-
    (if (mo =? 1)%Z
     then r <- record_geometry (st_j st) m' r0 ;; Ok (S (st_j st), r)
     else Ok (st_j st, r0)) ;;
  r2 <- record_diagnostics i m' r1 ;;
  Ok {| st_model := m'; st_j := j'; st_run := r2 |}.

Fixpoint store_loop (i : nat) (ym : list (Z * Z)) (st : store_state)
  : res store_state :=
  match ym with
  | [] => Ok st
  | (year, mo) :: ym' =>
      st' <- store_step i year mo st ;;
      store_loop (S i) ym' st'
  end.

(** Line 161: [sm = cfg.PARAMS['hydro_month_' + self.mb_model.hemisphere]]. *)
Definition hydro_month_of (h : option String.string) : option Z :=
  match h with
  | Some s => hydro_month s
  | None => None
  end.

(** Lines 240-271, for a whole [y1]. *)
Definition store_run (m : model) (y1 : Qc) (store_monthly_step : option bool)
  : res (model * stored_run) :=
  let yearly := yearly_time m y1 in
  let monthly_step :=
    match store_monthly_step with
    | None => mb_step_monthly
    | Some b => b
    end in
  let monthly := monthly_time m y1 monthly_step in
  let months := floatyear_months monthly in
  let ny := length yearly in
  let nm := length monthly in
  st <- store_loop 0 (combine (removelast yearly) (removelast months))
          {| st_model := m; st_j := 0; st_run := empty_run m ny nm |} ;;
  Ok (st_model st, st_run st).

(** [run_until_and_store(y1, store_monthly_step=...)]: the model after the
    run and the arrays of the two datasets.  [int(y1)] raises on [nan] and
    on an infinity; the hydrological month is looked up after the time
    axes are built and before the first year is run.  The calendar dates,
    the attributes and the files feed the coordinates and the output only
    and are left out. *)
Definition run_until_and_store (m : model) (y1 : num)
    (store_monthly_step : option bool) : store_res (model * stored_run) :=
  match y1 with
  | NaN => IntValueError
  | PInf | NInf => IntOverflowError
  | Fin q =>
      if not_integral q then InvalidParamsError
      else if no_hemisphere hemisphere then InvalidParamsError
      else
        match hydro_month_of hemisphere with
        | None => ParamsKeyError
        | Some _ => Through (store_run m q store_monthly_step)
        end
  end.

End Store.


(** Diagnostics for the sample runs, as OGGM's flowline model has them: the
    volume (sections times [dx]), the area of the bins with ice and the
    length of the bins with ice. *)
Definition sample_volume_m3 (B : bed) (m : model) : num :=
  asum (map (glacier_volume_total B) (fls m)).
Definition sample_area_m2 (B : bed) (m : model) : num :=
  asum (map (fun fl =>
               asum (zipw (fun t w => (if t >? zero then w else zero) * dx_meter fl)
                       (thick fl) (widths_m B fl)))
          (fls m)).
Definition sample_length_m (m : model) : num :=
  asum (map (fun fl =>
               nz (Z.of_nat (length (where_ (map (fun t => t >? zero) (thick fl)))))
               * dx_meter fl)
          (fls m)).

(** The two entries of OGGM's [cfg.PARAMS]: [hydro_month_nh = 10] and
    [hydro_month_sh = 4]. *)
Definition str_nh : String.string :=
  String.String (Ascii.ascii_of_nat 110)
    (String.String (Ascii.ascii_of_nat 104) String.EmptyString).
Definition str_sh : String.string :=
  String.String (Ascii.ascii_of_nat 115)
    (String.String (Ascii.ascii_of_nat 104) String.EmptyString).
Definition oggm_hydro_month (h : String.string) : option Z :=
  if String.eqb h str_nh then Some 10%Z
  else if String.eqb h str_sh then Some 4%Z
  else None.

(** The states after each of the years, the first year first. *)
Fixpoint run_trace (B : bed)
    (get_annual_mb : list num -> list flowline -> nat -> Z -> list num)
    (sec_in_year : Z -> num) (fuel : nat) (m : model) (years : list Z)
  : res (list model) :=
  match years with
  | [] => Ok []
  | y :: years' =>
      m' <- updategeometry B get_annual_mb sec_in_year fuel m y ;;
      r <- run_trace B get_annual_mb sec_in_year fuel m' years' ;;
      Ok (m' :: r)
  end.

(** The flowline of a model. *)
Definition fl_of (m : model) : flowline :=
  hd {| thick := []; bed_h := []; dx_meter := zero |} (fls m).

(** The months of a yearly time axis: every entry is the first month. *)
Definition yearly_months (t : list Qc) : list Z := map (fun _ => 1%Z) t.

(** The sample run that stores: a southern glacier, yearly steps, no
    tidewater. *)
Definition sample_store (B : bed) (mb : num) (fuel : nat) (m : model) (y1 : num)
  : store_res (model * stored_run) :=
  run_until_and_store B (uniform_mb mb) (fun _ => seconds_365) fuel
    (Some str_sh) oggm_hydro_month
    false false false yearly_months (fun _ _ => [])
    (sample_volume_m3 B) (sample_area_m2 B) sample_length_m
    (fun _ => zero) (fun _ => zero) (fun _ => zero) (fun _ => None)
    m y1 None.

(* ================================================================== *)
(** * Properties *)

(** ** Arithmetic on [num] *)

Lemma nadd_zero_r (x : num) : x + zero = x.
Proof.
  destruct x as [q | | |]; try reflexivity.
  cbn. f_equal. apply Qcplus_0_r.
Qed.

Lemma neqb_Fin (a b : Qc) : (Fin a =? Fin b) = true <-> a = b.
Proof.
  cbn. rewrite Qceq_alt. destruct (a ?= b)%Qc; split; congruence.
Qed.

Lemma neqb_eq (x y : num) : (x =? y) = true -> x = y.
Proof.
  destruct x, y; cbn; try congruence.
  intros H. f_equal. apply Qceq_alt. destruct (q ?= q0)%Qc; congruence.
Qed.

Lemma nlt_Fin (a b : Qc) : (Fin a <? Fin b) = true <-> (a < b)%Qc.
Proof.
  cbn. rewrite Qclt_alt. destruct (a ?= b)%Qc; split; congruence.
Qed.

Lemma nlt_irrefl (x : num) : (x <? x) = false.
Proof.
  destruct x as [q | | |]; try reflexivity.
  cbn. replace (q ?= q)%Qc with Eq; [reflexivity|].
  symmetry. apply Qceq_alt. reflexivity.
Qed.

Lemma nlt_asym (x y : num) : (x <? y) = true -> (y <? x) = false.
Proof.
  destruct x as [a | | |], y as [b | | |]; cbn; try congruence.
  destruct (a ?= b)%Qc eqn:E; try congruence. intros _.
  apply Qclt_alt in E.
  destruct (b ?= a)%Qc eqn:E'; try reflexivity.
  apply Qclt_alt in E'. exfalso.
  exact (Qclt_not_le _ _ E (Qclt_le_weak _ _ E')).
Qed.

Lemma nle_nlt_false (x y : num) : (x <=? y) = true -> (y <? x) = false.
Proof.
  unfold nle. intros H. apply orb_true_iff in H. destruct H as [H | H].
  - now apply nlt_asym.
  - apply neqb_eq in H. subst. apply nlt_irrefl.
Qed.

(** Equality of two closed numbers, by evaluation. *)
Ltac num_eq := apply neqb_eq; vm_compute; reflexivity.

(** ** Sums *)

(** Zeroing the bins of zero thickness leaves the sum over the others. *)
Lemma fold_nadd_glacier_area (dx : num) (width_t0 thick_t0 : list num) (acc : num) :
  length width_t0 = length thick_t0 ->
  fold_left nadd (glacier_area dx width_t0 thick_t0) acc =
  fold_left nadd
    (select (map (fun w => w * dx) width_t0) (map nonzerob thick_t0)) acc.
Proof.
  unfold glacier_area, mask_set. revert thick_t0 acc.
  induction width_t0 as [| w ws IH]; intros [| t ts] acc Hlen;
    try discriminate; [reflexivity|].
  cbn in Hlen. injection Hlen as Hlen.
  cbn [map zipw select]. unfold nonzerob at 1.
  destruct (t =? zero); cbn [negb fold_left].
  - rewrite nadd_zero_r. now apply IH.
  - now apply IH.
Qed.

Lemma asum_glacier_area (dx : num) (width_t0 thick_t0 : list num) :
  length width_t0 = length thick_t0 ->
  asum (glacier_area dx width_t0 thick_t0) =
  asum (select (map (fun w => w * dx) width_t0) (map nonzerob thick_t0)).
Proof. apply fold_nadd_glacier_area. Qed.

(** ** Coefficient selection *)

Lemma select_coeffs_large (A : num) :
  (A >? nz 20) = true -> select_coeffs A = coeffs_large.
Proof. unfold select_coeffs. now intros ->. Qed.

Lemma nlt_trans_5_20 (A : num) : (nz 20 <? A) = true -> (nz 5 <? A) = true.
Proof.
  destruct A as [q | | |]; try (cbn; congruence).
  unfold nz, fin. rewrite !nlt_Fin. intros H.
  eapply Qclt_trans; [|exact H]. now apply Qclt_alt.
Qed.

Lemma select_coeffs_medium (A : num) :
  (A >? nz 5) = true -> (A <=? nz 20) = true -> select_coeffs A = coeffs_medium.
Proof.
  unfold select_coeffs, ngt. intros H5 H20.
  apply nle_nlt_false in H20. now rewrite H20, H5.
Qed.

Lemma select_coeffs_small (A : num) :
  (A <=? nz 5) = true -> select_coeffs A = coeffs_small.
Proof.
  unfold select_coeffs, ngt. intros H5.
  apply nle_nlt_false in H5.
  destruct (nz 20 <? A) eqn:H20.
  - apply nlt_trans_5_20 in H20. congruence.
  - now rewrite H5.
Qed.

(** C2.  With more than three active bins the coefficients of the curve
    are [select_coeffs A], where [A] is the sum of [width * dx] over the
    bins of nonzero prior thickness, and nothing else of the input enters
    the choice: [A > 20] gives (6, -0.02, 0.12, 0), [5 < A <= 20] gives
    (4, -0.05, 0.19, 0.01), [A <= 5] gives (2, -0.30, 0.60, 0.09); [A = 20]
    gives the middle and [A = 5] the last triple. *)
Theorem coefficients_selected_by_area
    (dx : num) (thick_t0 width_t0 : list num) (glac_idx_t0 : list nat)
    (glacier_volumechange : num) (massbalclim_annual heights : list num) :
  (3 < length glac_idx_t0)%nat ->
  length width_t0 = length thick_t0 ->
  let A :=
    asum (select (map (fun w => w * dx) width_t0) (map nonzerob thick_t0)) in
  let area := glacier_area dx width_t0 thick_t0 in
  bin_volumechange dx thick_t0 width_t0 glac_idx_t0 glacier_volumechange
      massbalclim_annual heights =
    (norm <- icethicknesschange_norm (select_coeffs A) area glac_idx_t0 heights ;;
     Ok (zipw (fun nm a => nm * (glacier_volumechange / asum (zipw nmul area norm)) * a)
           norm area))
  /\ ((A >? nz 20) = true ->
      select_coeffs A =
      {| c_gamma := 6; c_a := fin (-2) 100; c_b := fin 12 100; c_c := nz 0 |})
  /\ ((A >? nz 5) = true -> (A <=? nz 20) = true ->
      select_coeffs A =
      {| c_gamma := 4; c_a := fin (-5) 100; c_b := fin 19 100; c_c := fin 1 100 |})
  /\ ((A <=? nz 5) = true ->
      select_coeffs A =
      {| c_gamma := 2; c_a := fin (-30) 100; c_b := fin 60 100; c_c := fin 9 100 |})
  /\ (A = nz 20 -> select_coeffs A = coeffs_medium)
  /\ (A = nz 5 -> select_coeffs A = coeffs_small).
Proof.
  intros Hn Hlen A area. split; [|split; [|split; [|split; [|split]]]].
  - unfold bin_volumechange. apply Nat.ltb_lt in Hn. rewrite Hn.
    fold area. unfold area at 1. rewrite asum_glacier_area by assumption.
    reflexivity.
  - apply select_coeffs_large.
  - apply select_coeffs_medium.
  - apply select_coeffs_small.
  - now intros ->.
  - now intros ->.
Qed.

(** Four bins of thickness 1 on a unit grid; total areas 25, 10, 2, 20, 5. *)
Lemma coefficients_selected_by_area_witness :
  let sel w :=
    select_coeffs
      (asum (select (map (fun x => x * nz 1) w) (map nonzerob (map nz [1; 1; 1; 1]%Z)))) in
  sel (map nz [10; 5; 5; 5]%Z) = coeffs_large
  /\ sel (map nz [4; 2; 2; 2]%Z) = coeffs_medium
  /\ sel [fin 1 2; fin 1 2; fin 1 2; fin 1 2] = coeffs_small
  /\ sel (map nz [5; 5; 5; 5]%Z) = coeffs_medium
  /\ sel [fin 5 4; fin 5 4; fin 5 4; fin 5 4] = coeffs_small.
Proof.
  pose (T := fun w (H : length w = 4%nat) =>
    coefficients_selected_by_area (nz 1) (map nz [1; 1; 1; 1]%Z) w
      [0; 1; 2; 3]%nat zero (zeros 4) (map nz [4; 3; 2; 1]%Z)
      (ltac:(cbn; lia)) H).
  cbv zeta. split; [|split; [|split; [|split]]].
  - apply (proj1 (proj2 (T (map nz [10; 5; 5; 5]%Z) eq_refl))). reflexivity.
  - apply (proj1 (proj2 (proj2 (T (map nz [4; 2; 2; 2]%Z) eq_refl))));
      reflexivity.
  - apply (proj1 (proj2 (proj2 (proj2
             (T [fin 1 2; fin 1 2; fin 1 2; fin 1 2] eq_refl))))).
    reflexivity.
  - apply (proj1 (proj2 (proj2 (proj2 (proj2
             (T (map nz [5; 5; 5; 5]%Z) eq_refl)))))).
    num_eq.
  - apply (proj2 (proj2 (proj2 (proj2 (proj2
             (T [fin 5 4; fin 5 4; fin 5 4; fin 5 4] eq_refl)))))).
    num_eq.
Defined.

(** ** The degenerate branch *)

Lemma bin_volumechange_degenerate
    (dx : num) (thick_t0 width_t0 : list num) (glac_idx_t0 : list nat)
    (glacier_volumechange : num) (massbalclim_annual heights : list num) :
  (length glac_idx_t0 <= 3)%nat ->
  bin_volumechange dx thick_t0 width_t0 glac_idx_t0 glacier_volumechange
    massbalclim_annual heights =
  Ok (zipw nmul massbalclim_annual (glacier_area dx width_t0 thick_t0)).
Proof.
  intros H. unfold bin_volumechange.
  destruct (Nat.ltb_spec 3 (length glac_idx_t0)); [lia | reflexivity].
Qed.

(** C10.  With at most three active bins the volume change of a bin is the
    mass balance times the bin area, and the whole outcome of the call (the
    flowline, the thickness-change field, the remaining volume change) is
    the same for any two values of [glacier_volumechange]. *)
Theorem degenerate_branch_ignores_volumechange
    (B : bed) (fl : flowline) (section_t0 thick_t0 width_t0 : list num)
    (glac_idx_t0 : list nat) (vc1 vc2 : num)
    (massbalclim_annual heights : list num) :
  (length glac_idx_t0 <= 3)%nat ->
  bin_volumechange (dx_meter fl) thick_t0 width_t0 glac_idx_t0 vc1
      massbalclim_annual heights =
    Ok (zipw nmul massbalclim_annual
          (glacier_area (dx_meter fl) width_t0 thick_t0))
  /\ massredistributioncurveHuss B fl section_t0 thick_t0 width_t0 glac_idx_t0
       vc1 massbalclim_annual heights =
     massredistributioncurveHuss B fl section_t0 thick_t0 width_t0 glac_idx_t0
       vc2 massbalclim_annual heights.
Proof.
  intros H. split.
  - now apply bin_volumechange_degenerate.
  - unfold massredistributioncurveHuss.
    now rewrite !bin_volumechange_degenerate.
Qed.

Lemma degenerate_branch_ignores_volumechange_witness :
  let B := rect_bed (map nz [10; 10; 10]%Z) in
  let mb := map nz [-1; -2; -3]%Z in
  (length (nonzero (thick fl_three)) <= 3)%nat
  /\ massredistributioncurveHuss B fl_three (section B fl_three) (thick fl_three)
       (widths_m B fl_three) (nonzero (thick fl_three)) zero mb
       (surface_h fl_three) =
     massredistributioncurveHuss B fl_three (section B fl_three) (thick fl_three)
       (widths_m B fl_three) (nonzero (thick fl_three)) (nz 1000) mb
       (surface_h fl_three).
Proof.
  cbv zeta. split; [vm_compute; lia |].
  apply (degenerate_branch_ignores_volumechange (rect_bed (map nz [10; 10; 10]%Z))).
  vm_compute; lia.
Defined.

(** ** The constructor *)

(** C9.  Whatever [y0] is passed, and whatever [FlowlineModel.__init__]
    made of it, the object that [__init__] returns has [y0 = 0]. *)
Theorem init_overwrites_y0
    (super_init : list flowline -> num -> res model)
    (flowlines : list flowline) (y0_arg : num)
    (areaconstant : bool) (spinup constantarea : Z) (m : model) :
  init super_init flowlines y0_arg areaconstant spinup constantarea = Ok m ->
  y0 m = nz 0.
Proof.
  unfold init. destruct (super_init flowlines y0_arg) as [m0 | e |]; cbn;
    try discriminate.
  destruct (length flowlines =? 1)%nat; try discriminate.
  intros H. injection H as <-. reflexivity.
Qed.

(** The constructor returns for a single flowline as soon as the base
    constructor does. *)
Lemma init_returns
    (super_init : list flowline -> num -> res model)
    (fl : flowline) (y0_arg : num)
    (areaconstant : bool) (spinup constantarea : Z) (m0 : model) :
  super_init [fl] y0_arg = Ok m0 ->
  exists m, init super_init [fl] y0_arg areaconstant spinup constantarea = Ok m.
Proof. intros H. unfold init. rewrite H. cbn. eauto. Qed.

Lemma init_overwrites_y0_witness :
  exists m,
    init flowline_model_init [fl_three] (nz 2000) false 0 0 = Ok m
    /\ y0 m = nz 0.
Proof.
  eexists. split; [reflexivity |].
  apply (init_overwrites_y0 flowline_model_init [fl_three] (nz 2000) false 0 0).
  reflexivity.
Defined.

(** ** The glacier that should vanish *)

(** When the loss is not smaller than the volume, [_massredistributionHuss]
    leaves the flowline as it is. *)
Lemma massredistributionHuss_loss_exceeds_volume
    (B : bed) (fuel : nat) (fl : flowline)
    (section_t0 thick_t0 width_t0 mb : list num) (idx_initial : list nat)
    (heights : list num) (hindcast : bool) (sec : num) :
  (nz (-1) * glacier_volumechange_of (dx_meter fl) thick_t0 width_t0 mb sec hindcast
     <? glacier_volume_total B fl) = false ->
  massredistributionHuss B fuel fl section_t0 thick_t0 width_t0 mb idx_initial
    heights hindcast sec = Ok fl.
Proof. unfold massredistributionHuss. now intros ->. Qed.

(** C3.  The three-bin glacier holds 6000 m3 of ice; a mass balance of
    -30 m of ice in a year asks for a loss of 9000 m3.  The yearly update
    returns, and the flowline is what it was: 30, 20 and 10 m thick. *)
Theorem vanishing_glacier_is_left_unchanged :
  let B := rect_bed (map nz [10; 10; 10]%Z) in
  glacier_volume_total B fl_three = nz 6000
  /\ glacier_volumechange_of (dx_meter fl_three) (thick fl_three)
       (widths_m B fl_three)
       (uniform_mb (nz (-30)) (surface_h fl_three) [fl_three] 0%nat 0%Z)
       seconds_365 false = nz (-9000)
  /\ exists m',
       updategeometry B (uniform_mb (nz (-30))) (fun _ => seconds_365) 10
         (model_of fl_three) 0 = Ok m'
       /\ fls m' = [fl_three]
       /\ thick fl_three = map nz [30; 20; 10]%Z.
Proof.
  cbv zeta. split; [num_eq | split; [num_eq |]].
  eexists. split.
  - unfold updategeometry, updategeometry_fl. cbn [fls model_of].
    cbn [option_areaconstant spinupyears constantarea_years model_of orb Z.ltb
         Z.compare].
    replace (0 <? length (nonzero (section _ fl_three)))%nat with true
      by (vm_compute; reflexivity).
    cbn [get_idx_initial glac_idx_initial model_of nth_error bind].
    rewrite massredistributionHuss_loss_exceeds_volume
      by (vm_compute; reflexivity).
    reflexivity.
  - split; reflexivity.
Qed.

(** ** The checks after the run *)

Lemma check_boundaries_raises (m : model) :
  check_boundaries m = Raise RuntimeError <->
  check_for_boundaries m = true
  /\ exists t, terminus_thick m = Some t /\ (t >? nz 10) = true.
Proof.
  unfold check_boundaries.
  destruct (check_for_boundaries m).
  - destruct (terminus_thick m) as [t |].
    + destruct (t >? nz 10) eqn:E; split; intros H.
      * split; [reflexivity | now exists t].
      * reflexivity.
      * discriminate.
      * destruct H as [_ [t' [[= <-] H]]]. congruence.
    + split; intros H; [discriminate |].
      destruct H as [_ [t [? _]]]. discriminate.
  - split; intros H; [discriminate |]. destruct H. discriminate.
Qed.

Lemma check_boundaries_passes (m : model) :
  check_boundaries m = Ok tt <->
  check_for_boundaries m = false
  \/ exists t, terminus_thick m = Some t /\ (t >? nz 10) = false.
Proof.
  unfold check_boundaries.
  destruct (check_for_boundaries m).
  - destruct (terminus_thick m) as [t |].
    + destruct (t >? nz 10) eqn:E; split; intros H.
      * discriminate.
      * destruct H as [? | [t' [[= <-] H]]]; congruence.
      * right. now exists t.
      * reflexivity.
    + split; intros H; [discriminate |].
      destruct H as [? | [t [? _]]]; discriminate.
  - split; intros H; [now left | reflexivity].
Qed.

Lemma check_nans_spec (fs : list flowline) :
  check_nans fs =
  if existsb (fun fl => any (map (fun t => negb (isfinite t)) (thick fl))) fs
  then Raise FloatingPointError else Ok tt.
Proof.
  induction fs as [| fl fs IH]; [reflexivity |].
  cbn. destruct (any _); [reflexivity | exact IH].
Qed.

Lemma validate_cases (m : model) :
  validate m =
  match check_boundaries m with
  | Ok _ => if has_nonfinite m then Raise FloatingPointError else Ok tt
  | Raise e => Raise e
  | OutOfFuel => OutOfFuel
  end.
Proof.
  unfold validate, has_nonfinite. rewrite check_nans_spec.
  now destruct (check_boundaries m).
Qed.

(** C7, as the code has it.  Once the yearly steps have returned a model
    [m'], [run_until] raises the domain-boundary error exactly when the
    check is enabled and the thickness of the terminus bin exceeds 10 m; it
    raises the numerical error exactly when some thickness is not finite
    and the boundary check, which runs first, has passed; and whenever it
    returns, it returns [m'] itself: no value is changed by the checks. *)
Theorem run_until_validation
    (B : bed) (get_annual_mb : list num -> list flowline -> nat -> Z -> list num)
    (sec_in_year : Z -> num) (fuel : nat)
    (m : model) (y1 : Z) (run_single_year : bool) (m' : model) :
  (if run_single_year then updategeometry B get_annual_mb sec_in_year fuel m y1
   else run_years B get_annual_mb sec_in_year fuel m (years_until m y1)) = Ok m' ->
  let r := run_until B get_annual_mb sec_in_year fuel m y1 run_single_year in
  (r = Raise RuntimeError <->
     check_for_boundaries m' = true
     /\ exists t, terminus_thick m' = Some t /\ (t >? nz 10) = true)
  /\ (r = Raise FloatingPointError <->
        has_nonfinite m' = true
        /\ (check_for_boundaries m' = false
            \/ exists t, terminus_thick m' = Some t /\ (t >? nz 10) = false))
  /\ (forall m'', r = Ok m'' -> m'' = m').
Proof.
  intros Hsteps r. subst r. unfold run_until. rewrite Hsteps. cbn [bind].
  rewrite validate_cases.
  rewrite <- check_boundaries_raises, <- check_boundaries_passes.
  destruct (check_boundaries m') as [[] | e |] eqn:Hc; cbn [bind].
  - destruct (has_nonfinite m'); cbn [bind].
    + split; [split; discriminate |]. split; [tauto | discriminate].
    + split; [split; discriminate |].
      split; [split; [discriminate | intros [? _]; discriminate] |].
      now intros m'' [= <-].
  - split; [split; congruence |].
    split; [split; [| intros [_ ?]; discriminate] | discriminate].
    intros [= ->]. unfold check_boundaries in Hc.
    destruct (check_for_boundaries m'); [| discriminate].
    destruct (terminus_thick m') as [t |]; [| discriminate].
    destruct (t >? nz 10); discriminate.
  - split; [split; discriminate |].
    split; [split; [discriminate | intros [_ ?]; discriminate] | discriminate].
Qed.

(** No year to run, one bin [nan], the terminus bin 11 m thick and finite. *)
Lemma run_until_validation_witness :
  let r :=
    run_until (rect_bed (map nz [10; 10]%Z)) (uniform_mb zero)
      (fun _ => seconds_365) 10 (model_of fl_nan_terminus) 0 false in
  r = Raise RuntimeError.
Proof.
  cbv zeta.
  apply (proj1 (run_until_validation (rect_bed (map nz [10; 10]%Z))
                  (uniform_mb zero) (fun _ => seconds_365) 10
                  (model_of fl_nan_terminus) 0 false eq_refl)).
  split; [reflexivity |]. exists (nz 11). split; reflexivity.
Defined.

(** C7, as stated, fails: a thickness is [nan], and the error raised is the
    boundary error, not the numerical one. *)
Lemma nonfinite_thickness_without_numerical_error :
  let m := model_of fl_nan_terminus in
  let r :=
    run_until (rect_bed (map nz [10; 10]%Z)) (uniform_mb zero)
      (fun _ => seconds_365) 10 m 0 false in
  has_nonfinite m = true
  /\ r = Raise RuntimeError
  /\ ~ (r = Raise FloatingPointError <-> has_nonfinite m = true).
Proof.
  cbv zeta. split; [reflexivity | split; [reflexivity |]].
  intros [_ H]. specialize (H eq_refl). discriminate H.
Qed.

(** ** The curve on a level glacier *)

(** C4.  On four active bins whose surfaces all lie at 110 m the
    normalised elevation is [0/0]: the curve value of every bin is [nan]
    after the clipping step, so it is not in [0, 1]. *)
Theorem curve_value_nan_on_level_glacier :
  let area :=
    glacier_area (dx_meter fl_flat) (widths_m bed_flat fl_flat) (thick fl_flat) in
  nonzero (thick fl_flat) = [0; 1; 2; 3]%nat
  /\ surface_h fl_flat = map nz [110; 110; 110; 110]%Z
  /\ icethicknesschange_norm (select_coeffs (asum area)) area
       (nonzero (thick fl_flat)) (surface_h fl_flat) = Ok [NaN; NaN; NaN; NaN]
  /\ (zero <=? NaN) = false /\ (NaN <=? one) = false.
Proof.
  cbv zeta. split; [reflexivity |]. split.
  - unfold surface_h, fl_flat. cbn [thick bed_h map zipw].
    repeat (f_equal; try num_eq).
  - split; [vm_compute; reflexivity | split; reflexivity].
Qed.

(** C1.  The same glacier asked for a change of -1000 m3: the call returns,
    no cross-section is clamped to zero (each one is [nan]), the applied
    volume change sums to [nan] and so does the remaining volume change. *)
Theorem no_conservation_on_level_glacier :
  match
    massredistributioncurveHuss bed_flat fl_flat (section bed_flat fl_flat)
      (thick fl_flat) (widths_m bed_flat fl_flat) (nonzero (thick fl_flat))
      (nz (-1000)) (zeros 4) (surface_h fl_flat)
  with
  | Ok (fl1, (_, remaining)) =>
      section bed_flat fl1 = [NaN; NaN; NaN; NaN]
      /\ asum (zipw (fun s1 s0 => (s1 - s0) * dx_meter fl_flat)
                 (section bed_flat fl1) (section bed_flat fl_flat)) = NaN
      /\ remaining = NaN
  | _ => False
  end.
Proof. vm_compute. repeat split. Qed.

(** C8.  The same glacier under a mass balance of zero: the yearly update
    returns and the thickness of every bin is [nan]. *)
Theorem zero_forcing_changes_level_glacier :
  glacier_volume_total bed_flat fl_flat = nz 4000
  /\ match
       updategeometry bed_flat (uniform_mb zero) (fun _ => seconds_365) 10
         (model_of fl_flat) 0
     with
     | Ok m' => map thick (fls m') = [[NaN; NaN; NaN; NaN]]
     | _ => False
     end.
Proof. split; [num_eq | vm_compute; reflexivity]. Qed.

(** ** The loops, unfolded *)

Lemma retreat_loop_done (B : bed) (fuel : nat) (fl : flowline)
    (thick_t0 heights ic : list num) (rem : num) :
  (rem <? zero) = false ->
  retreat_loop B fuel fl thick_t0 heights ic rem = Ok (fl, (ic, rem)).
Proof. intros H. destruct fuel; cbn [retreat_loop]; now rewrite H. Qed.


Lemma advance_loop_done (B : bed) (fuel : nat) (fl : flowline)
    (heights : list num) (idx : list nat) (ic : list num) (rem : num) :
  any (map (fun x => x >? icethickness_advancethreshold) ic) = false ->
  advance_loop B fuel fl heights idx ic rem = Ok (fl, (ic, rem)).
Proof. intros H. destruct fuel; cbn [advance_loop]; now rewrite H. Qed.

Lemma advance_loop_step (B : bed) (fuel : nat) (fl : flowline)
    (heights : list num) (idx : list nat) (ic : list num) (rem : num) :
  any (map (fun x => x >? icethickness_advancethreshold) ic) = true ->
  advance_loop B (S fuel) fl heights idx ic rem =
  ('(fl', (ic', rem')) <- advance_step B fl heights idx ic rem ;;
   advance_loop B fuel fl' heights idx ic' rem').
Proof. intros H. cbn [advance_loop]. now rewrite H. Qed.

(** [redistribute] when the first pass leaves nothing to retreat. *)
Lemma redistribute_to_advance (B : bed) (fuel : nat) (fl : flowline)
    (mb : list num) (sec : num) (fl1 : flowline) (ic1 : list num) (rem1 : num) :
  (nz (-1) * glacier_volumechange_of (dx_meter fl) (thick fl) (widths_m B fl)
               mb sec false <? glacier_volume_total B fl) = true ->
  first_pass B fl mb sec = Ok (fl1, (ic1, rem1)) ->
  (rem1 <? zero) = false ->
  redistribute B fuel fl mb sec =
  ('(fl3, _) <- advance_loop B fuel fl1 (surface_h fl) (nonzero (thick fl)) ic1 rem1 ;;
   Ok fl3).
Proof.
  intros Hg H1 Hr. unfold redistribute, massredistributionHuss.
  rewrite Hg. unfold first_pass in H1. rewrite H1. cbn [bind].
  rewrite retreat_loop_done by assumption. reflexivity.
Qed.

(** ** Advance *)

(** One year of +5 m of ice on the six-bin glacier, up to the choice of the
    bin to add. *)
Lemma advance_colonizes_bin_4 :
  let mb := uniform_mb (nz 5) (surface_h fl_adv) [fl_adv] 0%nat 0%Z in
  match first_pass bed_adv fl_adv mb seconds_365 with
  | Ok (fl1, (ic1, rem1)) =>
      (rem1 <? zero) = false
      /\ any (map (fun x => x >? icethickness_advancethreshold) ic1) = true
      /\ match advance_cap bed_adv fl1 ic1 with
         | Ok (fl2, (_, _, _, adv_volume)) =>
             match advance_colonize bed_adv fl2 adv_volume with
             | Ok (fl3, (_, bin2add)) =>
                 bin2add = 4%nat
                 /\ (zero <? nth 4 (section bed_adv fl3) zero) = true
             | _ => False
             end
         | _ => False
         end
  | _ => False
  end.
Proof. vm_compute. repeat split. Qed.

(** The same year on the glacier that reaches the last bin: the pass of
    the advance loop raises. *)
Lemma advance_step_raises_at_last_bin :
  let mb := uniform_mb (nz 5) (surface_h fl_full) [fl_full] 0%nat 0%Z in
  (nz (-1) * glacier_volumechange_of (dx_meter fl_full) (thick fl_full)
               (widths_m bed_full fl_full) mb seconds_365 false
     <? glacier_volume_total bed_full fl_full) = true
  /\ match first_pass bed_full fl_full mb seconds_365 with
     | Ok (fl1, (ic1, rem1)) =>
         (rem1 <? zero) = false
         /\ any (map (fun x => x >? icethickness_advancethreshold) ic1) = true
         /\ advance_step bed_full fl1 (surface_h fl_full)
              (nonzero (thick fl_full)) ic1 rem1 = Raise ValueError
     | _ => False
     end.
Proof. vm_compute. repeat split. Qed.

Lemma arr_eqb_eq (xs ys : list num) : arr_eqb xs ys = true -> xs = ys.
Proof.
  revert ys. induction xs as [| x xs IH]; intros [| y ys]; try discriminate;
    [reflexivity |].
  cbn. intros H. apply andb_true_iff in H. destruct H as [H1 H2].
  apply neqb_eq in H1. apply IH in H2. congruence.
Qed.

Lemma fl_eqb_eq (fl fl' : flowline) : fl_eqb fl fl' = true -> fl = fl'.
Proof.
  unfold fl_eqb. intros H. apply andb_true_iff in H. destruct H as [H H3].
  apply andb_true_iff in H. destruct H as [H1 H2].
  apply arr_eqb_eq in H1, H2. apply neqb_eq in H3.
  destruct fl, fl'. cbn in *. congruence.
Qed.

Lemma loop_state_eqb_eq (s s' : flowline * (list num * num)) :
  loop_state_eqb s s' = true -> s = s'.
Proof.
  unfold loop_state_eqb. intros H. apply andb_true_iff in H.
  destruct H as [H H3]. apply andb_true_iff in H. destruct H as [H1 H2].
  apply fl_eqb_eq in H1. apply arr_eqb_eq in H2. apply neqb_eq in H3.
  destruct s as [fl [ic rem]], s' as [fl' [ic' rem']]. cbn in *. congruence.
Qed.

(** A pass that returns the state it started from is repeated for ever:
    whatever the fuel, the loop is still running when it is used up. *)
Lemma advance_loop_fixed_state_diverges
    (B : bed) (heights : list num) (idx : list nat)
    (fl : flowline) (ic : list num) (rem : num) (fuel : nat) :
  any (map (fun x => x >? icethickness_advancethreshold) ic) = true ->
  advance_step_fixed B heights idx (fl, (ic, rem)) = true ->
  advance_loop B fuel fl heights idx ic rem = OutOfFuel.
Proof.
  intros Hany Hfix. unfold advance_step_fixed in Hfix. cbn [fst snd] in Hfix.
  destruct (advance_step B fl heights idx ic rem) as [s' | |] eqn:E;
    try discriminate.
  apply loop_state_eqb_eq in Hfix. subst s'.
  induction fuel as [| fuel IH].
  - cbn [advance_loop]. now rewrite Hany.
  - rewrite advance_loop_step by assumption. rewrite E. cbn [bind]. exact IH.
Qed.

(** On the six-bin glacier the year of +5 m of ice never ends: the first
    pass of the advance loop reverts the section, and every pass after it
    starts from the state the pass before started from. *)
Lemma advance_never_ends_on_rectangular_bed (fuel : nat) :
  redistribute bed_adv fuel fl_adv
    (uniform_mb (nz 5) (surface_h fl_adv) [fl_adv] 0%nat 0%Z) seconds_365
  = OutOfFuel.
Proof.
  set (mb := uniform_mb (nz 5) (surface_h fl_adv) [fl_adv] 0%nat 0%Z).
  assert (H :
    (nz (-1) * glacier_volumechange_of (dx_meter fl_adv) (thick fl_adv)
                 (widths_m bed_adv fl_adv) mb seconds_365 false
       <? glacier_volume_total bed_adv fl_adv) = true
    /\ match first_pass bed_adv fl_adv mb seconds_365 with
       | Ok (fl1, (ic1, rem1)) =>
           (rem1 <? zero) = false
           /\ any (map (fun x => x >? icethickness_advancethreshold) ic1) = true
           /\ match
                advance_step bed_adv fl1 (surface_h fl_adv)
                  (nonzero (thick fl_adv)) ic1 rem1
              with
              | Ok (fl2, (ic2, rem2)) =>
                  any (map (fun x => x >? icethickness_advancethreshold) ic2)
                  = true
                  /\ advance_step_fixed bed_adv (surface_h fl_adv)
                       (nonzero (thick fl_adv)) (fl2, (ic2, rem2)) = true
              | _ => False
              end
       | _ => False
       end) by (vm_compute; repeat split).
  destruct H as [Hg H].
  destruct (first_pass bed_adv fl_adv mb seconds_365)
    as [[fl1 [ic1 rem1]] | |] eqn:E1; try contradiction.
  destruct H as (Hr & Ha & H).
  destruct (advance_step bed_adv fl1 (surface_h fl_adv)
              (nonzero (thick fl_adv)) ic1 rem1)
    as [[fl2 [ic2 rem2]] | |] eqn:E2; try contradiction.
  destruct H as [Ha2 Hfix].
  rewrite redistribute_to_advance with (fl1 := fl1) (ic1 := ic1) (rem1 := rem1)
    by assumption.
  destruct fuel as [| fuel].
  - cbn [advance_loop]. now rewrite Ha.
  - rewrite advance_loop_step by assumption. rewrite E2. cbn [bind].
    now rewrite advance_loop_fixed_state_diverges.
Qed.

(** C5.  (a) On the six-bin glacier the initial extent is bins 0 to 3,
    whose lowest surface is at 310 m; after a year of +5 m of ice the
    advance loop gives bin 4, whose surface is at 200 m, a positive
    cross-section.  (b) On the glacier that already reaches the last bin
    of the flowline the same year ends in a [ValueError], raised where the
    bin to add is looked up: the branch that reverts the section and drops
    the advance volume is never reached.  (c) Where that branch is reached,
    as it is on the six-bin glacier, the loop does not end: the year is
    still running when any amount of fuel is used up. *)
Theorem advance_leaves_initial_extent_and_raises_at_domain_end :
  (let mb := uniform_mb (nz 5) (surface_h fl_adv) [fl_adv] 0%nat 0%Z in
   nonzero (thick fl_adv) = [0; 1; 2; 3]%nat
   /\ (h0 <- take (surface_h fl_adv) (nonzero (thick fl_adv)) ;; amin h0)
      = Ok (nz 310)
   /\ nth 4 (surface_h fl_adv) zero = nz 200
   /\ exists fl1 ic1 rem1 fl2 sraw ic2 area_t1 adv_volume fl3 idx,
        first_pass bed_adv fl_adv mb seconds_365 = Ok (fl1, (ic1, rem1))
        /\ advance_cap bed_adv fl1 ic1 = Ok (fl2, (sraw, ic2, area_t1, adv_volume))
        /\ advance_colonize bed_adv fl2 adv_volume = Ok (fl3, (idx, 4%nat))
        /\ (zero <? nth 4 (section bed_adv fl3) zero) = true)
  /\ (forall fuel,
        redistribute bed_full (S fuel) fl_full
          (uniform_mb (nz 5) (surface_h fl_full) [fl_full] 0%nat 0%Z) seconds_365
        = Raise ValueError)
  /\ (forall fuel,
        redistribute bed_adv fuel fl_adv
          (uniform_mb (nz 5) (surface_h fl_adv) [fl_adv] 0%nat 0%Z) seconds_365
        = OutOfFuel).
Proof.
  split; [| split; [| exact advance_never_ends_on_rectangular_bed]].
  - cbv zeta. split; [reflexivity |].
    split; [vm_compute; f_equal; num_eq |].
    split; [num_eq |].
    pose proof advance_colonizes_bin_4 as H. cbv zeta in H.
    destruct (first_pass bed_adv fl_adv _ seconds_365)
      as [[fl1 [ic1 rem1]] | |]; try contradiction.
    destruct H as (_ & _ & H).
    destruct (advance_cap bed_adv fl1 ic1)
      as [[fl2 [[[sraw ic2] area_t1] adv_volume]] | |] eqn:E2; try contradiction.
    destruct (advance_colonize bed_adv fl2 adv_volume)
      as [[fl3 [idx bin2add]] | |] eqn:E3; try contradiction.
    destruct H as [-> H].
    exists fl1, ic1, rem1, fl2, sraw, ic2, area_t1, adv_volume, fl3, idx.
    repeat split; assumption.
  - intros fuel.
    pose proof advance_step_raises_at_last_bin as H. cbv zeta in H.
    destruct H as [Hg H].
    destruct (first_pass bed_full fl_full _ seconds_365)
      as [[fl1 [ic1 rem1]] | |] eqn:E1; try contradiction.
    destruct H as (Hr & Ha & Hs).
    rewrite redistribute_to_advance with (fl1 := fl1) (ic1 := ic1) (rem1 := rem1)
      by assumption.
    rewrite advance_loop_step by assumption. now rewrite Hs.
Qed.

(** ** Retreat *)




(* ================================================================== *)
(** * The curve away from the level glacier *)

(** ** Masks and index arrays *)

Lemma mask_set_map (xs : list num) (p : num -> bool) (v : num) :
  mask_set xs (map p xs) v = map (fun x => if p x then v else x) xs.
Proof.
  unfold mask_set. induction xs as [| x xs IH]; [reflexivity |].
  cbn. now rewrite IH.
Qed.

Lemma clip01_map (xs : list num) : clip01 xs = map clip1 xs.
Proof.
  unfold clip01. cbv zeta. rewrite !mask_set_map, map_map. reflexivity.
Qed.

Lemma get_app_length (pre xs : list num) (x : num) :
  get (pre ++ x :: xs) (length pre) = Ok x.
Proof.
  unfold get. rewrite nth_error_app2 by lia. now rewrite Nat.sub_diag.
Qed.

Lemma take_where_from (xs pre : list num) (m : list bool) :
  length m = length xs ->
  take (pre ++ xs) (where_from (length pre) m) = Ok (select xs m).
Proof.
  revert pre m. induction xs as [| x xs IH]; intros pre [| b m] Hlen;
    try discriminate; [reflexivity |].
  cbn in Hlen. injection Hlen as Hlen.
  assert (Hshift : pre ++ x :: xs = (pre ++ [x]) ++ xs)
    by now rewrite <- app_assoc.
  assert (Hk : S (length pre) = length (pre ++ [x]))
    by (rewrite length_app; cbn; lia).
  cbn [where_from select]. destruct b.
  - cbn [take]. rewrite get_app_length. cbn [bind].
    rewrite Hshift, Hk, IH by assumption. reflexivity.
  - rewrite Hshift, Hk, IH by assumption. reflexivity.
Qed.

Lemma take_where (xs : list num) (m : list bool) :
  length m = length xs -> take xs (where_ m) = Ok (select xs m).
Proof. intros H. exact (take_where_from xs [] m H). Qed.

Lemma mask_put_select (f : num -> num) (ys : list num) (m : list bool) :
  length ys = length m ->
  mask_put (zeros (length m)) m (map f (select ys m)) = Ok (pointwise f ys m).
Proof.
  revert ys. induction m as [| b m IH]; intros [| y ys] Hlen;
    try discriminate; [reflexivity |].
  cbn in Hlen. injection Hlen as Hlen.
  unfold pointwise in *. cbn [length zeros repeat mask_put select zipw].
  destruct b; cbn [map]; unfold zeros in IH; rewrite IH by assumption;
    reflexivity.
Qed.

Lemma select_pointwise (f : num -> num) (ys : list num) (m : list bool) :
  select (pointwise f ys m) m = map f (select ys m).
Proof.
  unfold pointwise. revert m. induction ys as [| y ys IH]; intros [| b m];
    try reflexivity.
  cbn. destruct b; cbn; now rewrite IH.
Qed.

Lemma clip01_pointwise (f : num -> num) (ys : list num) (m : list bool) :
  clip01 (pointwise f ys m) = pointwise (fun y => clip1 (f y)) ys m.
Proof.
  rewrite clip01_map. unfold pointwise. revert m.
  induction ys as [| y ys IH]; intros [| b m]; try reflexivity.
  cbn [zipw map]. rewrite IH. now destruct b.
Qed.

(** The curve value of each bin, written bin by bin: the clipped curve at
    the normalised elevation on the bins of positive area, zero on the
    others. *)
Lemma icethicknesschange_norm_pointwise
    (k : coeffs) (area heights : list num) (hmax hmin : num) :
  length heights = length area ->
  let mask := map (fun x => x >? zero) area in
  amax (select heights mask) = Ok hmax ->
  amin (select heights mask) = Ok hmin ->
  icethicknesschange_norm k area (where_ mask) heights =
  Ok (pointwise
        (fun h => clip1 (curve_value k ((hmax - h) / (hmax - hmin))))
        heights mask).
Proof.
  intros Hlen mask Hmax Hmin. unfold icethicknesschange_norm. fold mask.
  assert (Hm : length mask = length heights)
    by (unfold mask; rewrite length_map; lia).
  rewrite take_where by assumption. cbn [bind].
  rewrite Hmax, Hmin. cbn [bind].
  replace (length area) with (length mask) by lia.
  rewrite mask_put_select by lia. cbn [bind].
  rewrite select_pointwise, map_map.
  rewrite mask_put_select by lia. cbn [bind].
  now rewrite clip01_pointwise.
Qed.

(** ** The range of the clipped curve *)

(** Whatever goes in, what comes out of the two clipping assignments is
    [nan] or a value of [0, 1]. *)
Lemma clip1_range (x : num) : clip1 x = NaN \/ in_unit_interval (clip1 x).
Proof.
  unfold clip1, in_unit_interval. cbv zeta.
  destruct x as [q | | |]; [| right | right | left]; try (split; reflexivity);
    try reflexivity.
  right. unfold ngt.
  destruct (one <? Fin q) eqn:E1.
  - cbn. split; reflexivity.
  - destruct (Fin q <? zero) eqn:E0.
    + split; reflexivity.
    + split.
      * unfold nle. destruct (zero <? Fin q) eqn:E; [reflexivity |].
        cbn [orb]. unfold zero, nz, fin in *. apply neqb_Fin.
        change (Fin (qc 0 1) <? Fin q) with (nlt (Fin 0%Qc) (Fin q)) in E.
        change (Fin q <? Fin (qc 0 1)) with (nlt (Fin q) (Fin 0%Qc)) in E0.
        destruct (Qc_dec 0%Qc q) as [[H | H] | H]; [| | exact H].
        -- apply nlt_Fin in H. unfold qc in *. congruence.
        -- apply nlt_Fin in H. unfold qc in *. congruence.
      * unfold nle. destruct (Fin q <? one) eqn:E; [reflexivity |].
        cbn [orb]. unfold one, nz, fin in *. apply neqb_Fin.
        destruct (Qc_dec q (qc 1 1)) as [[H | H] | H]; [| | exact H].
        -- apply nlt_Fin in H. congruence.
        -- apply nlt_Fin in H. congruence.
Qed.

Lemma clip1_finite (x : num) : isfinite x = true -> isfinite (clip1 x) = true.
Proof.
  destruct x as [q | | |]; try discriminate. intros _.
  unfold clip1. cbv zeta.
  destruct (Fin q >? one); [reflexivity |].
  now destruct (Fin q <? zero).
Qed.

Lemma clip01_range (xs : list num) :
  Forall (fun x => x = NaN \/ in_unit_interval x) (clip01 xs).
Proof.
  rewrite clip01_map. apply Forall_map, Forall_forall.
  intros x _. apply clip1_range.
Qed.

(** ** Arrays over one list of bins *)

Lemma zipw_map {A B C D : Type} (f : B -> C -> D) (g : A -> B) (h : A -> C)
    (l : list A) :
  zipw f (map g l) (map h l) = map (fun x => f (g x) (h x)) l.
Proof. induction l as [| x l IH]; [reflexivity |]. cbn. now rewrite IH. Qed.

Lemma mask_set_map2 {A : Type} (g : A -> num) (p : A -> bool) (v : num)
    (l : list A) :
  mask_set (map g l) (map p l) v = map (fun x => if p x then v else g x) l.
Proof. unfold mask_set. now rewrite zipw_map. Qed.

Lemma pointwise_map {A : Type} (f : num -> num) (g : A -> num) (p : A -> bool)
    (l : list A) :
  pointwise f (map g l) (map p l) = map (fun x => if p x then f (g x) else zero) l.
Proof. unfold pointwise. now rewrite zipw_map. Qed.

Lemma select_map {A B : Type} (g : A -> B) (p : A -> bool) (l : list A) :
  select (map g l) (map p l) = map g (filter p l).
Proof.
  induction l as [| x l IH]; [reflexivity |].
  cbn. destruct (p x); cbn; now rewrite IH.
Qed.

Lemma mapi_from_map_combine {A B C : Type} (f : nat -> B -> C)
    (g : nat * A -> B) (k : nat) (ys : list A) :
  mapi_from f k (map g (combine (seq k (length ys)) ys)) =
  map (fun p => f (fst p) (g p)) (combine (seq k (length ys)) ys).
Proof.
  revert k. induction ys as [| y ys IH]; intros k; [reflexivity |].
  cbn. now rewrite IH.
Qed.

Section Bins.

Variable B : bed.
Variable fl : flowline.
Hypothesis Hlen : length (bed_h fl) = length (thick fl).

Lemma length_bins : length (bins fl) = length (thick fl).
Proof.
  unfold bins. rewrite length_combine, length_seq, length_combine. lia.
Qed.

Lemma thick_bins : thick fl = map b_thick (bins fl).
Proof.
  unfold bins. generalize 0%nat as k. revert Hlen.
  generalize (bed_h fl) as es. generalize (thick fl) as ts.
  induction ts as [| t ts IH]; intros [| e es] H k; try discriminate;
    [reflexivity |].
  cbn in H. injection H as H. cbn. f_equal. now apply IH.
Qed.

Lemma mapi_thick_bins (f : nat -> num -> num) :
  mapi f (thick fl) = map (fun b => f (b_idx b) (b_thick b)) (bins fl).
Proof.
  unfold bins, mapi. generalize 0%nat as k. revert Hlen.
  generalize (bed_h fl) as es. generalize (thick fl) as ts.
  induction ts as [| t ts IH]; intros [| e es] H k; try discriminate;
    [reflexivity |].
  cbn in H. injection H as H. cbn. f_equal. now apply IH.
Qed.

Lemma surface_h_bins : surface_h fl = map b_height (bins fl).
Proof.
  unfold bins, surface_h. generalize 0%nat as k. revert Hlen.
  generalize (bed_h fl) as es. generalize (thick fl) as ts.
  induction ts as [| t ts IH]; intros [| e es] H k; try discriminate;
    [reflexivity |].
  cbn in H. injection H as H. cbn. f_equal. now apply IH.
Qed.

Lemma mapi_map_bins (f : nat -> num -> num) (g : bin -> num) :
  mapi f (map g (bins fl)) = map (fun b => f (b_idx b) (g b)) (bins fl).
Proof.
  unfold bins, mapi.
  replace (length (thick fl)) with (length (combine (thick fl) (bed_h fl)))
    by (rewrite length_combine; lia).
  apply mapi_from_map_combine.
Qed.

Lemma section_bins : section B fl = map (b_section B) (bins fl).
Proof. apply mapi_thick_bins. Qed.

Lemma widths_bins : widths_m B fl = map (b_width B) (bins fl).
Proof. apply mapi_thick_bins. Qed.

Lemma glacier_area_bins :
  glacier_area (dx_meter fl) (widths_m B fl) (thick fl) =
  map (b_area B (dx_meter fl)) (bins fl).
Proof.
  unfold glacier_area. cbv zeta. rewrite widths_bins, thick_bins at 1.
  rewrite !map_map, mask_set_map2. reflexivity.
Qed.

End Bins.

Section CurveOnBins.

Variable B : bed.
Variable fl : flowline.
Hypothesis Hlen : length (bed_h fl) = length (thick fl).

Let dx := dx_meter fl.
Let L := bins fl.
Let active (b : bin) : bool := b_area B dx b >? zero.

(** Every bin with ice has a positive area. *)
Hypothesis Hpos :
  Forall (fun b => nonzerob (b_thick b) = true ->
                   (b_width B b * dx >? zero) = true) L.

Lemma active_nonzero (b : bin) :
  In b L -> active b = nonzerob (b_thick b).
Proof.
  intros Hin. unfold active, b_area, nonzerob.
  destruct (b_thick b =? zero) eqn:E; [reflexivity |].
  rewrite Forall_forall in Hpos. apply Hpos; [assumption |].
  unfold nonzerob. now rewrite E.
Qed.

Lemma nonzero_thick_active :
  nonzero (thick fl) =
  where_ (map (fun x => x >? zero)
            (glacier_area dx (widths_m B fl) (thick fl))).
Proof.
  unfold nonzero. unfold dx. rewrite glacier_area_bins by assumption.
  rewrite thick_bins at 1 by assumption. rewrite !map_map. f_equal.
  apply map_ext_in. intros b Hb. symmetry. now apply active_nonzero.
Qed.

(** The volume change of every bin on the curve branch, bin by bin. *)
Lemma bin_volumechange_bins (vc : num) (mb : list num) (hmax hmin : num) :
  (3 < length (nonzero (thick fl)))%nat ->
  amax (map b_height (filter active L)) = Ok hmax ->
  amin (map b_height (filter active L)) = Ok hmin ->
  let k := select_coeffs (asum (map (b_area B dx) L)) in
  let nrm := b_norm B dx k hmax hmin in
  let fs := vc / asum (map (fun b => b_area B dx b * nrm b) L) in
  bin_volumechange dx (thick fl) (widths_m B fl) (nonzero (thick fl)) vc mb
    (surface_h fl) =
  Ok (map (fun b => nrm b * fs * b_area B dx b) L).
Proof.
  intros Hn Hmax Hmin k nrm fs. unfold bin_volumechange.
  apply Nat.ltb_lt in Hn. rewrite Hn.
  rewrite nonzero_thick_active.
  unfold dx in *. rewrite glacier_area_bins by assumption.
  rewrite surface_h_bins by assumption. fold L. fold dx.
  rewrite (@icethicknesschange_norm_pointwise _ _ _ hmax hmin).
  - cbn [bind]. rewrite map_map, pointwise_map. rewrite !zipw_map.
    reflexivity.
  - now rewrite !length_map.
  - rewrite map_map, select_map. exact Hmax.
  - rewrite map_map, select_map. exact Hmin.
Qed.

End CurveOnBins.

(** ** Finite numbers *)

Lemma finite_qv (x : num) : isfinite x = true -> x = Fin (qv x).
Proof. destruct x; try discriminate. reflexivity. Qed.

Lemma qsign_Eq (q : Qc) : qsign q = Eq <-> q = 0%Qc.
Proof. unfold qsign. symmetry. apply Qceq_alt. Qed.

Lemma ndiv_Fin (a b : Qc) : b <> 0%Qc -> Fin a / Fin b = Fin (a / b).
Proof.
  intros Hb. cbn. destruct (qsign b) eqn:E; try reflexivity.
  apply qsign_Eq in E. contradiction.
Qed.

Lemma nle_Fin (a b : Qc) : (Fin a <=? Fin b) = true <-> (a <= b)%Qc.
Proof.
  unfold nle. rewrite orb_true_iff, nlt_Fin, neqb_Fin. split.
  - intros [H | ->]; [now apply Qclt_le_weak | apply Qcle_refl].
  - intros H. apply Qcle_lt_or_eq in H. tauto.
Qed.

Lemma nlt_Fin_false (a b : Qc) : (Fin a <? Fin b) = false <-> (b <= a)%Qc.
Proof.
  split.
  - intros H. apply Qcnot_lt_le. intros Hlt. apply nlt_Fin in Hlt. congruence.
  - intros H. destruct (Fin a <? Fin b) eqn:E; [| reflexivity].
    apply nlt_Fin in E. exfalso. exact (Qcle_not_lt _ _ H E).
Qed.

Lemma clip_min_Fin (q : Qc) :
  (Fin q <? zero) = false -> clip_min (Fin q) zero = Fin q.
Proof. intros H. unfold clip_min, nmax. cbn [is_nan orb]. now rewrite H. Qed.

Lemma fold_nadd_Fin (qs : list Qc) (acc : Qc) :
  fold_left nadd (map Fin qs) (Fin acc) = Fin (acc + qsum qs).
Proof.
  revert acc. induction qs as [| q qs IH]; intros acc;
    cbn [fold_left map nadd]; unfold qsum; cbn [fold_right].
  - now rewrite Qcplus_0_r.
  - fold (qsum qs). rewrite IH. f_equal. ring.
Qed.

Lemma asum_Fin (qs : list Qc) : asum (map Fin qs) = Fin (qsum qs).
Proof.
  unfold asum, zero, nz, fin. change (qc 0 1) with 0%Qc.
  rewrite fold_nadd_Fin. f_equal. apply Qcplus_0_l.
Qed.

(** The sum of an array of finite numbers. *)
Lemma asum_finite {A : Type} (f : A -> num) (g : A -> Qc) (l : list A) :
  (forall x, In x l -> f x = Fin (g x)) ->
  asum (map f l) = Fin (qsum (map g l)).
Proof.
  intros H. rewrite <- asum_Fin, map_map. f_equal. now apply map_ext_in.
Qed.

Lemma qsum_scale {A : Type} (g : A -> Qc) (c : Qc) (l : list A) :
  qsum (map (fun x => (c * g x)%Qc) l) = (c * qsum (map g l))%Qc.
Proof.
  unfold qsum. induction l as [| x l IH]; cbn [map fold_right]; [ring |].
  rewrite IH. ring.
Qed.

Lemma qsum_ext {A : Type} (g h : A -> Qc) (l : list A) :
  (forall x, In x l -> g x = h x) -> qsum (map g l) = qsum (map h l).
Proof. intros H. f_equal. now apply map_ext_in. Qed.

Lemma qsum_zero {A : Type} (l : list A) : qsum (map (fun _ => 0%Qc) l) = 0%Qc.
Proof.
  unfold qsum. induction l as [| x l IH]; cbn [map fold_right]; [reflexivity |].
  rewrite IH. ring.
Qed.

Lemma qsum_nonneg {A : Type} (g : A -> Qc) (l : list A) :
  (forall x, In x l -> (0 <= g x)%Qc) -> (0 <= qsum (map g l))%Qc.
Proof.
  unfold qsum.
  induction l as [| x l IH]; intros H; cbn [map fold_right]; [apply Qcle_refl |].
  replace 0%Qc with (0 + 0)%Qc by ring.
  apply Qcplus_le_compat; [apply H; now left |].
  apply IH. intros y Hy. apply H. now right.
Qed.

Lemma qsum_pos {A : Type} (g : A -> Qc) (l : list A) (x0 : A) :
  (forall x, In x l -> (0 <= g x)%Qc) -> In x0 l -> (0 < g x0)%Qc ->
  (0 < qsum (map g l))%Qc.
Proof.
  induction l as [| x l IH]; intros H Hin Hx0; [contradiction |].
  unfold qsum. cbn [map fold_right]. fold (qsum (map g l)).
  destruct Hin as [-> | Hin].
  - apply Qclt_le_trans with (g x0 + 0)%Qc.
    + now rewrite Qcplus_0_r.
    + apply Qcplus_le_compat; [apply Qcle_refl |].
      apply qsum_nonneg. intros y Hy. apply H. now right.
  - apply Qclt_le_trans with (0 + qsum (map g l))%Qc.
    + rewrite Qcplus_0_l. apply IH; try assumption.
      intros y Hy. apply H. now right.
    + apply Qcplus_le_compat; [apply H; now left | apply Qcle_refl].
Qed.

(** ** Extremes of finite arrays *)

Lemma nmax_finite (x y : num) :
  isfinite x = true -> isfinite y = true ->
  isfinite (nmax x y) = true /\ (nmax x y = x \/ nmax x y = y).
Proof.
  destruct x, y; try discriminate. intros _ _. unfold nmax. cbn [is_nan orb].
  destruct (Fin q <? Fin q0); auto.
Qed.

Lemma nmin_finite (x y : num) :
  isfinite x = true -> isfinite y = true ->
  isfinite (nmin x y) = true /\ (nmin x y = x \/ nmin x y = y).
Proof.
  destruct x, y; try discriminate. intros _ _. unfold nmin. cbn [is_nan orb].
  destruct (Fin q0 <? Fin q); auto.
Qed.

Lemma fold_nmax_in (xs : list num) (x : num) :
  isfinite x = true -> Forall (fun y => isfinite y = true) xs ->
  isfinite (fold_left nmax xs x) = true /\ In (fold_left nmax xs x) (x :: xs).
Proof.
  revert x. induction xs as [| y ys IH]; intros x Hx Hxs; cbn [fold_left].
  - split; [assumption | now left].
  - inversion Hxs as [| ? ? Hy Hys]; subst.
    destruct (nmax_finite x y Hx Hy) as [Hf Hc].
    destruct (IH (nmax x y) Hf Hys) as [Hf' Hin]. split; [assumption |].
    destruct Hin as [Hin | Hin]; [| right; now right].
    rewrite <- Hin. destruct Hc as [-> | ->]; [now left | right; now left].
Qed.

Lemma fold_nmin_in (xs : list num) (x : num) :
  isfinite x = true -> Forall (fun y => isfinite y = true) xs ->
  isfinite (fold_left nmin xs x) = true /\ In (fold_left nmin xs x) (x :: xs).
Proof.
  revert x. induction xs as [| y ys IH]; intros x Hx Hxs; cbn [fold_left].
  - split; [assumption | now left].
  - inversion Hxs as [| ? ? Hy Hys]; subst.
    destruct (nmin_finite x y Hx Hy) as [Hf Hc].
    destruct (IH (nmin x y) Hf Hys) as [Hf' Hin]. split; [assumption |].
    destruct Hin as [Hin | Hin]; [| right; now right].
    rewrite <- Hin. destruct Hc as [-> | ->]; [now left | right; now left].
Qed.

Lemma amax_finite (xs : list num) (m : num) :
  Forall (fun y => isfinite y = true) xs -> amax xs = Ok m ->
  isfinite m = true /\ In m xs.
Proof.
  destruct xs as [| x xs]; [discriminate |]. intros H [= <-].
  inversion H; subst. now apply fold_nmax_in.
Qed.

Lemma amin_finite (xs : list num) (m : num) :
  Forall (fun y => isfinite y = true) xs -> amin xs = Ok m ->
  isfinite m = true /\ In m xs.
Proof.
  destruct xs as [| x xs]; [discriminate |]. intros H [= <-].
  inversion H; subst. now apply fold_nmin_in.
Qed.

(** ** The curve on finite elevations *)

Lemma npow_finite (x : num) (n : nat) :
  isfinite x = true -> isfinite (npow x n) = true.
Proof.
  destruct x as [q | | |]; try discriminate. intros _.
  induction n as [| n IH]; [reflexivity |].
  cbn [npow]. destruct (npow (Fin q) n); try discriminate. reflexivity.
Qed.

Lemma curve_value_finite (A h : num) :
  isfinite h = true -> isfinite (curve_value (select_coeffs A) h) = true.
Proof.
  destruct h as [q | | |]; try discriminate. intros _.
  unfold curve_value, select_coeffs.
  destruct (A >? nz 20); [| destruct (A >? nz 5)];
    cbn [c_gamma c_a c_b c_c coeffs_large coeffs_medium coeffs_small];
    match goal with
    | |- isfinite (npow ?x ?n + _ + _) = true =>
        pose proof (@npow_finite x n eq_refl) as H;
        destruct (npow x n); try discriminate H; reflexivity
    end.
Qed.

(** At the lowest active bin the normalised elevation is 1, and each of
    the three curves is clipped to 1 there. *)
Lemma clip1_curve_at_one (A : num) :
  clip1 (curve_value (select_coeffs A) one) = one.
Proof.
  unfold select_coeffs.
  destruct (A >? nz 20); [| destruct (A >? nz 5)]; num_eq.
Qed.

Lemma in_unit_interval_Fin (q : Qc) :
  in_unit_interval (Fin q) <-> (0 <= q <= 1)%Qc.
Proof.
  unfold in_unit_interval, zero, one, nz, fin.
  change (qc 0 1) with 0%Qc. change (qc 1 1) with 1%Qc.
  now rewrite !nle_Fin.
Qed.

(** ** Conservation *)

Section Conservation.

Variable B : bed.
Variable fl : flowline.
Hypothesis Hreg : regular B fl.

Variables hmax hmin : num.
Hypothesis Hn : (3 < length (nonzero (thick fl)))%nat.
Hypothesis Hmax : amax (active_heights fl) = Ok hmax.
Hypothesis Hmin : amin (active_heights fl) = Ok hmin.
Hypothesis Hne : hmax <> hmin.

Let dx := dx_meter fl.
Let L := bins fl.
Let active (b : bin) : bool := b_area B dx b >? zero.
Let k := select_coeffs (asum (map (b_area B dx) L)).
Let nrm := b_norm B dx k hmax hmin.
Let d := qv dx.
Let qa (b : bin) : Qc := qv (b_area B dx b).
Let qn (b : bin) : Qc := qv (nrm b).
Let qs (b : bin) : Qc := qv (b_section B b).

Lemma dx_fin : dx = Fin d /\ (0 < d)%Qc.
Proof.
  destruct (reg_dx Hreg) as [d' [H Hd]]. unfold d, dx. rewrite H. now split.
Qed.

Lemma d_nonzero : d <> 0%Qc.
Proof.
  destruct dx_fin as [_ H]. intros E. rewrite E in H.
  exact (Qclt_not_eq _ _ H eq_refl).
Qed.

Lemma bin_facts (b : bin) :
  In b L ->
  isfinite (b_height b) = true
  /\ (exists w, b_width B b = Fin w
                /\ (nonzerob (b_thick b) = true -> (0 < w)%Qc))
  /\ b_section B b = Fin (qs b) /\ (0 <= qs b)%Qc.
Proof.
  intros Hin. pose proof (reg_bins Hreg) as H.
  rewrite Forall_forall in H. destruct (H b Hin) as (Hh & Hw & s & Hs & Hs0).
  split; [assumption |]. split; [assumption |].
  unfold qs. rewrite Hs. now split.
Qed.

Lemma pos_area :
  Forall (fun b => nonzerob (b_thick b) = true ->
                   (b_width B b * dx >? zero) = true) L.
Proof.
  apply Forall_forall. intros b Hin Hnz.
  destruct (@bin_facts b Hin) as (_ & (w & Hw & Hpos) & _).
  destruct dx_fin as [Hdx Hd]. rewrite Hw, Hdx. unfold ngt, zero, nz, fin.
  change (qc 0 1) with 0%Qc. apply nlt_Fin.
  specialize (Hpos Hnz).
  replace 0%Qc with (0 * d)%Qc by ring.
  now apply Qcmult_lt_compat_r.
Qed.

Lemma area_fin (b : bin) :
  In b L ->
  b_area B dx b = Fin (qa b) /\ (0 <= qa b)%Qc
  /\ (active b = true -> (0 < qa b)%Qc).
Proof.
  intros Hin. unfold qa, active.
  destruct (@bin_facts b Hin) as (_ & (w & Hw & Hpos) & _).
  destruct dx_fin as [Hdx Hd]. unfold b_area.
  destruct (b_thick b =? zero) eqn:E.
  - split; [reflexivity |]. split; [apply Qcle_refl | discriminate].
  - rewrite Hw, Hdx. cbn [nmul qv].
    assert (Hlt : (0 < w * d)%Qc).
    { replace 0%Qc with (0 * d)%Qc by ring.
      apply Qcmult_lt_compat_r; [assumption |].
      apply Hpos. unfold nonzerob. now rewrite E. }
    split; [reflexivity |]. split; [now apply Qclt_le_weak | auto].
Qed.

Lemma active_is_nonzero (b : bin) :
  In b L -> active b = nonzerob (b_thick b).
Proof.
  intros Hin. apply (@active_nonzero B fl); [exact pos_area | exact Hin].
Qed.

Lemma active_heights_bins :
  active_heights fl = map b_height (filter active L).
Proof.
  unfold active_heights.
  rewrite (@surface_h_bins fl (reg_len Hreg)), (@thick_bins fl (reg_len Hreg)).
  rewrite map_map, select_map. f_equal. apply filter_ext_in.
  intros b Hb. symmetry. now apply active_is_nonzero.
Qed.

Lemma active_heights_finite :
  Forall (fun y => isfinite y = true) (active_heights fl).
Proof.
  rewrite active_heights_bins. apply Forall_map, Forall_forall.
  intros b Hb. apply filter_In in Hb. now apply (@bin_facts b).
Qed.

Lemma hmax_fin : isfinite hmax = true.
Proof. exact (proj1 (@amax_finite _ _ active_heights_finite Hmax)). Qed.

Lemma hmin_fin : isfinite hmin = true.
Proof. exact (proj1 (@amin_finite _ _ active_heights_finite Hmin)). Qed.

Lemma range_nonzero : (qv hmax - qv hmin)%Qc <> 0%Qc.
Proof.
  intros E. apply Hne.
  rewrite (@finite_qv hmax hmax_fin), (@finite_qv hmin hmin_fin). f_equal.
  rewrite <- (Qcplus_0_l (qv hmin)), <- E. ring.
Qed.

(** The normalised elevation of a bin is finite. *)
Lemma elevrange_fin (b : bin) :
  In b L -> isfinite ((hmax - b_height b) / (hmax - hmin)) = true.
Proof.
  intros Hin. destruct (@bin_facts b Hin) as (Hh & _).
  rewrite (@finite_qv hmax hmax_fin), (@finite_qv hmin hmin_fin), (@finite_qv _ Hh).
  change (Fin (qv hmax) - Fin (qv (b_height b)))
    with (Fin (qv hmax - qv (b_height b))).
  change (Fin (qv hmax) - Fin (qv hmin)) with (Fin (qv hmax - qv hmin)).
  now rewrite ndiv_Fin by exact range_nonzero.
Qed.

Lemma norm_fin (b : bin) :
  In b L -> nrm b = Fin (qn b) /\ (0 <= qn b <= 1)%Qc.
Proof.
  intros Hin. unfold qn, nrm, b_norm.
  destruct (b_area B dx b >? zero).
  - pose proof (@clip1_finite _ (@curve_value_finite
                 (asum (map (b_area B dx) L)) _ (@elevrange_fin b Hin))) as Hf.
    fold k in Hf. set (x := clip1 _) in *.
    destruct (clip1_range (curve_value k ((hmax - b_height b) / (hmax - hmin))))
      as [Hnan | Hin01]; fold x in Hnan || fold x in Hin01.
    + rewrite Hnan in Hf. discriminate.
    + rewrite (@finite_qv _ Hf) in Hin01 |- *.
      split; [reflexivity |]. now apply in_unit_interval_Fin.
  - split; [reflexivity |]. cbn. split; [apply Qcle_refl |].
    now apply Qclt_le_weak.
Qed.

(** The lowest active bin has the curve value 1. *)
Lemma norm_at_min :
  exists b0, In b0 L /\ active b0 = true /\ qn b0 = 1%Qc.
Proof.
  destruct (@amin_finite _ _ active_heights_finite Hmin) as [_ Hin].
  rewrite active_heights_bins in Hin. apply in_map_iff in Hin.
  destruct Hin as (b0 & Hb0 & Hf). apply filter_In in Hf.
  destruct Hf as [Hin Hact]. exists b0. split; [assumption |].
  split; [assumption |].
  unfold qn, nrm, b_norm. unfold active in Hact. rewrite Hact, Hb0.
  rewrite (@finite_qv hmax hmax_fin), (@finite_qv hmin hmin_fin).
  change (Fin (qv hmax) - Fin (qv hmin)) with (Fin (qv hmax - qv hmin)).
  rewrite ndiv_Fin by exact range_nonzero.
  replace ((qv hmax - qv hmin) / (qv hmax - qv hmin))%Qc with 1%Qc
    by (field; exact range_nonzero).
  change (Fin 1%Qc) with one. unfold k. now rewrite clip1_curve_at_one.
Qed.

Let Dq := qsum (map (fun b => (qa b * qn b)%Qc) L).

Lemma D_fin : asum (map (fun b => b_area B dx b * nrm b) L) = Fin Dq.
Proof.
  apply asum_finite. intros b Hin.
  destruct (@area_fin b Hin) as (-> & _). destruct (@norm_fin b Hin) as (-> & _).
  reflexivity.
Qed.

Lemma D_pos : (0 < Dq)%Qc.
Proof.
  destruct norm_at_min as (b0 & Hin & Hact & H1).
  apply qsum_pos with (x0 := b0); [| assumption |].
  - intros b Hb. destruct (@area_fin b Hb) as (_ & Ha & _).
    destruct (@norm_fin b Hb) as (_ & Hn0 & _).
    replace 0%Qc with (0 * qn b)%Qc by ring.
    now apply Qcmult_le_compat_r.
  - rewrite H1, Qcmult_1_r. now apply (@area_fin b0).
Qed.

Lemma Dq_nonzero : Dq <> 0%Qc.
Proof.
  intros E. pose proof D_pos as H. rewrite E in H.
  exact (Qclt_not_eq _ _ H eq_refl).
Qed.

Variable v : Qc.
Variable mb : list num.

Let cq (b : bin) : Qc := (qn b * (v / Dq) * qa b)%Qc.
Let news : list num := map (fun b => Fin (qs b + cq b / d)) L.

Lemma bvc_bins :
  bin_volumechange dx (thick fl) (widths_m B fl) (nonzero (thick fl)) (Fin v) mb
    (surface_h fl) = Ok (map (fun b => Fin (cq b)) L).
Proof.
  unfold dx.
  rewrite (@bin_volumechange_bins B fl (reg_len Hreg) pos_area (Fin v) mb
             hmax hmin Hn).
  - f_equal. apply map_ext_in. intros b Hin. fold dx. fold L. fold k. fold nrm.
    rewrite D_fin, ndiv_Fin by exact Dq_nonzero.
    destruct (@area_fin b Hin) as (-> & _).
    destruct (@norm_fin b Hin) as (-> & _). reflexivity.
  - fold dx L. fold active. rewrite <- active_heights_bins. exact Hmax.
  - fold dx L. fold active. rewrite <- active_heights_bins. exact Hmin.
Qed.

Lemma sum_cq : qsum (map cq L) = v.
Proof.
  rewrite qsum_ext with (h := fun b => ((v / Dq) * (qa b * qn b))%Qc)
    by (intros b _; unfold cq; ring).
  rewrite (@qsum_scale bin (fun b => (qa b * qn b)%Qc)). fold Dq.
  field. exact Dq_nonzero.
Qed.

(** The update of line 686 when no cross-section is clamped. *)
Hypothesis Hnoclamp : no_bin_clamped B fl (map (fun b => Fin (cq b)) L).

Lemma new_section_nonneg (b : bin) : In b L -> (0 <= qs b + cq b / d)%Qc.
Proof.
  intros Hin. unfold no_bin_clamped in Hnoclamp.
  rewrite (@section_bins B fl (reg_len Hreg)), map_map, zipw_map in Hnoclamp.
  rewrite Forall_map, Forall_forall in Hnoclamp.
  specialize (Hnoclamp b Hin). cbv beta in Hnoclamp.
  destruct (@bin_facts b Hin) as (_ & _ & Hs & _).
  destruct dx_fin as [Hdx _]. fold dx in Hnoclamp.
  rewrite Hs, Hdx, ndiv_Fin in Hnoclamp by exact d_nonzero.
  now apply nlt_Fin_false in Hnoclamp.
Qed.

Lemma clipped_sections :
  map (fun s => clip_min s zero)
    (zipw nadd (section B fl) (map (fun c => c / dx) (map (fun b => Fin (cq b)) L)))
  = news.
Proof.
  rewrite (@section_bins B fl (reg_len Hreg)), map_map, zipw_map, map_map.
  apply map_ext_in. intros b Hin.
  destruct (@bin_facts b Hin) as (_ & _ & Hs & _).
  destruct dx_fin as [Hdx _].
  rewrite Hs, Hdx, ndiv_Fin by exact d_nonzero.
  apply clip_min_Fin. apply nlt_Fin_false. now apply new_section_nonneg.
Qed.

Lemma section_after : section B (set_section B fl news) = news.
Proof.
  unfold section, set_section, with_thick. cbn [thick]. unfold news.
  rewrite (@mapi_map_bins fl (reg_len Hreg)).
  rewrite (@mapi_map_bins fl (reg_len Hreg)).
  apply map_ext_in. intros b Hin.
  apply (reg_round Hreg); [exact Hin | now apply new_section_nonneg].
Qed.

Lemma remaining_zero :
  let remaining :=
    zipw nsub (map (fun b => Fin (cq b)) L)
      (zipw nsub (map (fun s => s * dx) news)
                 (map (fun s => s * dx) (section B fl))) in
  asum (mask_set remaining (map (fun x => nabs x <? tolerance) remaining) zero)
  = zero.
Proof.
  cbv zeta. unfold news.
  rewrite (@section_bins B fl (reg_len Hreg)), !map_map, !zipw_map, !map_map.
  rewrite mask_set_map2.
  rewrite asum_finite with (g := fun _ => 0%Qc).
  - change zero with (Fin 0%Qc). f_equal. apply qsum_zero.
  - intros b Hin. destruct (@bin_facts b Hin) as (_ & _ & Hs & _).
    destruct dx_fin as [Hdx _]. rewrite Hs, Hdx.
    assert (E : Fin (cq b) - (Fin (qs b + cq b / d) * Fin d - Fin (qs b) * Fin d)
                = Fin 0%Qc).
    { change (Fin (cq b) - (Fin (qs b + cq b / d) * Fin d - Fin (qs b) * Fin d))
        with (Fin (cq b - ((qs b + cq b / d) * d - qs b * d))).
      f_equal. field. exact d_nonzero. }
    rewrite E. reflexivity.
Qed.

Lemma applied_is_requested :
  applied_volumechange B fl (set_section B fl news) = Fin v.
Proof.
  unfold applied_volumechange. rewrite section_after. unfold news.
  rewrite (@section_bins B fl (reg_len Hreg)), zipw_map.
  rewrite asum_finite with (g := cq).
  - f_equal. exact sum_cq.
  - intros b Hin. destruct (@bin_facts b Hin) as (_ & _ & Hs & _).
    destruct dx_fin as [Hdx _]. fold dx. rewrite Hs, Hdx.
    change ((Fin (qs b + cq b / d) - Fin (qs b)) * Fin d)
      with (Fin ((qs b + cq b / d - qs b) * d)).
    f_equal. field. exact d_nonzero.
Qed.

(** The curve value of every bin lies in [0, 1]. *)
Lemma norm_bins_in_unit_interval :
  exists norm,
    icethicknesschange_norm k (glacier_area dx (widths_m B fl) (thick fl))
      (nonzero (thick fl)) (surface_h fl) = Ok norm
    /\ Forall in_unit_interval norm.
Proof.
  exists (map nrm L). split.
  - rewrite (@nonzero_thick_active B fl (reg_len Hreg) pos_area).
    unfold dx. rewrite (@glacier_area_bins B fl (reg_len Hreg)).
    rewrite (@surface_h_bins fl (reg_len Hreg)). fold dx L.
    rewrite (@icethicknesschange_norm_pointwise _ _ _ hmax hmin).
    + now rewrite map_map, pointwise_map.
    + now rewrite !length_map.
    + rewrite map_map, select_map. fold active.
      rewrite <- active_heights_bins. exact Hmax.
    + rewrite map_map, select_map. fold active.
      rewrite <- active_heights_bins. exact Hmin.
  - apply Forall_map, Forall_forall. intros b Hin.
    destruct (@norm_fin b Hin) as (-> & H). now apply in_unit_interval_Fin.
Qed.

Lemma curve_call_conserves :
  exists ic,
    curve_call B fl (Fin v) mb = Ok (set_section B fl news, (ic, zero)).
Proof.
  unfold curve_call, massredistributioncurveHuss. fold dx.
  rewrite bvc_bins. cbn [bind]. rewrite clipped_sections.
  rewrite section_after. rewrite remaining_zero. eexists. reflexivity.
Qed.

End Conservation.

(** The clipped curve lies in [0, 1] on every glacier in a regular state
    whose active bins are not all at one elevation. *)
Theorem curve_in_unit_interval
    (B : bed) (fl : flowline) (hmax hmin : num) :
  regular B fl ->
  amax (active_heights fl) = Ok hmax ->
  amin (active_heights fl) = Ok hmin ->
  hmax <> hmin ->
  let area := glacier_area (dx_meter fl) (widths_m B fl) (thick fl) in
  exists norm,
    icethicknesschange_norm (select_coeffs (asum area)) area
      (nonzero (thick fl)) (surface_h fl) = Ok norm
    /\ Forall in_unit_interval norm.
Proof.
  intros Hreg Hmax Hmin Hne area. subst area.
  destruct (@norm_bins_in_unit_interval B fl Hreg hmax hmin Hmax Hmin Hne)
    as (norm & E & HF).
  exists norm. split; [| exact HF].
  cbv zeta in E. rewrite (@glacier_area_bins B fl (reg_len Hreg)) in E |- *.
  exact E.
Qed.

(** Conservation in exact arithmetic, on every glacier in a regular state
    with more than three active bins that are not all at one elevation: if
    no cross-section is clamped at zero, the applied volume change sums to
    the requested one and the remaining volume change is zero.  In
    [float64] the two equalities hold up to rounding only, and the residue
    of a bin is reset by line 700 only below the tolerance. *)
Theorem curve_conserves_volume
    (B : bed) (fl : flowline) (v : Qc) (mb : list num) (hmax hmin : num) :
  regular B fl ->
  (3 < length (nonzero (thick fl)))%nat ->
  amax (active_heights fl) = Ok hmax ->
  amin (active_heights fl) = Ok hmin ->
  hmax <> hmin ->
  (forall bvc,
     bin_volumechange (dx_meter fl) (thick fl) (widths_m B fl)
       (nonzero (thick fl)) (Fin v) mb (surface_h fl) = Ok bvc ->
     no_bin_clamped B fl bvc) ->
  exists fl1 ic,
    curve_call B fl (Fin v) mb = Ok (fl1, (ic, zero))
    /\ applied_volumechange B fl fl1 = Fin v.
Proof.
  intros Hreg Hn Hmax Hmin Hne Hnc.
  pose proof (@bvc_bins B fl Hreg hmax hmin Hn Hmax Hmin Hne v mb) as E.
  pose proof (Hnc _ E) as Hnc'.
  destruct (@curve_call_conserves B fl Hreg hmax hmin Hn Hmax Hmin Hne v mb Hnc')
    as [ic Hc].
  eexists _, ic. split; [exact Hc |].
  eapply applied_is_requested; eassumption.
Qed.

(** ** The rectangular bed *)

Lemma Qcinv_pos (q : Qc) : (0 < q)%Qc -> (0 < / q)%Qc.
Proof.
  intros Hq.
  assert (Hq0 : q <> 0%Qc).
  { intros E. rewrite E in Hq. exact (Qclt_not_eq _ _ Hq eq_refl). }
  destruct (Qclt_le_dec 0 (/ q)) as [H | H]; [assumption |].
  exfalso. apply (Qclt_not_le 0 1); [now apply Qclt_alt |].
  rewrite <- (Qcmult_inv_l q Hq0).
  replace 0%Qc with (0 * q)%Qc by ring.
  apply Qcmult_le_compat_r; [assumption | now apply Qclt_le_weak].
Qed.

Lemma Qcdiv_nonneg (s q : Qc) : (0 <= s)%Qc -> (0 < q)%Qc -> (0 <= s / q)%Qc.
Proof.
  intros Hs Hq. unfold Qcdiv.
  replace 0%Qc with (0 * / q)%Qc by ring.
  apply Qcmult_le_compat_r; [assumption |].
  apply Qclt_le_weak. now apply Qcinv_pos.
Qed.

Lemma rect_bed_round (w : list num) (i : nat) (q s : Qc) :
  nth i w zero = Fin q -> (0 < q)%Qc -> (0 <= s)%Qc ->
  sec_of (rect_bed w) i (thk_of (rect_bed w) i (Fin s)) = Fin s.
Proof.
  intros Hw Hq Hs. cbn [rect_bed sec_of thk_of]. rewrite Hw.
  assert (Hq0 : q <> 0%Qc).
  { intros E. rewrite E in Hq. exact (Qclt_not_eq _ _ Hq eq_refl). }
  rewrite ndiv_Fin by assumption. rewrite clip_min_Fin.
  - cbn [nmul]. f_equal. field. assumption.
  - change zero with (Fin 0%Qc). apply nlt_Fin_false.
    now apply Qcdiv_nonneg.
Qed.

Ltac qc_lt := apply Qclt_alt; vm_compute; reflexivity.
Ltac qc_le := apply Qcle_alt; vm_compute; discriminate.

Ltac regular_bin :=
  split; [vm_compute; reflexivity |];
  split;
    [ eexists; split; [reflexivity | intros _; qc_lt]
    | eexists; split; [reflexivity | qc_le] ].

Lemma regular_five : regular bed_five fl_five.
Proof.
  constructor.
  - reflexivity.
  - exists (qc 100 1). split; [reflexivity | qc_lt].
  - unfold bins. cbn [fl_five thick bed_h length map seq combine].
    repeat (apply Forall_cons; [regular_bin |]). apply Forall_nil.
  - intros b s Hin Hs. unfold bins in Hin.
    cbn [fl_five thick bed_h length map seq combine In] in Hin.
    repeat (destruct Hin as [<- | Hin];
            [apply rect_bed_round with (q := qc 10 1);
             [reflexivity | qc_lt | assumption] |]).
    contradiction.
Qed.

Ltac num_neq :=
  let E := fresh in
  intros E; apply (f_equal qv) in E; apply (f_equal this) in E;
  vm_compute in E; discriminate E.

(** The five-bin glacier asked for a loss of 5000 m3: nothing is clamped,
    and the loss applied is 5000 m3. *)
Lemma curve_conserves_volume_witness :
  exists fl1 ic,
    curve_call bed_five fl_five (nz (-5000)) (zeros 5) = Ok (fl1, (ic, zero))
    /\ applied_volumechange bed_five fl_five fl1 = nz (-5000).
Proof.
  apply (@curve_conserves_volume bed_five fl_five (qc (-5000) 1) (zeros 5)
           (nz 550) (nz 110)).
  - exact regular_five.
  - vm_compute. lia.
  - vm_compute; f_equal; num_eq.
  - vm_compute; f_equal; num_eq.
  - num_neq.
  - intros bvc E. vm_compute in E. injection E as <-.
    vm_compute. repeat constructor.
Defined.

(** ** No forcing *)

Lemma nadd_finite (x y : num) :
  isfinite (x + y) = true -> isfinite x = true /\ isfinite y = true.
Proof. destruct x, y; try discriminate. now split. Qed.

Lemma repeat_map {A C : Type} (x : C) (l : list A) :
  repeat x (length l) = map (fun _ => x) l.
Proof. induction l as [| a l IH]; [reflexivity |]. cbn. now rewrite IH. Qed.

Lemma with_thick_same (fl : flowline) : with_thick fl (thick fl) = fl.
Proof. now destruct fl. Qed.

Lemma any_map_false {A : Type} (p : A -> bool) (l : list A) :
  (forall x, In x l -> p x = false) -> any (map p l) = false.
Proof.
  unfold any. intros H. induction l as [| x l IH]; [reflexivity |].
  cbn. rewrite H by now left. apply IH. intros y Hy. apply H. now right.
Qed.

Section ZeroForcing.

Variable B : bed.
Variable fl : flowline.
Hypothesis Hreg : regular B fl.

(** The thickness that the setter stores for the cross-section of a bin is
    the thickness of the bin. *)
Hypothesis Hthk :
  Forall (fun b => thk_of B (b_idx b) (b_section B b) = b_thick b) (bins fl).

Let dx := dx_meter fl.
Let L := bins fl.

Lemma set_section_same : set_section B fl (section B fl) = fl.
Proof.
  unfold set_section.
  assert (E : mapi (thk_of B) (section B fl) = thick fl).
  { rewrite (@section_bins B fl (reg_len Hreg)).
    rewrite (@mapi_map_bins fl (reg_len Hreg)).
    transitivity (map b_thick (bins fl)).
    - apply map_ext_in. intros b Hin. rewrite Forall_forall in Hthk.
      now apply Hthk.
    - symmetry. apply (@thick_bins fl (reg_len Hreg)). }
  rewrite E. apply with_thick_same.
Qed.

Lemma thick_finite (b : bin) : In b L -> isfinite (b_thick b) = true.
Proof.
  intros Hin. pose proof (reg_bins Hreg) as H. rewrite Forall_forall in H.
  destruct (H b Hin) as (Hh & _). now apply nadd_finite in Hh.
Qed.

Lemma section_finite (b : bin) :
  In b L -> exists s, b_section B b = Fin s /\ (0 <= s)%Qc.
Proof.
  intros Hin. pose proof (reg_bins Hreg) as H. rewrite Forall_forall in H.
  now destruct (H b Hin) as (_ & _ & Hs).
Qed.

Lemma dx_finite : exists d, dx = Fin d /\ d <> 0%Qc.
Proof.
  destruct (reg_dx Hreg) as (d & Hd & Hpos). exists d. split; [exact Hd |].
  intros E. rewrite E in Hpos. exact (Qclt_not_eq _ _ Hpos eq_refl).
Qed.

(** The curve function when the volume change of every bin is zero. *)
Lemma curve_call_zero_change (vc : num) (mb : list num) :
  bin_volumechange dx (thick fl) (widths_m B fl) (nonzero (thick fl)) vc mb
    (surface_h fl) = Ok (map (fun _ => Fin 0%Qc) L) ->
  curve_call B fl vc mb = Ok (fl, (map (fun _ => Fin 0%Qc) L, zero)).
Proof.
  intros Hbvc. unfold curve_call, massredistributioncurveHuss. fold dx.
  rewrite Hbvc. cbn [bind]. cbv zeta.
  destruct dx_finite as (d & Hd & Hd0).
  assert (Hsec :
    map (fun s => clip_min s zero)
      (zipw nadd (section B fl)
         (map (fun v => v / dx) (map (fun _ => Fin 0%Qc) L))) = section B fl).
  { rewrite (@section_bins B fl (reg_len Hreg)), map_map, zipw_map, map_map.
    apply map_ext_in. intros b Hin.
    destruct (@section_finite b Hin) as (s & Hs & Hs0).
    rewrite Hs, Hd, ndiv_Fin by assumption. cbn [nadd].
    replace (s + 0 / d)%Qc with s by (field; assumption).
    apply clip_min_Fin. change zero with (Fin 0%Qc). now apply nlt_Fin_false. }
  rewrite Hsec, set_section_same. f_equal. f_equal. f_equal.
  - rewrite (@thick_bins fl (reg_len Hreg)), zipw_map.
    apply map_ext_in. intros b Hin.
    rewrite (@finite_qv _ (@thick_finite b Hin)).
    change (Fin (qv (b_thick b)) - Fin (qv (b_thick b)))
      with (Fin (qv (b_thick b) - qv (b_thick b))).
    f_equal. ring.
  - rewrite (@section_bins B fl (reg_len Hreg)), !map_map, !zipw_map, !map_map.
    rewrite mask_set_map2, asum_finite with (g := fun _ => 0%Qc).
    + change zero with (Fin 0%Qc). f_equal. apply qsum_zero.
    + intros b Hin. destruct (@section_finite b Hin) as (s & Hs & _).
      rewrite Hs, Hd.
      assert (E : Fin 0%Qc - (Fin s * Fin d - Fin s * Fin d) = Fin 0%Qc).
      { change (Fin 0%Qc - (Fin s * Fin d - Fin s * Fin d))
          with (Fin (0 - (s * d - s * d))).
        f_equal. ring. }
      rewrite E. reflexivity.
Qed.

Lemma area_finite (b : bin) : In b L -> exists a, b_area B dx b = Fin a.
Proof.
  intros Hin. destruct (@area_fin B fl Hreg b Hin) as (H & _). eauto.
Qed.

Lemma zeros_bins : zeros (length (thick fl)) = map (fun _ => zero) L.
Proof.
  unfold zeros. rewrite <- (@length_bins fl (reg_len Hreg)). apply repeat_map.
Qed.

(** At most three active bins and a mass balance of zero. *)
Lemma bvc_zero_degenerate (vc : num) :
  (length (nonzero (thick fl)) <= 3)%nat ->
  bin_volumechange dx (thick fl) (widths_m B fl) (nonzero (thick fl)) vc
    (zeros (length (thick fl))) (surface_h fl) = Ok (map (fun _ => Fin 0%Qc) L).
Proof.
  intros Hn. rewrite bin_volumechange_degenerate by assumption. f_equal.
  unfold dx. rewrite (@glacier_area_bins B fl (reg_len Hreg)), zeros_bins.
  rewrite zipw_map. apply map_ext_in. intros b Hin.
  destruct (@area_finite b Hin) as (a & Ha). fold dx. rewrite Ha.
  cbn [nmul zero nz fin]. f_equal. apply Qcmult_0_l.
Qed.

(** More than three active bins, not all at one elevation, and a requested
    volume change of zero. *)
Lemma bvc_zero_curve (mb : list num) (hmax hmin : num) :
  (3 < length (nonzero (thick fl)))%nat ->
  amax (active_heights fl) = Ok hmax ->
  amin (active_heights fl) = Ok hmin ->
  hmax <> hmin ->
  bin_volumechange dx (thick fl) (widths_m B fl) (nonzero (thick fl))
    (Fin 0%Qc) mb (surface_h fl) = Ok (map (fun _ => Fin 0%Qc) L).
Proof.
  intros Hn Hmax Hmin Hne. unfold dx.
  rewrite (@bvc_bins B fl Hreg hmax hmin Hn Hmax Hmin Hne 0%Qc mb).
  f_equal. apply map_ext. intros b. f_equal. unfold Qcdiv. ring.
Qed.

(** The glacier-wide volume change of a year without mass balance. *)
Lemma volumechange_zero (sec : num) :
  isfinite sec = true ->
  glacier_volumechange_of dx (thick fl) (widths_m B fl)
    (zeros (length (thick fl))) sec false = Fin 0%Qc.
Proof.
  intros Hsec. unfold glacier_volumechange_of. cbv zeta.
  unfold dx. rewrite (@glacier_area_bins B fl (reg_len Hreg)), zeros_bins.
  rewrite map_map, zipw_map, asum_finite with (g := fun _ => 0%Qc).
  - f_equal. apply qsum_zero.
  - intros b Hin. destruct (@area_finite b Hin) as (a & Ha).
    fold dx. rewrite Ha, (@finite_qv sec Hsec).
    cbn [nmul zero nz fin]. f_equal.
    change (qc 0 1) with 0%Qc. ring.
Qed.

(** The redistribution of a year without mass balance: it returns the
    flowline as it was, with no fuel at all for its two loops. *)
Lemma redistribute_zero (fuel : nat) (idx0 : list nat) (sec : num) :
  isfinite sec = true ->
  ((length (nonzero (thick fl)) <= 3)%nat
   \/ exists hmax hmin,
        amax (active_heights fl) = Ok hmax
        /\ amin (active_heights fl) = Ok hmin /\ hmax <> hmin) ->
  massredistributionHuss B fuel fl (section B fl) (thick fl) (widths_m B fl)
    (zeros (length (thick fl))) idx0 (surface_h fl) false sec = Ok fl.
Proof.
  intros Hsec Hcase. unfold massredistributionHuss. fold dx.
  rewrite volumechange_zero by assumption.
  destruct (nz (-1) * Fin 0%Qc <? glacier_volume_total B fl); [| reflexivity].
  assert (Hbvc :
    bin_volumechange dx (thick fl) (widths_m B fl) (nonzero (thick fl))
      (Fin 0%Qc) (zeros (length (thick fl))) (surface_h fl)
    = Ok (map (fun _ => Fin 0%Qc) L)).
  { destruct (Nat.le_gt_cases (length (nonzero (thick fl))) 3) as [Hle | Hgt].
    - now apply bvc_zero_degenerate.
    - destruct Hcase as [Hle | (hmax & hmin & Hmax & Hmin & Hne)]; [lia |].
      now apply bvc_zero_curve with (hmax := hmax) (hmin := hmin). }
  pose proof (@curve_call_zero_change _ _ Hbvc) as Hc. unfold curve_call in Hc.
  rewrite Hc. cbn [bind].
  rewrite retreat_loop_done by apply nlt_irrefl. cbn [bind].
  rewrite advance_loop_done; [reflexivity |].
  apply any_map_false. intros x Hx. apply in_map_iff in Hx.
  destruct Hx as (b & <- & _). reflexivity.
Qed.

End ZeroForcing.

(** A year without mass balance leaves a glacier in a regular state as it
    is, provided its active bins are at most three or not all at one
    elevation, and provided the bed gives back the thickness of every bin
    when the section of that thickness is assigned (line 686 assigns the
    section, and the thickness is read back from it).  The update returns
    with any fuel, also with none: neither loop is entered. *)
Theorem zero_forcing_keeps_flowline
    (B : bed) (get_annual_mb : list num -> list flowline -> nat -> Z -> list num)
    (sec_in_year : Z -> num) (fuel : nat) (m : model) (fl : flowline)
    (year : Z) (idx0 : list nat) :
  fls m = [fl] ->
  regular B fl ->
  Forall (fun b => thk_of B (b_idx b) (b_section B b) = b_thick b) (bins fl) ->
  ((length (nonzero (thick fl)) <= 3)%nat
   \/ exists hmax hmin,
        amax (active_heights fl) = Ok hmax
        /\ amin (active_heights fl) = Ok hmin /\ hmax <> hmin) ->
  get_annual_mb (surface_h fl) (fls m) 0%nat year = zeros (length (thick fl)) ->
  isfinite (sec_in_year year) = true ->
  get_idx_initial m 0 = Ok idx0 ->
  exists m',
    updategeometry B get_annual_mb sec_in_year fuel m year = Ok m'
    /\ fls m' = [fl].
Proof.
  intros Hfls Hreg Hthk Hcase Hmb Hsec Hidx.
  unfold updategeometry. rewrite Hfls.
  assert (E : updategeometry_fl B get_annual_mb sec_in_year fuel m fl 0 year
              = Ok fl).
  { unfold updategeometry_fl.
    destruct (option_areaconstant m || (year <? spinupyears m)%Z
              || (year <? constantarea_years m)%Z); [reflexivity |].
    destruct (0 <? length (nonzero (section B fl)))%nat; [| reflexivity].
    rewrite Hidx. cbn [bind]. rewrite Hmb.
    now apply redistribute_zero. }
  rewrite E. cbn [bind]. eexists. split; reflexivity.
Qed.

Lemma thickness_round_five :
  Forall (fun b => thk_of bed_five (b_idx b) (b_section bed_five b) = b_thick b)
    (bins fl_five).
Proof.
  unfold bins. cbn [fl_five thick bed_h length map seq combine].
  repeat (apply Forall_cons; [num_eq |]). apply Forall_nil.
Qed.

(** The five-bin glacier in a year without mass balance, with no fuel. *)
Lemma zero_forcing_keeps_flowline_witness :
  exists m',
    updategeometry bed_five (uniform_mb zero) (fun _ => seconds_365) 0
      (model_of fl_five) 0 = Ok m'
    /\ fls m' = [fl_five].
Proof.
  apply (@zero_forcing_keeps_flowline bed_five (uniform_mb zero)
           (fun _ => seconds_365) 0 (model_of fl_five) fl_five 0
           (nonzero (thick fl_five))).
  - reflexivity.
  - exact regular_five.
  - exact thickness_round_five.
  - right. exists (nz 550), (nz 110).
    split; [vm_compute; f_equal; num_eq |].
    split; [vm_compute; f_equal; num_eq | num_neq].
  - unfold uniform_mb, surface_h. cbn [fl_five thick bed_h map zipw length zeros repeat].
    repeat (f_equal; try num_eq).
  - reflexivity.
  - reflexivity.
Defined.

(* ================================================================== *)
(** * Further properties of the engine *)

(** ** The branch of the small glaciers *)

(** On a glacier with at most three active bins the redistribution of the
    year reads the seconds of the year in the test of line 449 only: the
    volume change of every bin is the mass balance times the bin area, as
    line 676 has it, and not a share of the requested volume change, in
    which line 436 has multiplied the mass balance by the seconds of the
    year.  So two years that differ in their length only, and both pass the
    test, lead to the same outcome. *)
Theorem small_glacier_redistribution_ignores_seconds
    (B : bed) (fuel : nat) (fl : flowline)
    (section_t0 thick_t0 width_t0 mb : list num) (glac_idx_initial : list nat)
    (heights : list num) (hindcast : bool) (sec1 sec2 : num) :
  (length (nonzero (thick fl)) <= 3)%nat ->
  (nz (-1) * glacier_volumechange_of (dx_meter fl) thick_t0 width_t0 mb sec1
               hindcast <? glacier_volume_total B fl) = true ->
  (nz (-1) * glacier_volumechange_of (dx_meter fl) thick_t0 width_t0 mb sec2
               hindcast <? glacier_volume_total B fl) = true ->
  bin_volumechange (dx_meter fl) thick_t0 width_t0 (nonzero (thick fl))
    (glacier_volumechange_of (dx_meter fl) thick_t0 width_t0 mb sec1 hindcast)
    mb heights
  = Ok (zipw nmul mb (glacier_area (dx_meter fl) width_t0 thick_t0))
  /\ massredistributionHuss B fuel fl section_t0 thick_t0 width_t0 mb
       glac_idx_initial heights hindcast sec1
     = massredistributionHuss B fuel fl section_t0 thick_t0 width_t0 mb
         glac_idx_initial heights hindcast sec2.
Proof.
  intros Hsmall H1 H2. split; [now apply bin_volumechange_degenerate |].
  unfold massredistributionHuss. rewrite H1, H2.
  unfold massredistributioncurveHuss.
  now rewrite !bin_volumechange_degenerate by assumption.
Qed.

(** The three-bin glacier under a mass balance of -1 m of ice per 365
    days: a year of 365 days and a year of one second. *)
Lemma small_glacier_redistribution_ignores_seconds_witness :
  let mb := uniform_mb (nz (-1)) (surface_h fl_three) [fl_three] 0%nat 0%Z in
  bin_volumechange (dx_meter fl_three) (thick fl_three)
    (widths_m bed_three fl_three) (nonzero (thick fl_three))
    (glacier_volumechange_of (dx_meter fl_three) (thick fl_three)
       (widths_m bed_three fl_three) mb seconds_365 false)
    mb (surface_h fl_three)
  = Ok (zipw nmul mb
          (glacier_area (dx_meter fl_three) (widths_m bed_three fl_three)
             (thick fl_three)))
  /\ redistribute bed_three 10 fl_three mb seconds_365
     = redistribute bed_three 10 fl_three mb (nz 1).
Proof.
  cbv zeta.
  apply (@small_glacier_redistribution_ignores_seconds bed_three 10 fl_three).
  - vm_compute. lia.
  - vm_compute. reflexivity.
  - vm_compute. reflexivity.
Defined.

(** The five-bin glacier: its curve values lie in [0, 1]. *)
Lemma curve_in_unit_interval_witness :
  let area :=
    glacier_area (dx_meter fl_five) (widths_m bed_five fl_five) (thick fl_five) in
  exists norm,
    icethicknesschange_norm (select_coeffs (asum area)) area
      (nonzero (thick fl_five)) (surface_h fl_five) = Ok norm
    /\ Forall in_unit_interval norm.
Proof.
  apply (@curve_in_unit_interval bed_five fl_five (nz 550) (nz 110)).
  - exact regular_five.
  - vm_compute; f_equal; num_eq.
  - vm_compute; f_equal; num_eq.
  - num_neq.
Defined.

(** ** The shapes of the masked assignments *)

Lemma where_from_length (m : list bool) (i j : nat) :
  length (where_from i m) = length (where_from j m).
Proof.
  revert i j. induction m as [| b m IH]; intros i j; [reflexivity |].
  cbn. destruct b; cbn; [f_equal |]; apply IH.
Qed.

Lemma mask_put_length (xs : list num) (m : list bool) (vs r : list num) :
  mask_put xs m vs = Ok r -> length r = length xs.
Proof.
  revert m vs r. induction xs as [| x xs IH]; intros [| b m] vs r H.
  - destruct vs; [now injection H as <- | discriminate].
  - destruct vs; [now injection H as <- | discriminate].
  - destruct vs; [now injection H as <- | discriminate].
  - cbn [mask_put] in H. destruct b.
    + destruct vs as [| v vs]; [discriminate |].
      destruct (mask_put xs m vs) as [r' | |] eqn:E; try discriminate.
      injection H as <-. cbn. f_equal. now apply IH with (m := m) (vs := vs).
    + destruct (mask_put xs m vs) as [r' | |] eqn:E; try discriminate.
      injection H as <-. cbn. f_equal. now apply IH with (m := m) (vs := vs).
Qed.

(** A masked assignment of an array whose length is not the number of true
    places raises. *)
Lemma mask_put_mismatch (xs : list num) (m : list bool) (vs : list num) :
  length xs = length m ->
  length vs <> length (where_ m) ->
  mask_put xs m vs = Raise ValueError.
Proof.
  unfold where_. revert xs vs.
  induction m as [| b m IH]; intros [| x xs] vs Hlen Hvs; try discriminate.
  - destruct vs; [contradiction | reflexivity].
  - cbn in Hlen. injection Hlen as Hlen. cbn [mask_put where_from] in *.
    destruct b.
    + destruct vs as [| v vs]; [reflexivity |].
      rewrite IH; [reflexivity | assumption |].
      cbn in Hvs. rewrite (where_from_length m 1 0) in Hvs. lia.
    + rewrite IH; [reflexivity | assumption |].
      now rewrite (where_from_length m 1 0) in Hvs.
Qed.

Lemma take_length (xs : list num) (idx : list nat) (r : list num) :
  take xs idx = Ok r -> length r = length idx.
Proof.
  revert r. induction idx as [| i idx IH]; intros r H.
  - now injection H as <-.
  - cbn [take] in H. destruct (get xs i); try discriminate. cbn [bind] in H.
    destruct (take xs idx) as [r' | |]; try discriminate.
    injection H as <-. cbn. f_equal. now apply IH.
Qed.

(** Whatever the input, the curve values that the function returns are as
    many as the bins, and each of them is [nan] or lies in [0, 1]. *)
Theorem icethicknesschange_norm_range
    (k : coeffs) (area : list num) (idx : list nat) (heights norm : list num) :
  icethicknesschange_norm k area idx heights = Ok norm ->
  length norm = length area
  /\ Forall (fun x => x = NaN \/ in_unit_interval x) norm.
Proof.
  unfold icethicknesschange_norm. intros H.
  destruct (take heights idx) as [hs | |]; try discriminate. cbn [bind] in H.
  destruct (amax hs) as [hmax | |]; try discriminate. cbn [bind] in H.
  destruct (amin hs) as [hmin | |]; try discriminate. cbn [bind] in H.
  destruct (mask_put (zeros (length area)) _ _) as [e | |]; try discriminate.
  cbn [bind] in H.
  destruct (mask_put (zeros (length area)) _ _) as [n0 | |] eqn:E;
    try discriminate.
  cbn [bind] in H. injection H as <-. split.
  - rewrite clip01_map, length_map. apply mask_put_length in E.
    rewrite E. unfold zeros. apply repeat_length.
  - apply clip01_range.
Qed.

Lemma icethicknesschange_norm_range_witness :
  let area :=
    glacier_area (dx_meter fl_five) (widths_m bed_five fl_five) (thick fl_five) in
  exists norm,
    icethicknesschange_norm (select_coeffs (asum area)) area
      (nonzero (thick fl_five)) (surface_h fl_five) = Ok norm
    /\ length norm = 5%nat
    /\ Forall (fun x => x = NaN \/ in_unit_interval x) norm.
Proof.
  cbv zeta.
  destruct (icethicknesschange_norm _ _ _ _) as [norm | e |] eqn:E.
  - exists norm. split; [reflexivity |].
    exact (icethicknesschange_norm_range _ _ _ _ E).
  - vm_compute in E. discriminate E.
  - vm_compute in E. discriminate E.
Defined.

(** When the bins of positive area are not as many as the active bins that
    the caller passes, the curve branch raises a [ValueError] at line 653,
    before the flowline is touched. *)
Theorem curve_branch_raises_on_shape_mismatch
    (B : bed) (fl : flowline) (section_t0 thick_t0 width_t0 : list num)
    (glac_idx_t0 : list nat) (vc : num) (mb heights hs : list num) :
  (3 < length glac_idx_t0)%nat ->
  take heights glac_idx_t0 = Ok hs ->
  length glac_idx_t0 <>
    length (where_ (map (fun a => a >? zero)
                      (glacier_area (dx_meter fl) width_t0 thick_t0))) ->
  massredistributioncurveHuss B fl section_t0 thick_t0 width_t0 glac_idx_t0
    vc mb heights = Raise ValueError.
Proof.
  intros Hn Htake Hmis.
  unfold massredistributioncurveHuss, bin_volumechange.
  apply Nat.ltb_lt in Hn. rewrite Hn.
  unfold icethicknesschange_norm. rewrite Htake. cbn [bind].
  pose proof (take_length _ _ Htake) as Hhs.
  destruct hs as [| h hs]; [cbn in Hhs; apply Nat.ltb_lt in Hn; lia |].
  cbn [amax amin bind].
  rewrite mask_put_mismatch; [reflexivity | |].
  - unfold zeros. now rewrite repeat_length, length_map.
  - now rewrite length_map, Hhs.
Qed.

(** The five-bin glacier on a bed whose third bin has no width: five
    active bins, four bins of positive area. *)
Lemma curve_branch_raises_on_shape_mismatch_witness :
  curve_call bed_gap fl_five (nz (-1000)) (zeros 5) = Raise ValueError.
Proof.
  unfold curve_call.
  apply (@curve_branch_raises_on_shape_mismatch bed_gap fl_five
           (section bed_gap fl_five) (thick fl_five) (widths_m bed_gap fl_five)
           (nonzero (thick fl_five)) (nz (-1000)) (zeros 5) (surface_h fl_five)
           (surface_h fl_five)).
  - vm_compute. lia.
  - vm_compute. reflexivity.
  - vm_compute. lia.
Defined.

(** ** What the yearly update leaves alone *)

Lemma same_frame_refl (fl : flowline) : same_frame fl fl.
Proof. now split. Qed.

Lemma same_frame_trans (fl1 fl2 fl3 : flowline) :
  same_frame fl1 fl2 -> same_frame fl2 fl3 -> same_frame fl1 fl3.
Proof. unfold same_frame. intros [H1 H2] [H3 H4]. split; congruence. Qed.

Lemma same_frame_with_thick (fl : flowline) (t : list num) :
  same_frame fl (with_thick fl t).
Proof. now split. Qed.

Lemma same_frame_set_section (B : bed) (fl : flowline) (v : list num) :
  same_frame fl (set_section B fl v).
Proof. now split. Qed.

Section Frame.

Variable B : bed.

Lemma curve_frame (fl : flowline) (s t w : list num) (idx : list nat)
    (vc : num) (mb h : list num) (fl' : flowline) (r : list num * num) :
  massredistributioncurveHuss B fl s t w idx vc mb h = Ok (fl', r) ->
  same_frame fl fl'.
Proof.
  unfold massredistributioncurveHuss. intros H.
  destruct (bin_volumechange _ _ _ _ _ _ _); try discriminate.
  cbn [bind] in H. injection H as <- _. apply same_frame_set_section.
Qed.

Lemma retreat_step_frame (fl : flowline) (t0 h : list num) (rem : num)
    (fl' : flowline) (r : list num * num) :
  retreat_step B fl t0 h rem = Ok (fl', r) -> same_frame fl fl'.
Proof.
  unfold retreat_step. intros H.
  destruct (idx_set _ _ _); try discriminate. cbn [bind] in H.
  now apply curve_frame in H.
Qed.

Lemma retreat_loop_frame (fuel : nat) (fl : flowline) (t0 h ic : list num)
    (rem : num) (fl' : flowline) (r : list num * num) :
  retreat_loop B fuel fl t0 h ic rem = Ok (fl', r) -> same_frame fl fl'.
Proof.
  revert fl ic rem. induction fuel as [| fuel IH]; intros fl ic rem H;
    cbn [retreat_loop] in H; destruct (rem <? zero); try discriminate;
    try (injection H as <- _; apply same_frame_refl).
  destruct (retreat_step B fl t0 h rem) as [[fl1 [ic1 rem1]] | |] eqn:E;
    try discriminate.
  cbn [bind] in H. apply retreat_step_frame in E. apply IH in H.
  now apply same_frame_trans with fl1.
Qed.

Lemma advance_cap_frame (fl : flowline) (ic : list num) (fl' : flowline)
    (r : list num * list num * list num * num) :
  advance_cap B fl ic = Ok (fl', r) -> same_frame fl fl'.
Proof.
  unfold advance_cap. cbv zeta. intros H.
  repeat (match type of H with
          | bind ?m _ = _ => destruct m; try discriminate; cbn [bind] in H
          end).
  injection H as <- _. apply same_frame_with_thick.
Qed.

Lemma advance_colonize_frame (fl : flowline) (v : num) (fl' : flowline)
    (r : list nat * nat) :
  advance_colonize B fl v = Ok (fl', r) -> same_frame fl fl'.
Proof.
  unfold advance_colonize. cbv zeta. intros H.
  repeat (match type of H with
          | bind ?m _ = _ => destruct m; try discriminate; cbn [bind] in H
          end).
  injection H as <- _. apply same_frame_set_section.
Qed.

Lemma advance_fill_frame (fl : flowline) (b : nat) (avg v : num)
    (fl' : flowline) (v' : num) :
  advance_fill B fl b avg v = Ok (fl', v') -> same_frame fl fl'.
Proof.
  unfold advance_fill. intros H.
  destruct (get (thick fl) b) as [t | |]; try discriminate. cbn [bind] in H.
  destruct (t >? avg).
  - destruct (set_at (thick fl) b avg) as [th | |]; try discriminate.
    cbn [bind] in H.
    destruct (get (section B (with_thick fl th)) b); try discriminate.
    cbn [bind] in H. injection H as <- _. apply same_frame_with_thick.
  - injection H as <- _. apply same_frame_refl.
Qed.

Lemma advance_rest_frame (fl : flowline) (h sraw a1 : list num) (v : num)
    (ic : list num) (rem : num) (fl' : flowline) (r : list num * num) :
  advance_rest B fl h sraw a1 v ic rem = Ok (fl', r) -> same_frame fl fl'.
Proof.
  unfold advance_rest. intros H. destruct (v >? zero).
  - destruct (amin _); try discriminate. cbn [bind] in H.
    destruct (length _ =? 0)%nat.
    + injection H as <- _. apply same_frame_set_section.
    + destruct (idx_set _ _ _); try discriminate. cbn [bind] in H.
      now apply curve_frame in H.
  - injection H as <- _. apply same_frame_refl.
Qed.

Lemma advance_step_frame (fl : flowline) (h : list num) (idx : list nat)
    (ic : list num) (rem : num) (fl' : flowline) (r : list num * num) :
  advance_step B fl h idx ic rem = Ok (fl', r) -> same_frame fl fl'.
Proof.
  unfold advance_step. intros H.
  destruct (advance_cap B fl ic) as [[fl1 [[[sraw ic1] a1] v]] | |] eqn:E1;
    try discriminate.
  cbn [bind] in H.
  destruct (advance_colonize B fl1 v) as [[fl2 [idx2 b]] | |] eqn:E2;
    try discriminate.
  cbn [bind] in H.
  destruct (terminus_thickness_avg fl2 h idx2 idx) as [avg | |];
    try discriminate.
  cbn [bind] in H.
  destruct (advance_fill B fl2 b avg v) as [[fl3 v'] | |] eqn:E3;
    try discriminate.
  cbn [bind] in H.
  apply advance_cap_frame in E1. apply advance_colonize_frame in E2.
  apply advance_fill_frame in E3. apply advance_rest_frame in H.
  eauto using same_frame_trans.
Qed.

Lemma advance_loop_frame (fuel : nat) (fl : flowline) (h : list num)
    (idx : list nat) (ic : list num) (rem : num) (fl' : flowline)
    (r : list num * num) :
  advance_loop B fuel fl h idx ic rem = Ok (fl', r) -> same_frame fl fl'.
Proof.
  revert fl ic rem. induction fuel as [| fuel IH]; intros fl ic rem H;
    cbn [advance_loop] in H; destruct (any _); try discriminate;
    try (injection H as <- _; apply same_frame_refl).
  destruct (advance_step B fl h idx ic rem) as [[fl1 [ic1 rem1]] | |] eqn:E;
    try discriminate.
  cbn [bind] in H. apply advance_step_frame in E. apply IH in H.
  now apply same_frame_trans with fl1.
Qed.

Lemma massredistributionHuss_frame (fuel : nat) (fl : flowline)
    (s t w mb : list num) (idx : list nat) (h : list num) (hind : bool)
    (sec : num) (fl' : flowline) :
  massredistributionHuss B fuel fl s t w mb idx h hind sec = Ok fl' ->
  same_frame fl fl'.
Proof.
  unfold massredistributionHuss. intros H.
  destruct (_ <? glacier_volume_total B fl).
  - destruct (massredistributioncurveHuss _ _ _ _ _ _ _ _ _)
      as [[fl1 [ic1 rem1]] | |] eqn:E1; try discriminate.
    cbn [bind] in H.
    destruct (retreat_loop B fuel fl1 t h ic1 rem1)
      as [[fl2 [ic2 rem2]] | |] eqn:E2; try discriminate.
    cbn [bind] in H.
    destruct (advance_loop B fuel fl2 h idx ic2 rem2)
      as [[fl3 r3] | |] eqn:E3; try discriminate.
    cbn [bind] in H. injection H as <-.
    apply curve_frame in E1. apply retreat_loop_frame in E2.
    apply advance_loop_frame in E3. eauto using same_frame_trans.
  - injection H as <-. apply same_frame_refl.
Qed.

End Frame.

Lemma same_settings_refl (m : model) : same_settings m m.
Proof. unfold same_settings. tauto. Qed.

Lemma same_settings_trans (m1 m2 m3 : model) :
  same_settings m1 m2 -> same_settings m2 m3 -> same_settings m1 m3.
Proof.
  unfold same_settings.
  intros (A1 & A2 & A3 & A4 & A5 & A6 & A7 & A8)
         (C1 & C2 & C3 & C4 & C5 & C6 & C7 & C8).
  repeat split; congruence.
Qed.

Section YearlyFrame.

Variable B : bed.
Variable get_annual_mb : list num -> list flowline -> nat -> Z -> list num.
Variable sec_in_year : Z -> num.
Variable fuel : nat.

Lemma updategeometry_fl_frame (m : model) (fl : flowline) (fl_id : nat)
    (year : Z) (fl' : flowline) :
  updategeometry_fl B get_annual_mb sec_in_year fuel m fl fl_id year = Ok fl' ->
  same_frame fl fl'.
Proof.
  unfold updategeometry_fl. intros H.
  destruct (option_areaconstant m || (year <? spinupyears m)%Z
            || (year <? constantarea_years m)%Z).
  - injection H as <-. apply same_frame_refl.
  - destruct (0 <? length (nonzero (section B fl)))%nat.
    + destruct (get_idx_initial m fl_id); try discriminate. cbn [bind] in H.
      now apply massredistributionHuss_frame in H.
    + injection H as <-. apply same_frame_refl.
Qed.

(** One update: the settings stay, the flowline stays on its bed, and one
    record, that of the year, is added. *)
Lemma updategeometry_frame (m : model) (year : Z) (m' : model) :
  updategeometry B get_annual_mb sec_in_year fuel m year = Ok m' ->
  same_settings m m'
  /\ exists fl fl',
       fls m = [fl] /\ fls m' = [fl'] /\ same_frame fl fl'
       /\ records m' = record_year B fl' year :: records m.
Proof.
  unfold updategeometry. intros H.
  destruct (fls m) as [| fl [| ? ?]] eqn:Ef; try discriminate.
  destruct (updategeometry_fl B get_annual_mb sec_in_year fuel m fl 0 year)
    as [fl' | |] eqn:E; try discriminate.
  cbn [bind] in H. injection H as <-. split.
  - unfold same_settings. cbn. tauto.
  - exists fl, fl'. repeat split; try reflexivity;
      apply updategeometry_fl_frame in E; apply E.
Qed.

End YearlyFrame.

(** Whatever the mass balance and however many years are run, a run that
    returns has changed nothing but the thickness of the flowline and the
    annual records: the settings, the initial extent, the bed elevations
    and the bin spacing are those of the start, and the records have
    grown by one per year, the latest first. *)
Theorem run_years_changes_thickness_only
    (B : bed) (get_annual_mb : list num -> list flowline -> nat -> Z -> list num)
    (sec_in_year : Z -> num) (fuel : nat)
    (years : list Z) (m m' : model) (fl : flowline) :
  fls m = [fl] ->
  run_years B get_annual_mb sec_in_year fuel m years = Ok m' ->
  same_settings m m'
  /\ (exists fl', fls m' = [fl'] /\ same_frame fl fl')
  /\ map rec_year (records m') = rev years ++ map rec_year (records m).
Proof.
  revert m fl. induction years as [| y years IH]; intros m fl Hfl H.
  - cbn in H. injection H as <-. split; [apply same_settings_refl |].
    split; [exists fl; split; [assumption | apply same_frame_refl] |].
    reflexivity.
  - cbn [run_years] in H.
    destruct (updategeometry B get_annual_mb sec_in_year fuel m y)
      as [m1 | |] eqn:E; try discriminate.
    cbn [bind] in H. apply updategeometry_frame in E.
    destruct E as (Hs & fl0 & fl1 & Hf0 & Hf1 & Hfr & Hrec).
    rewrite Hfl in Hf0. injection Hf0 as <-.
    destruct (IH m1 fl1 Hf1 H) as (Hs' & (fl' & Hf' & Hfr') & Hrec').
    split; [now apply same_settings_trans with m1 |].
    split; [exists fl'; split;
            [assumption | now apply same_frame_trans with fl1] |].
    rewrite Hrec', Hrec. cbn [rev map rec_year record_year].
    now rewrite <- app_assoc.
Qed.

(** Two years of -1 m of ice on the five-bin glacier. *)
Lemma run_years_changes_thickness_only_witness :
  exists m',
    run_years bed_five (uniform_mb (nz (-1))) (fun _ => seconds_365) 10
      (model_of fl_five) [0; 1]%Z = Ok m'
    /\ same_settings (model_of fl_five) m'
    /\ (exists fl', fls m' = [fl'] /\ same_frame fl_five fl')
    /\ map rec_year (records m') = [1; 0]%Z.
Proof.
  destruct (run_years bed_five (uniform_mb (nz (-1))) (fun _ => seconds_365) 10
              (model_of fl_five) [0; 1]%Z) as [m' | e |] eqn:E.
  - exists m'. split; [reflexivity |].
    exact (@run_years_changes_thickness_only bed_five (uniform_mb (nz (-1)))
             (fun _ => seconds_365) 10 [0; 1]%Z (model_of fl_five) m' fl_five
             eq_refl E).
  - vm_compute in E. discriminate E.
  - vm_compute in E. discriminate E.
Defined.

(** ** The years of constant area *)

Lemma updategeometry_constant_area
    (B : bed) (get_annual_mb : list num -> list flowline -> nat -> Z -> list num)
    (sec_in_year : Z -> num) (fuel : nat) (m : model) (fl : flowline) (year : Z) :
  fls m = [fl] ->
  constant_area_year m year = true ->
  updategeometry B get_annual_mb sec_in_year fuel m year =
  Ok (with_record (with_fls m [fl]) (record_year B fl year)).
Proof.
  intros Hfl Hc. unfold updategeometry, updategeometry_fl. rewrite Hfl.
  unfold constant_area_year in Hc. now rewrite Hc.
Qed.

(** In constant-area mode, in the spin-up years and in the constant-area
    years, the run returns whatever the mass balance and the fuel are, the
    flowline is left exactly as it is, and every year is recorded with the
    geometry of the start. *)
Theorem constant_area_years_keep_the_flowline
    (B : bed) (get_annual_mb : list num -> list flowline -> nat -> Z -> list num)
    (sec_in_year : Z -> num) (fuel : nat)
    (years : list Z) (m : model) (fl : flowline) :
  fls m = [fl] ->
  Forall (fun y => constant_area_year m y = true) years ->
  exists m',
    run_years B get_annual_mb sec_in_year fuel m years = Ok m'
    /\ fls m' = [fl]
    /\ records m' = rev (map (record_year B fl) years) ++ records m.
Proof.
  revert m. induction years as [| y years IH]; intros m Hfl Hall.
  - exists m. repeat split; assumption || reflexivity.
  - inversion Hall as [| ? ? Hy Hys]; subst.
    cbn [run_years].
    rewrite (@updategeometry_constant_area B get_annual_mb sec_in_year fuel
               m fl y Hfl Hy).
    cbn [bind].
    destruct (IH (with_record (with_fls m [fl]) (record_year B fl y)) eq_refl)
      as (m' & Hrun & Hfls & Hrec).
    { exact Hys. }
    exists m'. split; [exact Hrun |]. split; [exact Hfls |].
    rewrite Hrec. cbn [records with_record map rev].
    now rewrite <- app_assoc.
Qed.

(** Three years of spin-up under -100 m of ice a year, with no fuel. *)
Lemma constant_area_years_keep_the_flowline_witness :
  exists m',
    run_years bed_five (uniform_mb (nz (-100))) (fun _ => seconds_365) 0
      (model_spinup fl_five) [0; 1; 2]%Z = Ok m'
    /\ fls m' = [fl_five]
    /\ records m' =
       rev (map (record_year bed_five fl_five) [0; 1; 2]%Z) ++ [].
Proof.
  apply (@constant_area_years_keep_the_flowline bed_five
           (uniform_mb (nz (-100))) (fun _ => seconds_365) 0 [0; 1; 2]%Z
           (model_spinup fl_five) fl_five eq_refl).
  repeat constructor.
Defined.

(** ** The run that stores *)

Lemma Qc_eq_bool_refl (x : Qc) : Qc_eq_bool x x = true.
Proof. unfold Qc_eq_bool. now destruct (Qc_eq_dec x x). Qed.

Lemma py_int_inject (z : Z) : py_int (Q2Qc (inject_Z z)) = z.
Proof.
  unfold py_int.
  assert (E : (Q2Qc (inject_Z z) : Q) == inject_Z z) by apply Qred_correct.
  destruct (Q2Qc (inject_Z z) ?= 0)%Qc.
  - rewrite E. apply Qfloor_Z.
  - rewrite E. apply Qceiling_Z.
  - rewrite E. apply Qfloor_Z.
Qed.

(** [int(y1) != y1] is false for the whole numbers and for them only. *)
Lemma not_integral_false (y : Qc) :
  not_integral y = false <-> exists z : Z, y = Q2Qc (inject_Z z).
Proof.
  unfold not_integral. rewrite negb_false_iff. split.
  - intros H. apply Qc_eq_bool_correct in H. exists (py_int y). now symmetry.
  - intros [z ->]. rewrite py_int_inject. apply Qc_eq_bool_refl.
Qed.

Lemma no_hemisphere_true (h : option String.string) :
  no_hemisphere h = true <-> h = None \/ h = Some String.EmptyString.
Proof.
  destruct h as [[| c s] |]; cbn; split; intros H; auto;
    try discriminate; destruct H as [H | H]; discriminate.
Qed.

Section StoreFacts.

Variable B : bed.
Variable get_annual_mb : list num -> list flowline -> nat -> Z -> list num.
Variable sec_in_year : Z -> num.
Variable fuel : nat.
Variable hemisphere : option String.string.
Variable mb_step_monthly : bool.
Variable is_tidewater : bool.
Variable is_marine_terminating : bool.
Variable floatyear_months : list Qc -> list Z.
Variable monthly_timeseries : Z -> Qc -> list Qc.
Variables volume_m3 area_m2 length_m : model -> num.
Variables calving_rate_myr volume_bsl_m3 volume_bwl_m3 : model -> num.
Variable calving_bucket_m3 : flowline -> option num.

Let step :=
  store_step B get_annual_mb sec_in_year fuel is_tidewater is_marine_terminating
    volume_m3 area_m2 length_m calving_rate_myr volume_bsl_m3 volume_bwl_m3
    calving_bucket_m3.
Let loop :=
  store_loop B get_annual_mb sec_in_year fuel is_tidewater is_marine_terminating
    volume_m3 area_m2 length_m calving_rate_myr volume_bsl_m3 volume_bwl_m3
    calving_bucket_m3.
Lemma run_until_single (m : model) (year : Z) (m' : model) :
  run_until B get_annual_mb sec_in_year fuel m year true = Ok m' <->
  updategeometry B get_annual_mb sec_in_year fuel m year = Ok m'
  /\ validate m' = Ok tt.
Proof.
  unfold run_until.
  destruct (updategeometry B get_annual_mb sec_in_year fuel m year)
    as [m1 | |]; cbn [bind]; try (split; [discriminate | intros [? _]; discriminate]).
  destruct (validate m1) as [[] | |] eqn:V; cbn [bind]; split.
  - intros [= <-]. now split.
  - now intros [[= <-] _].
  - discriminate.
  - intros [[= <-] H]. congruence.
  - discriminate.
  - intros [[= <-] H]. congruence.
Qed.

Lemma store_step_model (i : nat) (year mo : Z) (st st' : store_state) :
  step i year mo st = Ok st' ->
  run_until B get_annual_mb sec_in_year fuel (st_model st) year true
  = Ok (st_model st').
Proof.
  unfold step, store_step. intros H.
  destruct (record_initial _ _ _ _ _ _); try discriminate. cbn [bind] in H.
  destruct (run_until B get_annual_mb sec_in_year fuel (st_model st) year true)
    as [m' | |]; try discriminate.
  cbn [bind] in H.
  match type of H with
  | bind ?x _ = _ => destruct x as [[j' r1] | |]; try discriminate
  end.
  cbn [bind] in H.
  destruct (record_diagnostics _ _ _ _ _ _ _ _ _ _ _); try discriminate.
  cbn [bind] in H. now injection H as <-.
Qed.

(** The model through the loop: it is updated year by year, and checked
    after every year. *)
Lemma store_loop_model (ym : list (Z * Z)) (i : nat) (st st' : store_state) :
  loop i ym st = Ok st' ->
  run_years B get_annual_mb sec_in_year fuel (st_model st) (map fst ym)
  = Ok (st_model st')
  /\ (ym <> [] -> validate (st_model st') = Ok tt).
Proof.
  revert i st. induction ym as [| [year mo] ym IH]; intros i st H.
  - cbn in H. injection H as <-. split; [reflexivity | congruence].
  - unfold loop in H. cbn [store_loop] in H. fold step in H. fold loop in H.
    destruct (step i year mo st) as [st1 | |] eqn:E; try discriminate.
    cbn [bind] in H. apply store_step_model in E.
    apply run_until_single in E. destruct E as [Eu Ev].
    destruct (IH _ _ H) as [Hrun Hval]. split.
    + cbn [map fst run_years]. rewrite Eu. cbn [bind]. exact Hrun.
    + intros _. destruct ym as [| p ym].
      * cbn in H. injection H as <-. exact Ev.
      * apply Hval. discriminate.
Qed.

End StoreFacts.

(** ** The arrays of the run that stores *)

Ltac bind_ok H :=
  match type of H with
  | bind ?x _ = Ok _ =>
      let E := fresh "E" in
      destruct x eqn:E; cbn [bind] in H; [| discriminate H | discriminate H]
  end.

Ltac bind_as H x E :=
  match type of H with
  | bind ?y _ = Ok _ =>
      destruct y as [x | |] eqn:E; cbn [bind] in H;
      [| discriminate H | discriminate H]
  end.

Lemma set_nth_inv {A : Type} (done rest : list A) (v : A) (r : list A) :
  set_nth (done ++ rest) (length done) v = Ok r ->
  exists x rest', rest = x :: rest' /\ r = done ++ v :: rest'.
Proof.
  revert r. induction done as [| d done IH]; intros r H.
  - destruct rest as [| x rest']; cbn in H; [discriminate |].
    injection H as <-. now exists x, rest'.
  - cbn [app length set_nth] in H. bind_ok H. injection H as <-.
    destruct (IH _ eq_refl) as (x & rest' & -> & ->). now exists x, rest'.
Qed.

Lemma set_nth_app {A : Type} (done rest : list A) (x v : A) :
  set_nth (done ++ x :: rest) (length done) v = Ok (done ++ v :: rest).
Proof.
  induction done as [| d done IH]; cbn [app length set_nth]; [reflexivity |].
  now rewrite IH.
Qed.

Lemma nth_error_inv {A : Type} (done rest : list A) (old : A) :
  nth_error (done ++ rest) (length done) = Some old ->
  exists rest', rest = old :: rest'.
Proof.
  induction done as [| d done IH]; cbn [app length nth_error]; [| exact IH].
  destruct rest as [| x rest']; [discriminate |]. intros [= ->]. now exists rest'.
Qed.

Lemma skipn_nans (k n : nat) : skipn k (nans n) = nans (n - k).
Proof.
  revert n. induction k as [| k IH]; intros n.
  - now rewrite Nat.sub_0_r.
  - destruct n as [| n]; [reflexivity |]. cbn [nans repeat skipn Nat.sub].
    apply IH.
Qed.

Lemma removelast_map {A C : Type} (f : A -> C) (l : list A) :
  removelast (map f l) = map f (removelast l).
Proof.
  induction l as [| a [| b l] IH]; [reflexivity | reflexivity |].
  change (f a :: removelast (map f (b :: l)) = f a :: map f (removelast (b :: l))).
  now rewrite IH.
Qed.

Lemma removelast_len {A : Type} (l : list A) :
  length (removelast l) = pred (length l).
Proof.
  induction l as [| a [| b l] IH]; [reflexivity | reflexivity |].
  change (S (length (removelast (b :: l))) = S (length l)).
  now rewrite IH.
Qed.

Lemma map_fst_combine {A C : Type} (xs : list A) (ys : list C) :
  length xs = length ys -> map fst (combine xs ys) = xs.
Proof.
  revert ys. induction xs as [| x xs IH]; intros [| y ys] H;
    try discriminate; [reflexivity |].
  cbn. f_equal. apply IH. now injection H.
Qed.

Lemma combine_const {A : Type} (c : Z) (xs : list A) :
  combine xs (map (fun _ => c) xs) = map (fun x => (x, c)) xs.
Proof. induction xs as [| x xs IH]; [reflexivity |]. cbn. now rewrite IH. Qed.

(** All but the last of the years of the time axis are the years that
    [run_until] runs. *)
Lemma removelast_yearly_time (m : model) (y1 : Qc) :
  removelast (yearly_time m y1) = years_until m (Qfloor y1).
Proof.
  unfold yearly_time, years_until. rewrite removelast_map. f_equal.
  destruct (Z_lt_le_dec (Qfloor y1 - yr m) 0) as [Hlt | Hle].
  - replace (Z.to_nat (Qfloor y1 + 1 - yr m)) with 0%nat by lia.
    replace (Z.to_nat (Qfloor y1 - yr m)) with 0%nat by lia. reflexivity.
  - replace (Z.to_nat (Qfloor y1 + 1 - yr m))
      with (S (Z.to_nat (Qfloor y1 - yr m))) by lia.
    rewrite seq_S. apply removelast_last.
Qed.

Lemma yearly_time_length (m : model) (y1 : Qc) :
  (yr m <= Qfloor y1)%Z ->
  length (yearly_time m y1) = S (length (years_until m (Qfloor y1))).
Proof.
  intros H. unfold yearly_time, years_until. rewrite !length_map, !length_seq.
  lia.
Qed.

Lemma run_trace_length (B : bed)
    (get_annual_mb : list num -> list flowline -> nat -> Z -> list num)
    (sec_in_year : Z -> num) (fuel : nat) (years : list Z) (m : model)
    (ms : list model) :
  run_trace B get_annual_mb sec_in_year fuel m years = Ok ms ->
  length ms = length years.
Proof.
  revert m ms. induction years as [| y years IH]; intros m ms H.
  - cbn in H. now injection H as <-.
  - cbn [run_trace] in H. bind_ok H. bind_ok H. injection H as <-.
    cbn. f_equal. eapply IH; eassumption.
Qed.

Section StoreArrays.

Variable B : bed.
Variable get_annual_mb : list num -> list flowline -> nat -> Z -> list num.
Variable sec_in_year : Z -> num.
Variable fuel : nat.
Variable hemisphere : option String.string.
Variable mb_step_monthly : bool.
Variable is_tidewater : bool.
Variable is_marine_terminating : bool.
Variable floatyear_months : list Qc -> list Z.
Variable monthly_timeseries : Z -> Qc -> list Qc.
Variables volume_m3 area_m2 length_m : model -> num.
Variables calving_rate_myr volume_bsl_m3 volume_bwl_m3 : model -> num.
Variable calving_bucket_m3 : flowline -> option num.

Let rec_initial := record_initial volume_m3 area_m2 length_m.
Let rec_geometry := record_geometry B is_tidewater calving_bucket_m3.
Let rec_diagnostics :=
  record_diagnostics is_tidewater is_marine_terminating volume_m3 area_m2
    length_m calving_rate_myr volume_bsl_m3 volume_bwl_m3.
Let step :=
  store_step B get_annual_mb sec_in_year fuel is_tidewater is_marine_terminating
    volume_m3 area_m2 length_m calving_rate_myr volume_bsl_m3 volume_bwl_m3
    calving_bucket_m3.
Let loop :=
  store_loop B get_annual_mb sec_in_year fuel is_tidewater is_marine_terminating
    volume_m3 area_m2 length_m calving_rate_myr volume_bsl_m3 volume_bwl_m3
    calving_bucket_m3.
Let trace := run_trace B get_annual_mb sec_in_year fuel.

Lemma record_initial_inv (i : nat) (m : model) (r r0 : stored_run) :
  rec_initial i m r = Ok r0 ->
  (if (i =? 0)%nat then set_nth (d_volume_m3 r) 0 (volume_m3 m)
   else Ok (d_volume_m3 r)) = Ok (d_volume_m3 r0)
  /\ (if (i =? 0)%nat then set_nth (d_area_m2 r) 0 (area_m2 m)
      else Ok (d_area_m2 r)) = Ok (d_area_m2 r0)
  /\ (if (i =? 0)%nat then set_nth (d_length_m r) 0 (length_m m)
      else Ok (d_length_m r)) = Ok (d_length_m r0)
  /\ d_ela_m r0 = d_ela_m r
  /\ ts_section r0 = ts_section r
  /\ ts_width_m r0 = ts_width_m r.
Proof.
  unfold rec_initial, record_initial. intros H.
  destruct (i =? 0)%nat eqn:Ei.
  - apply Nat.eqb_eq in Ei. subst i.
    bind_ok H. bind_ok H. bind_ok H. injection H as <-. cbn.
    repeat split; assumption.
  - injection H as <-. repeat split; reflexivity.
Qed.

Lemma record_geometry_inv (j : nat) (m : model) (r r' : stored_run) :
  rec_geometry j m r = Ok r' ->
  store_rows j (ts_section r) (map (section B) (fls m)) = Ok (ts_section r')
  /\ store_rows j (ts_width_m r) (map (widths_m B) (fls m)) = Ok (ts_width_m r')
  /\ d_volume_m3 r' = d_volume_m3 r
  /\ d_area_m2 r' = d_area_m2 r
  /\ d_length_m r' = d_length_m r
  /\ d_ela_m r' = d_ela_m r.
Proof.
  unfold rec_geometry, record_geometry. intros H.
  bind_ok H. bind_ok H. bind_ok H. injection H as <-. cbn.
  repeat split; assumption.
Qed.

Lemma record_diagnostics_inv (i : nat) (m : model) (r r' : stored_run) :
  rec_diagnostics i m r = Ok r' ->
  set_nth (d_volume_m3 r) (S i) (volume_m3 m) = Ok (d_volume_m3 r')
  /\ set_nth (d_area_m2 r) (S i) (area_m2 m) = Ok (d_area_m2 r')
  /\ set_nth (d_length_m r) (S i) (length_m m) = Ok (d_length_m r')
  /\ d_ela_m r' = d_ela_m r
  /\ ts_section r' = ts_section r
  /\ ts_width_m r' = ts_width_m r.
Proof.
  unfold rec_diagnostics, record_diagnostics. intros H.
  bind_ok H. bind_ok H. bind_ok H. bind_ok H. bind_ok H. bind_ok H. bind_ok H.
  injection H as <-. cbn. repeat split; assumption.
Qed.

Lemma store_step_inv (i : nat) (year mo : Z) (st st' : store_state) :
  step i year mo st = Ok st' ->
  exists r0 r1,
    rec_initial i (st_model st) (st_run st) = Ok r0
    /\ updategeometry B get_annual_mb sec_in_year fuel (st_model st) year
       = Ok (st_model st')
    /\ (if (mo =? 1)%Z
        then rec_geometry (st_j st) (st_model st') r0 = Ok r1
             /\ st_j st' = S (st_j st)
        else r1 = r0 /\ st_j st' = st_j st)
    /\ rec_diagnostics i (st_model st') r1 = Ok (st_run st').
Proof.
  unfold step, store_step. intros H.
  bind_as H r0 E0. bind_as H m' E1. bind_as H p E2. destruct p as [j' r1].
  bind_as H r2 E3. injection H as <-. cbn [st_model st_j st_run].
  apply run_until_single in E1. destruct E1 as [E1 _].
  exists r0, r1. split; [exact E0 |]. split; [exact E1 |].
  split; [| exact E3].
  destruct (mo =? 1)%Z.
  - bind_as E2 r E4. injection E2 as <- <-. split; [exact E4 | reflexivity].
  - injection E2 as <- <-. now split.
Qed.

(** No pass of the loop writes the equilibrium line altitude. *)
Lemma store_loop_ela (ym : list (Z * Z)) (i : nat) (st st' : store_state) :
  loop i ym st = Ok st' -> d_ela_m (st_run st') = d_ela_m (st_run st).
Proof.
  revert i st. induction ym as [| [year mo] ym IH]; intros i st H.
  - cbn in H. now injection H as <-.
  - unfold loop in H. cbn [store_loop] in H. fold step in H. fold loop in H.
    bind_as H s E. rewrite (IH _ _ H). apply store_step_inv in E.
    destruct E as (r0 & r1 & Hi & _ & Hg & Hd).
    apply record_initial_inv in Hi. apply record_diagnostics_inv in Hd.
    destruct Hi as (_ & _ & _ & Hi & _). destruct Hd as (_ & _ & _ & Hd & _).
    rewrite Hd, <- Hi. destruct (mo =? 1)%Z.
    + destruct Hg as [Hg _]. apply record_geometry_inv in Hg.
      now destruct Hg as (_ & _ & _ & _ & _ & ->).
    + now destruct Hg as [-> _].
Qed.

(** *** One diagnostic through the loop *)

Section Diagnostic.

Variable arr : stored_run -> list num.
Variable f : model -> num.

Hypothesis arr_initial : forall i m r r0,
  rec_initial i m r = Ok r0 ->
  (if (i =? 0)%nat then set_nth (arr r) 0 (f m) else Ok (arr r)) = Ok (arr r0).
Hypothesis arr_geometry : forall j m r r',
  rec_geometry j m r = Ok r' -> arr r' = arr r.
Hypothesis arr_diagnostics : forall i m r r',
  rec_diagnostics i m r = Ok r' -> set_nth (arr r) (S i) (f m) = Ok (arr r').

Lemma store_step_diagnostic (i : nat) (year mo : Z) (st st' : store_state) :
  step i year mo st = Ok st' ->
  exists v0,
    (if (i =? 0)%nat then set_nth (arr (st_run st)) 0 (f (st_model st))
     else Ok (arr (st_run st))) = Ok v0
    /\ set_nth v0 (S i) (f (st_model st')) = Ok (arr (st_run st'))
    /\ updategeometry B get_annual_mb sec_in_year fuel (st_model st) year
       = Ok (st_model st').
Proof.
  intros H. apply store_step_inv in H.
  destruct H as (r0 & r1 & Hi & Hu & Hg & Hd).
  exists (arr r0). split; [now apply arr_initial |]. split; [| exact Hu].
  apply arr_diagnostics in Hd.
  destruct (mo =? 1)%Z.
  - destruct Hg as [Hg _]. apply arr_geometry in Hg. now rewrite <- Hg.
  - destruct Hg as [-> _]. exact Hd.
Qed.

(** After the first pass: the entries up to the one of the pass are set,
    and every pass sets the next one. *)
Lemma store_loop_diagnostic_next (ym : list (Z * Z)) (i : nat)
    (st st' : store_state) (done rest : list num) :
  loop (S i) ym st = Ok st' ->
  arr (st_run st) = done ++ rest ->
  length done = S (S i) ->
  exists ms,
    trace (st_model st) (map fst ym) = Ok ms
    /\ arr (st_run st') = done ++ map f ms ++ skipn (length ms) rest.
Proof.
  revert i st done rest. induction ym as [| [year mo] ym IH];
    intros i st done rest H Harr Hlen.
  - cbn in H. injection H as <-. exists []. split; [reflexivity |].
    now rewrite Harr.
  - unfold loop in H. cbn [store_loop] in H. fold step in H. fold loop in H.
    bind_as H s E. apply store_step_diagnostic in E.
    destruct E as (v0 & H0 & H1 & Hu). cbn [Nat.eqb] in H0.
    injection H0 as <-. rewrite Harr, <- Hlen in H1.
    apply set_nth_inv in H1. destruct H1 as (x & rest' & -> & H1).
    destruct (IH (S i) s (done ++ [f (st_model s)]) rest' H) as (ms & Ht & Hr).
    + rewrite H1, <- app_assoc. reflexivity.
    + rewrite length_app. cbn. lia.
    + exists (st_model s :: ms). split.
      * unfold trace. cbn [map fst run_trace]. rewrite Hu. cbn [bind].
        fold trace. rewrite Ht. reflexivity.
      * rewrite Hr, <- app_assoc. reflexivity.
Qed.

(** The whole loop on an array that is all [nan]: without a pass nothing
    is written, not even the start; otherwise the array holds the start and
    the states after the passes. *)
Lemma store_loop_diagnostic (ym : list (Z * Z)) (st st' : store_state) (n : nat) :
  loop 0 ym st = Ok st' ->
  arr (st_run st) = nans n ->
  exists ms,
    trace (st_model st) (map fst ym) = Ok ms
    /\ arr (st_run st')
       = match ms with
         | [] => nans n
         | _ => f (st_model st) :: map f ms ++ nans (n - S (length ms))
         end.
Proof.
  destruct ym as [| [year mo] ym]; intros H Harr.
  - cbn in H. injection H as <-. exists []. now split.
  - unfold loop in H. cbn [store_loop] in H. fold step in H. fold loop in H.
    bind_as H s E. apply store_step_diagnostic in E.
    destruct E as (v0 & H0 & H1 & Hu). cbn [Nat.eqb] in H0. rewrite Harr in H0.
    apply (set_nth_inv []) in H0. destruct H0 as (x & r1 & Hn & ->).
    apply (set_nth_inv [f (st_model st)]) in H1.
    destruct H1 as (x' & r2 & -> & H1).
    destruct (store_loop_diagnostic_next ym s [f (st_model st); f (st_model s)] r2 H)
      as (ms & Ht & Hr); [exact H1 | reflexivity |].
    exists (st_model s :: ms). split.
    + unfold trace. cbn [map fst run_trace]. rewrite Hu. cbn [bind].
      fold trace. rewrite Ht. reflexivity.
    + rewrite Hr. cbn [app map length]. do 2 f_equal. f_equal.
      destruct n as [| [| n]]; try discriminate.
      cbn [nans repeat] in Hn. injection Hn as _ _ <-.
      rewrite skipn_nans. reflexivity.
Qed.

End Diagnostic.

(** *** One matrix of the geometry through the loop *)

Section Geometry.

Variable mat : stored_run -> list (list (list num)).
Variable g : flowline -> list num.

Hypothesis mat_initial : forall i m r r0,
  rec_initial i m r = Ok r0 -> mat r0 = mat r.
Hypothesis mat_geometry : forall j m r r',
  rec_geometry j m r = Ok r' -> store_rows j (mat r) (map g (fls m)) = Ok (mat r').
Hypothesis mat_diagnostics : forall i m r r',
  rec_diagnostics i m r = Ok r' -> mat r' = mat r.

(** A yearly run: every pass writes the row of its index, the rows after it
    being untouched. *)
Lemma store_loop_geometry (years : list Z) (i : nat) (st st' : store_state)
    (nx k : nat) (done : list (list num)) :
  loop i (map (fun y => (y, 1%Z)) years) st = Ok st' ->
  st_j st = length done ->
  mat (st_run st) = [done ++ nan_rows k nx] ->
  exists ms,
    trace (st_model st) years = Ok ms
    /\ mat (st_run st')
       = [done ++ map (fun mk => stored_row nx (g (fl_of mk))) ms
            ++ nan_rows (k - length ms) nx].
Proof.
  revert i st k done. induction years as [| year years IH];
    intros i st k done H Hj Hmat.
  - cbn in H. injection H as <-. exists []. split; [reflexivity |].
    cbn [length map app]. now rewrite Nat.sub_0_r.
  - unfold loop in H. cbn [map store_loop] in H. fold step in H. fold loop in H.
    bind_as H s E. apply store_step_inv in E.
    destruct E as (r0 & r1 & Hi & Hu & Hg & Hd). cbn [Z.eqb Pos.eqb] in Hg.
    destruct Hg as [Hg Hj']. apply mat_initial in Hi. apply mat_geometry in Hg.
    apply mat_diagnostics in Hd.
    pose proof Hu as Hf. apply updategeometry_frame in Hf.
    destruct Hf as (_ & fl & fl' & _ & Hfl' & _).
    rewrite Hi, Hmat, Hj, Hfl' in Hg. cbn [map store_rows] in Hg.
    bind_as Hg mt E. cbn [bind] in Hg. injection Hg as Hg.
    unfold set_row in E.
    destruct (nth_error (done ++ nan_rows k nx) (length done)) as [old |] eqn:En;
      [| discriminate].
    apply nth_error_inv in En. destruct En as (rest' & En).
    destruct k as [| k]; [discriminate |].
    cbn [nan_rows repeat] in En. injection En as <- <-.
    destruct ((length (g fl') =? length (nans nx))%nat
              || (length (g fl') =? 1)%nat); [| discriminate].
    unfold nans in E. rewrite repeat_length in E.
    change (nan_rows (S k) nx) with (nans nx :: nan_rows k nx) in E.
    rewrite set_nth_app in E. injection E as <-.
    destruct (IH (S i) s k (done ++ [stored_row nx (g fl')]) H) as (ms & Ht & Hr).
    + rewrite Hj', Hj, length_app. cbn. lia.
    + rewrite Hd, <- Hg, <- app_assoc. reflexivity.
    + exists (st_model s :: ms). split.
      * unfold trace. cbn [run_trace]. rewrite Hu. cbn [bind].
        fold trace. rewrite Ht. reflexivity.
      * rewrite Hr, <- app_assoc. cbn [map app length Nat.sub].
        unfold fl_of. rewrite Hfl'. reflexivity.
Qed.

End Geometry.

End StoreArrays.

(** ** [run_until_and_store] *)

(** Two years of -1 m of ice on the five-bin glacier, stored yearly: the
    run returns. *)
Lemma sample_store_five_returns :
  match sample_store bed_five (nz (-1)) 10 (model_of fl_five) (nz 2) with
  | Through (Ok _) => True
  | _ => False
  end.
Proof. vm_compute. exact I. Qed.

(** What [run_until_and_store] raises before any year is run, and when.
    [int(y1)] raises [ValueError] on [nan] and [OverflowError] on an
    infinity.  [InvalidParamsError] is raised exactly when [y1] is finite
    and is not a whole number, or the mass-balance model has no hemisphere
    ([None] or the empty string).  [KeyError] is raised exactly when [y1]
    is whole, the hemisphere is a string that is not empty, and
    [cfg.PARAMS] has no hydrological month for it.  The state of the
    model, the step and the tidewater flags play no part. *)
Theorem run_until_and_store_argument_errors
    (B : bed) (get_annual_mb : list num -> list flowline -> nat -> Z -> list num)
    (sec_in_year : Z -> num) (fuel : nat) (hemisphere : option String.string)
    (hydro_month : String.string -> option Z)
    (mb_step_monthly is_tidewater is_marine_terminating : bool)
    (floatyear_months : list Qc -> list Z)
    (monthly_timeseries : Z -> Qc -> list Qc)
    (volume_m3 area_m2 length_m : model -> num)
    (calving_rate_myr volume_bsl_m3 volume_bwl_m3 : model -> num)
    (calving_bucket_m3 : flowline -> option num)
    (m : model) (y1 : num) (store_monthly_step : option bool) :
  let r :=
    run_until_and_store B get_annual_mb sec_in_year fuel hemisphere hydro_month
      mb_step_monthly is_tidewater is_marine_terminating floatyear_months
      monthly_timeseries volume_m3 area_m2 length_m calving_rate_myr
      volume_bsl_m3 volume_bwl_m3 calving_bucket_m3 m y1 store_monthly_step in
  (r = IntValueError <-> y1 = NaN)
  /\ (r = IntOverflowError <-> y1 = PInf \/ y1 = NInf)
  /\ (r = InvalidParamsError <->
      exists q : Qc,
        y1 = Fin q
        /\ ((~ exists z : Z, q = Q2Qc (inject_Z z))
            \/ hemisphere = None \/ hemisphere = Some String.EmptyString))
  /\ (r = ParamsKeyError <->
      exists (z : Z) (h : String.string),
        y1 = Fin (Q2Qc (inject_Z z))
        /\ hemisphere = Some h /\ h <> String.EmptyString
        /\ hydro_month h = None).
Proof.
  intros r. subst r. unfold run_until_and_store.
  destruct y1 as [q | | |].
  - destruct (not_integral q) eqn:E1.
    + split; [split; discriminate |].
      split; [split; [discriminate | intros [H | H]; discriminate] |].
      split.
      * split; [| reflexivity]. intros _. exists q. split; [reflexivity |].
        left. intros Hex. apply not_integral_false in Hex. congruence.
      * split; [discriminate |]. intros (z & h & Hq & _).
        injection Hq as ->.
        rewrite (proj2 (not_integral_false _) (ex_intro _ z eq_refl)) in E1.
        discriminate.
    + destruct (no_hemisphere hemisphere) eqn:E2.
      * split; [split; discriminate |].
        split; [split; [discriminate | intros [H | H]; discriminate] |].
        split.
        -- split; [| reflexivity]. intros _. exists q. split; [reflexivity |].
           right. now apply no_hemisphere_true.
        -- split; [discriminate |]. intros (z & h & _ & Hh & Hne & _).
           subst hemisphere. destruct h; [now elim Hne | discriminate].
      * assert (Hno : ~ (hemisphere = None
                         \/ hemisphere = Some String.EmptyString)).
        { intros Hh. apply no_hemisphere_true in Hh. congruence. }
        assert (Hbad : ~ exists q0 : Qc,
                   Fin q = Fin q0
                   /\ ((~ exists z : Z, q0 = Q2Qc (inject_Z z))
                       \/ hemisphere = None
                       \/ hemisphere = Some String.EmptyString)).
        { intros (q0 & Hq & [Hn | Hh]); [| now apply Hno].
          injection Hq as <-. apply Hn. now apply not_integral_false. }
        apply not_integral_false in E1. destruct E1 as [z Hz].
        destruct hemisphere as [h |]; [| discriminate].
        cbn [hydro_month_of]. destruct (hydro_month h) as [sm |] eqn:E3.
        -- split; [split; discriminate |].
           split; [split; [discriminate | intros [H | H]; discriminate] |].
           split; [split; [discriminate | intros H; now elim Hbad] |].
           split; [discriminate |]. intros (z' & h' & _ & Hh & _ & Hm).
           injection Hh as <-. congruence.
        -- split; [split; discriminate |].
           split; [split; [discriminate | intros [H | H]; discriminate] |].
           split; [split; [discriminate | intros H; now elim Hbad] |].
           split; [| reflexivity]. intros _. exists z, h.
           split; [now rewrite Hz |]. split; [reflexivity |].
           split; [| exact E3]. intros ->. apply Hno. now right.
  - split; [split; discriminate |].
    split; [split; [intros _; now left | reflexivity] |].
    split; [split; [discriminate | intros (q & H & _); discriminate] |].
    split; [discriminate | intros (z & h & H & _); discriminate].
  - split; [split; discriminate |].
    split; [split; [intros _; now right | reflexivity] |].
    split; [split; [discriminate | intros (q & H & _); discriminate] |].
    split; [discriminate | intros (z & h & H & _); discriminate].
  - split; [split; reflexivity |].
    split; [split; [discriminate | intros [H | H]; discriminate] |].
    split; [split; [discriminate | intros (q & H & _); discriminate] |].
    split; [discriminate | intros (z & h & H & _); discriminate].
Qed.

(** With yearly steps, a run that stores and returns leaves the model in
    the state that the years [yr, ..., y1 - 1] of [run_until] lead to; when
    there is a year to run, that is the model [run_until(y1)] returns. *)
Theorem store_run_ends_where_run_until_ends
    (B : bed) (get_annual_mb : list num -> list flowline -> nat -> Z -> list num)
    (sec_in_year : Z -> num) (fuel : nat) (hemisphere : option String.string)
    (hydro_month : String.string -> option Z)
    (mb_step_monthly is_tidewater is_marine_terminating : bool)
    (floatyear_months : list Qc -> list Z)
    (monthly_timeseries : Z -> Qc -> list Qc)
    (volume_m3 area_m2 length_m : model -> num)
    (calving_rate_myr volume_bsl_m3 volume_bwl_m3 : model -> num)
    (calving_bucket_m3 : flowline -> option num)
    (m : model) (y1 : Qc) (store_monthly_step : option bool)
    (m' : model) (out : stored_run) :
  (forall t, length (floatyear_months t) = length t) ->
  match store_monthly_step with Some b => b | None => mb_step_monthly end = false ->
  run_until_and_store B get_annual_mb sec_in_year fuel hemisphere hydro_month
    mb_step_monthly is_tidewater is_marine_terminating floatyear_months
    monthly_timeseries volume_m3 area_m2 length_m calving_rate_myr
    volume_bsl_m3 volume_bwl_m3 calving_bucket_m3 m (Fin y1) store_monthly_step
  = Through (Ok (m', out)) ->
  run_years B get_annual_mb sec_in_year fuel m (years_until m (Qfloor y1)) = Ok m'
  /\ ((yr m < Qfloor y1)%Z ->
      run_until B get_annual_mb sec_in_year fuel m (Qfloor y1) false = Ok m').
Proof.
  intros Hlen Hyearly H. unfold run_until_and_store in H.
  destruct (not_integral y1); [discriminate |].
  destruct (no_hemisphere hemisphere); [discriminate |].
  destruct (hydro_month_of _ _); [| discriminate].
  injection H as H. unfold store_run in H. cbv zeta in H. bind_as H st E. injection H as <- <-.
  apply store_loop_model in E. cbn [st_model] in E. destruct E as [Hrun Hval].
  assert (Hy : map fst
                 (combine (removelast (yearly_time m y1))
                    (removelast
                       (floatyear_months
                          (monthly_time monthly_timeseries m y1
                             match store_monthly_step with
                             | Some b => b
                             | None => mb_step_monthly
                             end))))
               = years_until m (Qfloor y1)).
  { rewrite map_fst_combine; [apply removelast_yearly_time |].
    rewrite !removelast_len, Hlen, Hyearly. unfold monthly_time.
    now rewrite length_map. }
  rewrite Hy in Hrun. split; [exact Hrun |]. intros Hlt.
  unfold run_until. rewrite Hrun. cbn [bind]. rewrite Hval; [reflexivity |].
  intros Hnil. apply (f_equal (map fst)) in Hnil. rewrite Hy in Hnil.
  unfold years_until in Hnil. apply (f_equal (@length Z)) in Hnil.
  rewrite length_map, length_seq in Hnil. cbn in Hnil. lia.
Qed.

(** Two years of -1 m of ice on the five-bin glacier, stored yearly. *)
Lemma store_run_ends_where_run_until_ends_witness :
  exists m' out,
    sample_store bed_five (nz (-1)) 10 (model_of fl_five) (nz 2)
    = Through (Ok (m', out))
    /\ run_years bed_five (uniform_mb (nz (-1))) (fun _ => seconds_365) 10
         (model_of fl_five) (years_until (model_of fl_five) 2) = Ok m'
    /\ ((yr (model_of fl_five) < 2)%Z ->
        run_until bed_five (uniform_mb (nz (-1))) (fun _ => seconds_365) 10
          (model_of fl_five) 2 false = Ok m').
Proof.
  generalize sample_store_five_returns.
  destruct (sample_store bed_five (nz (-1)) 10 (model_of fl_five) (nz 2))
    as [| | | | [[m' out] | e |]] eqn:E; intros R; try (exfalso; exact R).
  exists m', out. split; [reflexivity |].
  refine (@store_run_ends_where_run_until_ends _ _ _ _ _ _ _ _ _ _ _ _ _ _
            _ _ _ _ _ _ _ m' out _ _ E);
    [intros t; apply length_map | reflexivity].
Defined.

(** With yearly steps, the diagnostics of a run that stores and returns:
    the volume, the area and the length hold the state before the run and
    then the state after each year, but when there is no year to run
    ([y1 <= yr]) they are left [nan], the state before the run included;
    the equilibrium line altitude is [nan] everywhere. *)
Theorem store_run_diagnostics
    (B : bed) (get_annual_mb : list num -> list flowline -> nat -> Z -> list num)
    (sec_in_year : Z -> num) (fuel : nat) (hemisphere : option String.string)
    (hydro_month : String.string -> option Z)
    (mb_step_monthly is_tidewater is_marine_terminating : bool)
    (floatyear_months : list Qc -> list Z)
    (monthly_timeseries : Z -> Qc -> list Qc)
    (volume_m3 area_m2 length_m : model -> num)
    (calving_rate_myr volume_bsl_m3 volume_bwl_m3 : model -> num)
    (calving_bucket_m3 : flowline -> option num)
    (m : model) (y1 : Qc) (store_monthly_step : option bool)
    (m' : model) (out : stored_run) :
  (forall t, length (floatyear_months t) = length t) ->
  match store_monthly_step with Some b => b | None => mb_step_monthly end = false ->
  run_until_and_store B get_annual_mb sec_in_year fuel hemisphere hydro_month
    mb_step_monthly is_tidewater is_marine_terminating floatyear_months
    monthly_timeseries volume_m3 area_m2 length_m calving_rate_myr
    volume_bsl_m3 volume_bwl_m3 calving_bucket_m3 m (Fin y1) store_monthly_step
  = Through (Ok (m', out)) ->
  let ny := length (yearly_time m y1) in
  exists ms,
    run_trace B get_annual_mb sec_in_year fuel m (years_until m (Qfloor y1)) = Ok ms
    /\ d_volume_m3 out
       = match ms with [] => nans ny | _ => map volume_m3 (m :: ms) end
    /\ d_area_m2 out
       = match ms with [] => nans ny | _ => map area_m2 (m :: ms) end
    /\ d_length_m out
       = match ms with [] => nans ny | _ => map length_m (m :: ms) end
    /\ d_ela_m out = nans ny.
Proof.
  intros Hlen Hyearly H ny. unfold run_until_and_store in H.
  destruct (not_integral y1); [discriminate |].
  destruct (no_hemisphere hemisphere); [discriminate |].
  destruct (hydro_month_of _ _); [| discriminate].
  injection H as H. unfold store_run in H. cbv zeta in H. rewrite Hyearly in H.
  bind_as H st E. injection H as <- <-.
  assert (Hnm : length (monthly_time monthly_timeseries m y1 false) = ny).
  { unfold monthly_time. now rewrite length_map. }
  rewrite Hnm in E. fold ny in E.
  assert (Hy : map fst
                 (combine (removelast (yearly_time m y1))
                    (removelast
                       (floatyear_months
                          (monthly_time monthly_timeseries m y1 false))))
               = years_until m (Qfloor y1)).
  { rewrite map_fst_combine; [apply removelast_yearly_time |].
    rewrite !removelast_len, Hlen, Hnm. reflexivity. }
  assert (Hny : forall ms : list model,
             length ms = length (years_until m (Qfloor y1)) ->
             (ny - S (length ms) = 0)%nat).
  { intros ms ->. rewrite <- removelast_yearly_time, removelast_len.
    fold ny. lia. }
  assert (Hfill : forall (f : model -> num) (ms : list model) (a : list num),
             length ms = length (years_until m (Qfloor y1)) ->
             a = match ms with
                 | [] => nans ny
                 | _ => f m :: map f ms ++ nans (ny - S (length ms))
                 end ->
             a = match ms with [] => nans ny | _ => map f (m :: ms) end).
  { intros f ms a Hl ->. destruct ms as [| m1 ms]; [reflexivity |].
    rewrite (Hny _ Hl). cbn [nans repeat]. now rewrite app_nil_r. }
  destruct store_loop_diagnostic with (arr := d_volume_m3) (f := volume_m3) (4 := E) (n := ny)
    as (ms & Ht & Hv).
  { intros i m0 r r0 Hi. now apply record_initial_inv in Hi. }
  { intros j m0 r r' Hg. apply record_geometry_inv in Hg. tauto. }
  { intros i m0 r r' Hd. now apply record_diagnostics_inv in Hd. }
  { reflexivity. }
  destruct store_loop_diagnostic with (arr := d_area_m2) (f := area_m2) (4 := E) (n := ny)
    as (ms2 & Ht2 & Ha).
  { intros i m0 r r0 Hi. apply record_initial_inv in Hi. tauto. }
  { intros j m0 r r' Hg. apply record_geometry_inv in Hg. tauto. }
  { intros i m0 r r' Hd. apply record_diagnostics_inv in Hd. tauto. }
  { reflexivity. }
  destruct store_loop_diagnostic with (arr := d_length_m) (f := length_m) (4 := E) (n := ny)
    as (ms3 & Ht3 & Hl).
  { intros i m0 r r0 Hi. apply record_initial_inv in Hi. tauto. }
  { intros j m0 r r' Hg. apply record_geometry_inv in Hg. tauto. }
  { intros i m0 r r' Hd. apply record_diagnostics_inv in Hd. tauto. }
  { reflexivity. }
  cbn [st_model] in Ht, Ht2, Ht3. rewrite Hy in Ht, Ht2, Ht3.
  assert (ms2 = ms) by congruence. assert (ms3 = ms) by congruence.
  subst ms2 ms3. pose proof (run_trace_length _ _ _ _ _ _ Ht) as Hlm.
  exists ms. split; [exact Ht |].
  split; [now apply Hfill |]. split; [now apply Hfill |].
  split; [now apply Hfill |].
  apply store_loop_ela in E. exact E.
Qed.

(** Two years of -1 m of ice on the five-bin glacier, stored yearly. *)
Lemma store_run_diagnostics_witness :
  exists m' out ms,
    sample_store bed_five (nz (-1)) 10 (model_of fl_five) (nz 2)
    = Through (Ok (m', out))
    /\ run_trace bed_five (uniform_mb (nz (-1))) (fun _ => seconds_365) 10
         (model_of fl_five) (years_until (model_of fl_five) 2) = Ok ms
    /\ d_volume_m3 out
       = match ms with
         | [] => nans 3
         | _ => map (sample_volume_m3 bed_five) (model_of fl_five :: ms)
         end
    /\ d_area_m2 out
       = match ms with
         | [] => nans 3
         | _ => map (sample_area_m2 bed_five) (model_of fl_five :: ms)
         end
    /\ d_length_m out
       = match ms with
         | [] => nans 3
         | _ => map sample_length_m (model_of fl_five :: ms)
         end
    /\ d_ela_m out = nans 3.
Proof.
  generalize sample_store_five_returns.
  destruct (sample_store bed_five (nz (-1)) 10 (model_of fl_five) (nz 2))
    as [| | | | [[m' out] | e |]] eqn:E; intros R; try (exfalso; exact R).
  assert (H := fun Hl Hy =>
              @store_run_diagnostics _ _ _ _ _ _ _ _ _ _ _ _ _ _ _ _
                _ _ _ _ _ m' out Hl Hy E).
  destruct H as (ms & H);
    [intros t; apply length_map | reflexivity |].
  exists m', out, ms. split; [reflexivity | exact H].
Defined.

(** With yearly steps on a model that has not passed [y1], the geometry of
    a run that stores and returns: row [j] of the sections and of the widths
    holds the flowline after the update of year [yr + j], not the one at
    the start of that year, and the last row, the one of [y1], is left
    [nan]. *)
Theorem store_run_geometry_rows
    (B : bed) (get_annual_mb : list num -> list flowline -> nat -> Z -> list num)
    (sec_in_year : Z -> num) (fuel : nat) (hemisphere : option String.string)
    (hydro_month : String.string -> option Z)
    (mb_step_monthly is_tidewater is_marine_terminating : bool)
    (floatyear_months : list Qc -> list Z)
    (monthly_timeseries : Z -> Qc -> list Qc)
    (volume_m3 area_m2 length_m : model -> num)
    (calving_rate_myr volume_bsl_m3 volume_bwl_m3 : model -> num)
    (calving_bucket_m3 : flowline -> option num)
    (m : model) (y1 : Qc) (store_monthly_step : option bool)
    (fl : flowline) (m' : model) (out : stored_run) :
  floatyear_months (monthly_time monthly_timeseries m y1 false)
  = map (fun _ => 1%Z) (yearly_time m y1) ->
  match store_monthly_step with Some b => b | None => mb_step_monthly end = false ->
  fls m = [fl] ->
  (yr m <= Qfloor y1)%Z ->
  run_until_and_store B get_annual_mb sec_in_year fuel hemisphere hydro_month
    mb_step_monthly is_tidewater is_marine_terminating floatyear_months
    monthly_timeseries volume_m3 area_m2 length_m calving_rate_myr
    volume_bsl_m3 volume_bwl_m3 calving_bucket_m3 m (Fin y1) store_monthly_step
  = Through (Ok (m', out)) ->
  let nx := length (thick fl) in
  exists ms,
    run_trace B get_annual_mb sec_in_year fuel m (years_until m (Qfloor y1)) = Ok ms
    /\ ts_section out
       = [map (fun mk => stored_row nx (section B (fl_of mk))) ms ++ [nans nx]]
    /\ ts_width_m out
       = [map (fun mk => stored_row nx (widths_m B (fl_of mk))) ms ++ [nans nx]].
Proof.
  intros Hmonths Hyearly Hfl Hle H nx. unfold run_until_and_store in H.
  destruct (not_integral y1); [discriminate |].
  destruct (no_hemisphere hemisphere); [discriminate |].
  destruct (hydro_month_of _ _); [| discriminate].
  injection H as H. unfold store_run in H. cbv zeta in H. rewrite Hyearly in H.
  bind_as H st E. injection H as <- <-.
  rewrite Hmonths, removelast_map, combine_const, removelast_yearly_time in E.
  assert (Hrows : forall ms : list model,
             length ms = length (years_until m (Qfloor y1)) ->
             nan_rows (length (yearly_time m y1) - length ms) nx = [nans nx]).
  { intros ms ->. rewrite yearly_time_length by assumption.
    replace (S (length (years_until m (Qfloor y1)))
             - length (years_until m (Qfloor y1)))%nat with 1%nat by lia.
    reflexivity. }
  destruct store_loop_geometry
    with (mat := ts_section) (g := section B) (4 := E) (nx := nx) (k := length (yearly_time m y1))
         (done := @nil (list num))
    as (ms & Ht & Hs).
  { intros i m0 r r0 Hi. apply record_initial_inv in Hi. tauto. }
  { intros j m0 r r' Hg. now apply record_geometry_inv in Hg. }
  { intros i m0 r r' Hd. apply record_diagnostics_inv in Hd. tauto. }
  { reflexivity. }
  { cbn. rewrite Hfl. reflexivity. }
  destruct store_loop_geometry
    with (mat := ts_width_m) (g := widths_m B) (4 := E) (nx := nx) (k := length (yearly_time m y1))
         (done := @nil (list num))
    as (ms2 & Ht2 & Hw).
  { intros i m0 r r0 Hi. apply record_initial_inv in Hi. tauto. }
  { intros j m0 r r' Hg. apply record_geometry_inv in Hg. tauto. }
  { intros i m0 r r' Hd. apply record_diagnostics_inv in Hd. tauto. }
  { reflexivity. }
  { cbn. rewrite Hfl. reflexivity. }
  cbn [st_model] in Ht, Ht2. assert (ms2 = ms) by congruence. subst ms2.
  pose proof (run_trace_length _ _ _ _ _ _ Ht) as Hlm.
  exists ms. split; [exact Ht |].
  rewrite Hs, Hw, (Hrows _ Hlm). split; reflexivity.
Qed.

(** Two years of -1 m of ice on the five-bin glacier, stored yearly. *)
Lemma store_run_geometry_rows_witness :
  exists m' out ms,
    sample_store bed_five (nz (-1)) 10 (model_of fl_five) (nz 2)
    = Through (Ok (m', out))
    /\ run_trace bed_five (uniform_mb (nz (-1))) (fun _ => seconds_365) 10
         (model_of fl_five) (years_until (model_of fl_five) 2) = Ok ms
    /\ ts_section out
       = [map (fun mk => stored_row 5 (section bed_five (fl_of mk))) ms
            ++ [nans 5]]
    /\ ts_width_m out
       = [map (fun mk => stored_row 5 (widths_m bed_five (fl_of mk))) ms
            ++ [nans 5]].
Proof.
  generalize sample_store_five_returns.
  destruct (sample_store bed_five (nz (-1)) 10 (model_of fl_five) (nz 2))
    as [| | | | [[m' out] | e |]] eqn:E; intros R; try (exfalso; exact R).
  assert (H := fun Hm Hy Hf Hle =>
              @store_run_geometry_rows _ _ _ _ _ _ _ _ _ _ _ _ _ _ _ _
                _ _ _ _ _ fl_five m' out Hm Hy Hf Hle E).
  destruct H as (ms & H);
    [reflexivity | reflexivity | reflexivity | vm_compute; discriminate |].
  exists m', out, ms. split; [reflexivity | exact H].
Defined.
